(** * solid-flow: the graph state and geometry engine

    A shallow embedding of [src/graph/utils.ts] (edge identifiers and the
    snapshot builder [convertToLayeredGraph]) and of the gesture handlers
    and the reconciliation effect of the [FlowChart] component in
    [src/components/index.tsx], with the properties of the specification
    stated and settled against them.

    Modelling conventions.
    - Coordinates are JavaScript numbers in the source; they are integers
      ([Z]) here.  Port counts, port indices and node ordinals are natural
      numbers.
    - A JavaScript object used as a dictionary ([EdgesNodes],
      [EdgesPositions], [EdgesActive]) is a [gmap string _]; [Object.keys]
      enumerates it through [map_to_list], so the order of a reported
      edge list is not the insertion order of the source.
    - [undefined] is [None]; reading a property of [undefined] throws a
      [TypeError], which the handler monad records as [Threw].
    - An array whose identity matters (the host's edge array) is a pair of
      a reference and its elements.
    - The position objects of [nodesPositions] are the node labels of the
      layout graph, one object per node id; [handleOnNodeMove] writes one
      in place, and the write is seen at every ordinal that holds it (see
      [sharesPosition]). *)

From Stdlib Require Import ZArith Strings.String Strings.Ascii.
From Stdlib Require Import Decimal DecimalNat DecimalString.
From stdpp Require Import base option list strings gmap.


(** * Part I: the embedding *)

(** ** Strings: template literals and number rendering *)

(** [`${n}`] for a natural number [n]: its decimal digits. *)
Definition numberToString (n : nat) : string :=
  NilEmpty.string_of_uint (Nat.to_uint n).

(** Does the character [c] occur in [s]? *)
Fixpoint occurs (c : ascii) (s : string) : bool :=
  match s with
  | EmptyString => false
  | String c' s' => if Ascii.eqb c c' then true else occurs c s'
  end.

(** src/graph/utils.ts, getEdgeId *)
Definition getEdgeId (nodeOutId : string) (outputIndex : nat)
    (nodeInId : string) (inputIndex : nat) : string :=
  "edge_" +:+ nodeOutId +:+ ":" +:+ numberToString outputIndex
    +:+ "_" +:+ nodeInId +:+ ":" +:+ numberToString inputIndex.

(** ** Data model *)

Module Position.
Record t := mk { x : Z; y : Z }.
End Position.

Module Vector.
Record t := mk { x0 : Z; y0 : Z; x1 : Z; y1 : Z }.
End Vector.

(** The host's node: [NodeProps] of src/components/index.tsx, with the
    optional [color] that [convertToLayeredGraph] reads.  [Data] is the
    payload [{ label?, content }], which the engine never inspects. *)
Module NodeProps.
Record t {Data : Type} := mk {
  id : string;
  position : Position.t;
  data : Data;
  inputs : nat;
  outputs : nat;
  color : option string;
  actions : option bool
}.
Arguments t : clear implicits.
Arguments mk {Data}.
End NodeProps.

(** The host's edge: [EdgeProps] of src/components/index.tsx. *)
Module EdgeProps.
Record t := mk {
  id : string;
  sourceNode : string;
  targetNode : string;
  sourceOutput : nat;
  targetInput : nat
}.
End EdgeProps.

(** The engine's per-node record, as [initNodesData] builds it. *)
Module NodeData.
Record t {Data : Type} := mk {
  id : string;
  data : Data;
  inputs : nat;
  outputs : nat;
  color : string;
  edgesIn : list string;
  edgesOut : list string
}.
Arguments t : clear implicits.
Arguments mk {Data}.
Definition set_edgesIn {Data} (v : list string) (n : t Data) : t Data :=
  mk (id n) (data n) (inputs n) (outputs n) (color n) v (edgesOut n).
Definition set_edgesOut {Data} (v : list string) (n : t Data) : t Data :=
  mk (id n) (data n) (inputs n) (outputs n) (color n) (edgesIn n) v.
End NodeData.

(** A value of the [EdgesNodes] dictionary: the endpoints of an edge. *)
Module EdgeNode.
Record t := mk {
  outNodeId : string;
  outputIndex : nat;
  inNodeId : string;
  inputIndex : nat
}.
End EdgeNode.

(** A port anchor, [{ offset: Position }]. *)
Module Port.
Record t := mk { offset : Position.t }.
End Port.

(** An element of [nodesOffsets]. *)
Module NodeOffsets.
Record t := mk { inputs : list Port.t; outputs : list Port.t }.
End NodeOffsets.

(** The pending edge, the value of the [newEdge] signal when not null. *)
Module NewEdge.
Record t := mk { position : Vector.t; sourceNode : nat; sourceOutput : nat }.
End NewEdge.

(** The payload of the [console.warn] of [convertToLayeredGraph]. *)
Module Warning.
Record t := mk {
  edge : string;
  sourceNode : string;
  sourceExists : bool;
  targetNode : string;
  targetExists : bool
}.
End Warning.

(** The object [convertToLayeredGraph] returns.  A node position is the
    label [graph.node(id)] of the layout graph. *)
Module Snapshot.
Record t {Data : Type} := mk {
  initNodesPositions : list Position.t;
  initNodesData : list (NodeData.t Data);
  initNodesOffsets : list NodeOffsets.t;
  initEdgesNodes : gmap string EdgeNode.t;
  initEdgesPositions : gmap string Vector.t;
  initEdgesActives : gmap string bool
}.
Arguments t : clear implicits.
Arguments mk {Data}.
End Snapshot.

(** The host's edge array: compared by identity ([!==]) in the
    reconciliation effect, so it carries its reference. *)
Module EdgeArray.
Record t := mk { ref : nat; elems : list EdgeProps.t }.
End EdgeArray.

(** The props of [FlowChart] that the engine reads; the two callbacks
    appear as effects of the handlers. *)
Module Props.
Record t {Data : Type} := mk {
  nodes : list (NodeProps.t Data);
  edges : EdgeArray.t
}.
Arguments t : clear implicits.
Arguments mk {Data}.
End Props.

(** The signals and stores of one [FlowChart] instance, and the
    [prevEdgesRef] variable of its closure. *)
Module State.
Record t {Data : Type} := mk {
  edgesNodes : gmap string EdgeNode.t;
  edgesPositions : gmap string Vector.t;
  edgesActives : gmap string bool;
  nodesPositions : list Position.t;
  nodesData : list (NodeData.t Data);
  nodesOffsets : list NodeOffsets.t;
  clickedDelta : Position.t;
  newEdge : option NewEdge.t;
  prevEdgesRef : nat
}.
Arguments t : clear implicits.
Arguments mk {Data}.
End State.

(** ** The layout collaborator

    [dagre] is outside the repository.  It is taken as a parameter: given
    the node ids passed to [setNode] and the node pairs passed to
    [setEdge], the call [dagre.layout] either throws ([None]) or returns.
    In the graph it leaves, [graph.node(id)] is the label object that
    [setNode] stored for the id, with the coordinates the layout wrote
    into it: every id passed to [setNode] has one, and two nodes with the
    same id have the same one. *)
Definition Layout : Type :=
  list string → list (string * string) → option (string → Position.t).

(** ** src/graph/utils.ts, convertToLayeredGraph *)

Section Builder.
Context {Data : Type}.

(** [initialNodes.find((node) => node.id === nodeId)] *)
Definition findNode (initialNodes : list (NodeProps.t Data)) (nodeId : string)
    : option (NodeProps.t Data) :=
  snd <$> list_find (λ node, NodeProps.id node = nodeId) initialNodes.

Definition initNodesData (initialNodes : list (NodeProps.t Data))
    (initialEdges : list EdgeProps.t) : list (NodeData.t Data) :=
  (λ node,
     NodeData.mk
       (NodeProps.id node)
       (NodeProps.data node)
       (NodeProps.inputs node)
       (NodeProps.outputs node)
       (match NodeProps.color node with
        | Some c => if bool_decide (c = "") then "white" else c
        | None => "white"
        end)
       (EdgeProps.id <$>
          filter (λ edge, EdgeProps.targetNode edge = NodeProps.id node) initialEdges)
       (EdgeProps.id <$>
          filter (λ edge, EdgeProps.sourceNode edge = NodeProps.id node) initialEdges))
  <$> initialNodes.

Definition initNodesOffsets (initialNodes : list (NodeProps.t Data))
    : list NodeOffsets.t :=
  (λ node,
     NodeOffsets.mk
       ((λ index,
           Port.mk (Position.mk
             (Position.x (NodeProps.position node))
             (Position.y (NodeProps.position node) + (Z.of_nat index + 1) * 20
                - (Z.of_nat (NodeProps.inputs node) + 1) * 10)%Z))
        <$> seq 0 (NodeProps.inputs node))
       ((λ index,
           Port.mk (Position.mk
             (Position.x (NodeProps.position node) + 200)%Z
             (Position.y (NodeProps.position node) + (Z.of_nat index + 1) * 20
                - (Z.of_nat (NodeProps.outputs node) + 1) * 10)%Z))
        <$> seq 0 (NodeProps.outputs node)))
  <$> initialNodes.

Definition initEdgesNodes (initialEdges : list EdgeProps.t)
    : gmap string EdgeNode.t :=
  fold_left
    (λ acc edge,
       <[EdgeProps.id edge :=
           EdgeNode.mk (EdgeProps.sourceNode edge) (EdgeProps.sourceOutput edge)
                       (EdgeProps.targetNode edge) (EdgeProps.targetInput edge)]> acc)
    initialEdges ∅.

(** One step of the [reduce] that builds [initEdgesPositions]; the
    accumulator carries the warnings logged so far. *)
Definition edgePositionStep (initialNodes : list (NodeProps.t Data))
    (acc : gmap string Vector.t * list Warning.t) (edge : EdgeProps.t)
    : gmap string Vector.t * list Warning.t :=
  let sourceNode := findNode initialNodes (EdgeProps.sourceNode edge) in
  let targetNode := findNode initialNodes (EdgeProps.targetNode edge) in
  match sourceNode, targetNode with
  | Some s, Some t =>
      (<[EdgeProps.id edge :=
           Vector.mk
             (Position.x (NodeProps.position s) + 200)%Z
             (Position.y (NodeProps.position s) - 10)%Z
             (Position.x (NodeProps.position t))
             (Position.y (NodeProps.position t) - 10)%Z]> (fst acc),
       snd acc)
  | _, _ =>
      (fst acc,
       snd acc ++
         [Warning.mk (EdgeProps.id edge)
            (EdgeProps.sourceNode edge) (bool_decide (is_Some sourceNode))
            (EdgeProps.targetNode edge) (bool_decide (is_Some targetNode))])
  end.

Definition initEdgesPositions (initialNodes : list (NodeProps.t Data))
    (initialEdges : list EdgeProps.t) : gmap string Vector.t * list Warning.t :=
  fold_left (edgePositionStep initialNodes) initialEdges (∅, []).

Definition initEdgesActives (initialEdges : list EdgeProps.t) : gmap string bool :=
  fold_left (λ acc edge, <[EdgeProps.id edge := false]> acc) initialEdges ∅.

(** The result is [None] when [dagre.layout] throws: the function has no
    handler around the call.  Otherwise it is the snapshot together with
    the warnings logged while building it. *)
Definition convertToLayeredGraph (layout : Layout)
    (initialNodes : list (NodeProps.t Data)) (initialEdges : list EdgeProps.t)
    : option (Snapshot.t Data * list Warning.t) :=
  graph ← layout (NodeProps.id <$> initialNodes)
                 ((λ edge, (EdgeProps.sourceNode edge, EdgeProps.targetNode edge))
                    <$> initialEdges);
  let initNodesPositions :=
    (λ node, graph (NodeProps.id node)) <$> initialNodes in
  let '(edgesPositions, warnings) := initEdgesPositions initialNodes initialEdges in
  Some (Snapshot.mk
          initNodesPositions
          (initNodesData initialNodes initialEdges)
          (initNodesOffsets initialNodes)
          (initEdgesNodes initialEdges)
          edgesPositions
          (initEdgesActives initialEdges),
        warnings).

End Builder.

(** ** The handler monad

    A handler runs on the state of the component.  It may call the host or
    the console, and a [TypeError] may end it early: the state it had
    reached stays, as do the calls already made. *)

Inductive Effect {Data : Type} :=
  | OnEdgesChange (newEdges : list EdgeProps.t)
  | OnNodesChange (newNodes : list (NodeProps.t Data))
  | ConsoleWarn (w : Warning.t).
Arguments Effect : clear implicits.

Inductive Outcome {Data : Type} (A : Type) :=
  | Returned (a : A) (st : State.t Data)
  | Threw (st : State.t Data).
Arguments Outcome : clear implicits.
Arguments Returned {Data A}.
Arguments Threw {Data A}.

Definition Handler (Data A : Type) : Type :=
  State.t Data → list (Effect Data) * Outcome Data A.

Section Monad.
Context {Data : Type}.

#[export] Instance handler_ret : MRet (Handler Data) :=
  λ A a st, ([], Returned a st).

#[export] Instance handler_bind : MBind (Handler Data) :=
  λ A B f m st,
    match m st with
    | (effs, Returned a st') =>
        let '(effs', out) := f a st' in (effs ++ effs', out)
    | (effs, Threw st') => (effs, Threw st')
    end.

Definition get : Handler Data (State.t Data) := λ st, ([], Returned st st).
Definition modify (f : State.t Data → State.t Data) : Handler Data unit :=
  λ st, ([], Returned () (f st)).
Definition throw {A} : Handler Data A := λ st, ([], Threw st).
Definition perform (e : Effect Data) : Handler Data unit :=
  λ st, ([e], Returned () st).

(** Reading a property of a value that may be [undefined]. *)
Definition deref {A} (v : option A) : Handler Data A :=
  match v with Some a => mret a | None => throw end.

(** The setters of the signals and stores. *)
Definition setEdgesNodes (v : gmap string EdgeNode.t) : Handler Data unit :=
  modify (λ st, State.mk v (State.edgesPositions st) (State.edgesActives st)
    (State.nodesPositions st) (State.nodesData st) (State.nodesOffsets st)
    (State.clickedDelta st) (State.newEdge st) (State.prevEdgesRef st)).
Definition setEdgesPositions (v : gmap string Vector.t) : Handler Data unit :=
  modify (λ st, State.mk (State.edgesNodes st) v (State.edgesActives st)
    (State.nodesPositions st) (State.nodesData st) (State.nodesOffsets st)
    (State.clickedDelta st) (State.newEdge st) (State.prevEdgesRef st)).
Definition setEdgesActives (v : gmap string bool) : Handler Data unit :=
  modify (λ st, State.mk (State.edgesNodes st) (State.edgesPositions st) v
    (State.nodesPositions st) (State.nodesData st) (State.nodesOffsets st)
    (State.clickedDelta st) (State.newEdge st) (State.prevEdgesRef st)).
Definition setNodesPositions (v : list Position.t) : Handler Data unit :=
  modify (λ st, State.mk (State.edgesNodes st) (State.edgesPositions st)
    (State.edgesActives st) v (State.nodesData st) (State.nodesOffsets st)
    (State.clickedDelta st) (State.newEdge st) (State.prevEdgesRef st)).
Definition setNodesData (v : list (NodeData.t Data)) : Handler Data unit :=
  modify (λ st, State.mk (State.edgesNodes st) (State.edgesPositions st)
    (State.edgesActives st) (State.nodesPositions st) v (State.nodesOffsets st)
    (State.clickedDelta st) (State.newEdge st) (State.prevEdgesRef st)).
Definition setNodesOffsets (v : list NodeOffsets.t) : Handler Data unit :=
  modify (λ st, State.mk (State.edgesNodes st) (State.edgesPositions st)
    (State.edgesActives st) (State.nodesPositions st) (State.nodesData st) v
    (State.clickedDelta st) (State.newEdge st) (State.prevEdgesRef st)).
Definition setClickedDelta (v : Position.t) : Handler Data unit :=
  modify (λ st, State.mk (State.edgesNodes st) (State.edgesPositions st)
    (State.edgesActives st) (State.nodesPositions st) (State.nodesData st)
    (State.nodesOffsets st) v (State.newEdge st) (State.prevEdgesRef st)).
Definition setNewEdge (v : option NewEdge.t) : Handler Data unit :=
  modify (λ st, State.mk (State.edgesNodes st) (State.edgesPositions st)
    (State.edgesActives st) (State.nodesPositions st) (State.nodesData st)
    (State.nodesOffsets st) (State.clickedDelta st) v (State.prevEdgesRef st)).
Definition setPrevEdgesRef (v : nat) : Handler Data unit :=
  modify (λ st, State.mk (State.edgesNodes st) (State.edgesPositions st)
    (State.edgesActives st) (State.nodesPositions st) (State.nodesData st)
    (State.nodesOffsets st) (State.clickedDelta st) (State.newEdge st) v).

End Monad.

(** ** src/components/index.tsx, FlowChart *)

Section Engine.
Context {Data : Type}.

(** [Object.keys(o)] *)
Definition objectKeys {V} (o : gmap string V) : list string :=
  fst <$> map_to_list o.

Definition toEdgeProps (key : string) (edgeInfo : EdgeNode.t) : EdgeProps.t :=
  EdgeProps.mk key (EdgeNode.outNodeId edgeInfo) (EdgeNode.inNodeId edgeInfo)
    (EdgeNode.outputIndex edgeInfo) (EdgeNode.inputIndex edgeInfo).

(** The creation of the component: the first [convertToLayeredGraph] and
    the initial values of the signals.  [None] when the builder throws. *)
Definition FlowChart (layout : Layout) (props : Props.t Data)
    : option (State.t Data * list Warning.t) :=
  '(snapshot, warnings) ←
    convertToLayeredGraph layout (Props.nodes props)
      (EdgeArray.elems (Props.edges props));
  Some (State.mk
          (Snapshot.initEdgesNodes snapshot)
          (Snapshot.initEdgesPositions snapshot)
          (Snapshot.initEdgesActives snapshot)
          (Snapshot.initNodesPositions snapshot)
          (Snapshot.initNodesData snapshot)
          (Snapshot.initNodesOffsets snapshot)
          (Position.mk 0 0)
          None
          (EdgeArray.ref (Props.edges props)),
        warnings).

(** The body of [createEffect]: the reconciliation policy. *)
Definition reconcile (layout : Layout) (props : Props.t Data) : Handler Data unit :=
  st ← get;
  let nextNodesLength := length (Props.nodes props) in
  let prevNodesLength := length (State.nodesData st) in
  let currentEdgesRef := Props.edges props in
  if bool_decide (nextNodesLength ≠ prevNodesLength)
     || bool_decide (EdgeArray.ref currentEdgesRef ≠ State.prevEdgesRef st)
  then
    '(snapshot, warnings) ←
      deref (convertToLayeredGraph layout (Props.nodes props)
               (EdgeArray.elems currentEdgesRef));
    mapM (λ w, perform (ConsoleWarn w)) warnings;;
    setEdgesNodes (Snapshot.initEdgesNodes snapshot);;
    setEdgesPositions (Snapshot.initEdgesPositions snapshot);;
    setEdgesActives (Snapshot.initEdgesActives snapshot);;
    setNodesPositions (Snapshot.initNodesPositions snapshot);;
    setNodesData (Snapshot.initNodesData snapshot);;
    setNodesOffsets (Snapshot.initNodesOffsets snapshot);;
    setPrevEdgesRef (EdgeArray.ref currentEdgesRef)
  else mret ().

(** *** Node handlers *)

(** The updater of [setEdgesActives] in [handleOnNodeMount]. *)
Definition activateAll (edgeIds : list string) (actives : gmap string bool)
    : gmap string bool :=
  fold_left (λ next edgeId, <[edgeId := true]> next) edgeIds actives.

(** The updater of [setEdgesPositions] in [handleOnNodeMount], for the
    edges entering the node; [None] when it throws.  [nodePosition] is
    [nodesPositions()[values.nodeIndex]], [undefined] past the end of the
    array. *)
Definition mountEdgesIn (nodePosition : option Position.t)
    (inputs : list Port.t) (edgesNodes : gmap string EdgeNode.t)
    (prev : gmap string Vector.t) (edgeIds : list string)
    (next : gmap string Vector.t) : option (gmap string Vector.t) :=
  foldl
    (λ acc edgeId,
       next ← acc;
       p ← nodePosition;
       edgeInfo ← edgesNodes !! edgeId;
       port ← inputs !! EdgeNode.inputIndex edgeInfo;
       Some (<[edgeId :=
                Vector.mk
                  (from_option Vector.x0 0%Z (prev !! edgeId))
                  (from_option Vector.y0 0%Z (prev !! edgeId))
                  (Position.x p + Position.x (Port.offset port))%Z
                  (Position.y p + Position.y (Port.offset port))%Z]> next))
    (Some next) edgeIds.

(** The same for the edges leaving the node. *)
Definition mountEdgesOut (nodePosition : option Position.t)
    (outputs : list Port.t) (edgesNodes : gmap string EdgeNode.t)
    (prev : gmap string Vector.t) (edgeIds : list string)
    (next : gmap string Vector.t) : option (gmap string Vector.t) :=
  foldl
    (λ acc edgeId,
       next ← acc;
       p ← nodePosition;
       edgeInfo ← edgesNodes !! edgeId;
       port ← outputs !! EdgeNode.outputIndex edgeInfo;
       Some (<[edgeId :=
                Vector.mk
                  (Position.x p + Position.x (Port.offset port))%Z
                  (Position.y p + Position.y (Port.offset port))%Z
                  (from_option Vector.x1 0%Z (prev !! edgeId))
                  (from_option Vector.y1 0%Z (prev !! edgeId))]> next))
    (Some next) edgeIds.

Definition handleOnNodeMount (nodeIndex : nat)
    (inputs outputs : list Port.t) : Handler Data unit :=
  st ← get;
  _ ← deref (State.nodesOffsets st !! nodeIndex);
  setNodesOffsets
    (<[nodeIndex := NodeOffsets.mk inputs outputs]> (State.nodesOffsets st));;
  node ← deref (State.nodesData st !! nodeIndex);
  setEdgesActives
    (activateAll (NodeData.edgesOut node)
       (activateAll (NodeData.edgesIn node) (State.edgesActives st)));;
  let prev := State.edgesPositions st in
  let nodePosition := State.nodesPositions st !! nodeIndex in
  next ← deref
    (mountEdgesIn nodePosition inputs (State.edgesNodes st) prev
       (NodeData.edgesIn node) prev
     ≫= mountEdgesOut nodePosition outputs (State.edgesNodes st) prev
          (NodeData.edgesOut node));
  setEdgesPositions next.

Definition handleOnNodePress (deltaX deltaY : Z) : Handler Data unit :=
  setClickedDelta (Position.mk deltaX deltaY).

(** The updater of [setEdgesPositions] in [handleOnNodeMove], for the
    edges entering the node: only the edges flagged in [edgesActives()]
    are written.  [None] when it throws. *)
Definition moveEdgesIn (x y : Z) (delta : Position.t)
    (offsets : option NodeOffsets.t) (actives : gmap string bool)
    (edgesNodes : gmap string EdgeNode.t)
    (prev : gmap string Vector.t) (edgeIds : list string)
    (next : gmap string Vector.t) : option (gmap string Vector.t) :=
  foldl
    (λ acc edgeId,
       next ← acc;
       if actives !! edgeId is Some true then
         o ← offsets;
         edgeInfo ← edgesNodes !! edgeId;
         port ← NodeOffsets.inputs o !! EdgeNode.inputIndex edgeInfo;
         Some (<[edgeId :=
                  Vector.mk
                    (from_option Vector.x0 0%Z (prev !! edgeId))
                    (from_option Vector.y0 0%Z (prev !! edgeId))
                    (x + Position.x (Port.offset port) - Position.x delta)%Z
                    (y + Position.y (Port.offset port) - Position.y delta)%Z]>
                next)
       else Some next)
    (Some next) edgeIds.

(** The same for the edges leaving the node. *)
Definition moveEdgesOut (x y : Z) (delta : Position.t)
    (offsets : option NodeOffsets.t) (actives : gmap string bool)
    (edgesNodes : gmap string EdgeNode.t)
    (prev : gmap string Vector.t) (edgeIds : list string)
    (next : gmap string Vector.t) : option (gmap string Vector.t) :=
  foldl
    (λ acc edgeId,
       next ← acc;
       if actives !! edgeId is Some true then
         o ← offsets;
         edgeInfo ← edgesNodes !! edgeId;
         port ← NodeOffsets.outputs o !! EdgeNode.outputIndex edgeInfo;
         Some (<[edgeId :=
                  Vector.mk
                    (x + Position.x (Port.offset port) - Position.x delta)%Z
                    (y + Position.y (Port.offset port) - Position.y delta)%Z
                    (from_option Vector.x1 0%Z (prev !! edgeId))
                    (from_option Vector.y1 0%Z (prev !! edgeId))]>
                next)
       else Some next)
    (Some next) edgeIds.

(** Does ordinal [k] hold the position object of ordinal [nodeIndex]?
    The objects are the labels of the layout graph, one per node id, and
    [nodesPositions] and [nodesData] are built from the same node list and
    replaced together: ordinal [k] holds the label of the id of its
    record.  So it holds the object of [nodeIndex] when it is that ordinal
    or when the two records carry the same id. *)
Definition sharesPosition (nodesData : list (NodeData.t Data))
    (nodeIndex k : nat) : Prop :=
  k = nodeIndex
  ∨ (is_Some (nodesData !! nodeIndex)
     ∧ NodeData.id <$> nodesData !! k = NodeData.id <$> nodesData !! nodeIndex).

(** [next[nodeIndex].x = ...; next[nodeIndex].y = ...] on the copy
    [[...prev]] of the array: the copy holds the same objects, so the
    write is in place and every ordinal that holds the object has the new
    coordinates. *)
Definition writePosition (nodesData : list (NodeData.t Data)) (nodeIndex : nat)
    (position : Position.t) (prev : list Position.t) : list Position.t :=
  imap
    (λ k old,
       if bool_decide (sharesPosition nodesData nodeIndex k) then position else old)
    prev.

Definition handleOnNodeMove (nodeIndex : nat) (x y : Z) : Handler Data unit :=
  st ← get;
  let delta := State.clickedDelta st in
  _ ← deref (State.nodesPositions st !! nodeIndex);
  setNodesPositions
    (writePosition (State.nodesData st) nodeIndex
       (Position.mk (x - Position.x delta)%Z (y - Position.y delta)%Z)
       (State.nodesPositions st));;
  node ← deref (State.nodesData st !! nodeIndex);
  let prev := State.edgesPositions st in
  let offsets := State.nodesOffsets st !! nodeIndex in
  next ← deref
    (moveEdgesIn x y delta offsets (State.edgesActives st) (State.edgesNodes st)
       prev (NodeData.edgesIn node) prev
     ≫= moveEdgesOut x y delta offsets (State.edgesActives st)
          (State.edgesNodes st) prev (NodeData.edgesOut node));
  setEdgesPositions next.

Definition handleOnNodeDelete (props : Props.t Data) (nodeId : string)
    : Handler Data unit :=
  let newNodes :=
    filter (λ node, NodeProps.id node ≠ nodeId) (Props.nodes props) in
  let newEdges :=
    filter (λ edge, EdgeProps.sourceNode edge ≠ nodeId
                    ∧ EdgeProps.targetNode edge ≠ nodeId)
      (EdgeArray.elems (Props.edges props)) in
  perform (OnEdgesChange newEdges);;
  perform (OnNodesChange newNodes).

Definition handleOnOutputMouseDown (nodeIndex outputIndex : nat) : Handler Data unit :=
  st ← get;
  let nodePosition := State.nodesPositions st !! nodeIndex in
  offsets ← deref (State.nodesOffsets st !! nodeIndex);
  port ← deref (NodeOffsets.outputs offsets !! outputIndex);
  let outputOffset := Port.offset port in
  p ← deref nodePosition;
  setNewEdge (Some (NewEdge.mk
    (Vector.mk
       (Position.x p + Position.x outputOffset)%Z
       (Position.y p + Position.y outputOffset)%Z
       (Position.x p + Position.x outputOffset)%Z
       (Position.y p + Position.y outputOffset)%Z)
    nodeIndex outputIndex)).

(** The list built for [props.onEdgesChange] after an edge is created:
    the keys of [edgesActives()] whose flag is set and that
    [allEdgesNodes] knows. *)
Definition activeEdgesOf (actives : gmap string bool)
    (allEdgesNodes : gmap string EdgeNode.t) : list EdgeProps.t :=
  omap
    (λ key,
       if actives !! key is Some true
       then toEdgeProps key <$> allEdgesNodes !! key
       else None)
    (objectKeys actives).

(** The branch [if (!haveEdge) { ... }] of [handleOnInputMouseUp]. *)
Definition createEdge (sourceIndex sourceOutput nodeIndex inputIndex : nat)
    (sourceNodeId targetNodeId edgeId : string) : Handler Data unit :=
  st ← get;
  sp ← deref (State.nodesPositions st !! sourceIndex);
  so ← deref (State.nodesOffsets st !! sourceIndex);
  sport ← deref (NodeOffsets.outputs so !! sourceOutput);
  tp ← deref (State.nodesPositions st !! nodeIndex);
  to ← deref (State.nodesOffsets st !! nodeIndex);
  tport ← deref (NodeOffsets.inputs to !! inputIndex);
  setEdgesPositions
    (<[edgeId :=
         Vector.mk
           (Position.x sp + Position.x (Port.offset sport))%Z
           (Position.y sp + Position.y (Port.offset sport))%Z
           (Position.x tp + Position.x (Port.offset tport))%Z
           (Position.y tp + Position.y (Port.offset tport))%Z]>
       (State.edgesPositions st));;
  setEdgesActives (<[edgeId := true]> (State.edgesActives st));;
  let newEdgeNode :=
    EdgeNode.mk sourceNodeId sourceOutput targetNodeId inputIndex in
  setEdgesNodes (<[edgeId := newEdgeNode]> (State.edgesNodes st));;
  setNodesData
    (alter (λ n, NodeData.set_edgesIn (NodeData.edgesIn n ++ [edgeId]) n)
       nodeIndex
       (alter (λ n, NodeData.set_edgesOut (NodeData.edgesOut n ++ [edgeId]) n)
          sourceIndex (State.nodesData st)));;
  st' ← get;
  let allEdgesNodes := <[edgeId := newEdgeNode]> (State.edgesNodes st') in
  perform (OnEdgesChange (activeEdgesOf (State.edgesActives st') allEdgesNodes)).

Definition handleOnInputMouseUp (nodeIndex inputIndex : nat) : Handler Data unit :=
  st ← get;
  let newEdge := State.newEdge st in
  (* newEdge()?.sourceNode === nodeIndex *)
  if bool_decide (NewEdge.sourceNode <$> newEdge = Some nodeIndex)
  then setNewEdge None
  else
    (* newEdge()?.sourceNode || 0 *)
    let sourceIndex := from_option NewEdge.sourceNode 0 newEdge in
    sourceData ← deref (State.nodesData st !! sourceIndex);
    let outputEdges := NodeData.edgesOut sourceData in
    targetData ← deref (State.nodesData st !! nodeIndex);
    let inputEdges := NodeData.edgesIn targetData in
    (* if (!newEdge()) return; *)
    if newEdge is None then mret ()
    else
      let sourceNodeId := NodeData.id sourceData in
      let targetNodeId := NodeData.id targetData in
      let sourceOutput := from_option NewEdge.sourceOutput 0 newEdge in
      let edgeId := getEdgeId sourceNodeId sourceOutput targetNodeId inputIndex in
      let haveEdge :=
        bool_decide (edgeId ∈ outputEdges) || bool_decide (edgeId ∈ inputEdges) in
      (if haveEdge then mret ()
       else createEdge sourceIndex sourceOutput nodeIndex inputIndex
              sourceNodeId targetNodeId edgeId);;
      setNewEdge None.

Definition handleOnMouseUp : Handler Data unit := setNewEdge None.

Definition handleOnMouseMove (x y : Z) : Handler Data unit :=
  st ← get;
  if State.newEdge st is Some pending then
    setNewEdge (Some (NewEdge.mk
      (Vector.mk
         (Vector.x0 (NewEdge.position pending))
         (Vector.y0 (NewEdge.position pending))
         x y)
      (NewEdge.sourceNode pending)
      (NewEdge.sourceOutput pending)))
  else mret ().

(** *** Edge handlers *)

(** [nodesData.findIndex((node) => node.id === nodeId)], [None] for -1. *)
Definition findIndex (nodesData : list (NodeData.t Data)) (nodeId : string)
    : option nat :=
  fst <$> list_find (λ node, NodeData.id node = nodeId) nodesData.

(** The list built for [props.onEdgesChange] after an edge is deleted;
    [None] when an active key has no entry in [edgesNodes()]. *)
Definition activeEdgesStrict (actives : gmap string bool)
    (edgesNodes : gmap string EdgeNode.t) : option (list EdgeProps.t) :=
  mapM (λ key, toEdgeProps key <$> edgesNodes !! key)
    (filter (λ key, actives !! key = Some true) (objectKeys actives)).

Definition handleOnDeleteEdge (edgeId : string) : Handler Data unit :=
  st ← get;
  edgeInfo ← deref (State.edgesNodes st !! edgeId);
  let nodeSourceId := EdgeNode.outNodeId edgeInfo in
  let nodeTargetId := EdgeNode.inNodeId edgeInfo in
  let nodeSourceIndex := findIndex (State.nodesData st) nodeSourceId in
  let nodeTargetIndex := findIndex (State.nodesData st) nodeTargetId in
  targetIndex ← deref nodeTargetIndex;
  setNodesData
    (alter
       (λ n, NodeData.set_edgesIn
               (filter (λ elem, elem ≠ edgeId) (NodeData.edgesIn n)) n)
       targetIndex (State.nodesData st));;
  sourceIndex ← deref nodeSourceIndex;
  st1 ← get;
  setNodesData
    (alter
       (λ n, NodeData.set_edgesOut
               (filter (λ elem, elem ≠ edgeId) (NodeData.edgesOut n)) n)
       sourceIndex (State.nodesData st1));;
  setEdgesActives (<[edgeId := false]> (State.edgesActives st1));;
  st2 ← get;
  activeEdges ← deref (activeEdgesStrict (State.edgesActives st2)
                         (State.edgesNodes st2));
  perform (OnEdgesChange activeEdges).

End Engine.

(** ** Observations on states and runs *)

(** The state a run ends in, whether it returned or threw. *)
Definition stateOf {Data A} (r : list (Effect Data) * Outcome Data A)
    : State.t Data :=
  match snd r with Returned _ st => st | Threw st => st end.

Definition run {Data A} (h : Handler Data A) (st : State.t Data) : State.t Data :=
  stateOf (h st).

(** The number of edges whose flag is set in [edgesActives()]. *)
Definition activeEdgeCount {Data} (st : State.t Data) : nat :=
  length (filter (λ kv, snd kv = true) (map_to_list (State.edgesActives st))).

(** Every edge of every list passed to [props.onEdgesChange] during the
    run is flagged in the [edgesActives()] of the state the run ends in.
    In the three handlers that call the host, no statement after the call
    writes [edgesActives], so this is the map at the time of the call. *)
Definition reportsOnlyActive {Data A}
    (r : list (Effect Data) * Outcome Data A) : Prop :=
  ∀ newEdges, OnEdgesChange newEdges ∈ fst r →
    ∀ edge, edge ∈ newEdges →
      State.edgesActives (stateOf r) !! EdgeProps.id edge = Some true.

(** ** Dangling edges *)

Section Dangling.
Context {Data : Type}.
Implicit Types (nodes : list (NodeProps.t Data)).

(** An edge is dangling when [find] misses one of its endpoints. *)
Definition dangling nodes (edge : EdgeProps.t) : Prop :=
  findNode nodes (EdgeProps.sourceNode edge) = None
  ∨ findNode nodes (EdgeProps.targetNode edge) = None.

(** The warning [edgePositionStep] logs for an edge. *)
Definition warningFor nodes (edge : EdgeProps.t) : Warning.t :=
  Warning.mk (EdgeProps.id edge)
    (EdgeProps.sourceNode edge)
    (bool_decide (is_Some (findNode nodes (EdgeProps.sourceNode edge))))
    (EdgeProps.targetNode edge)
    (bool_decide (is_Some (findNode nodes (EdgeProps.targetNode edge)))).

End Dangling.

(** ** The port formula of the specification *)

(** The y of [portOffset(nodeWidth, totalPortsOfThatSide, portIndex)] as
    the specification words it: [(portIndex+1)*20 - (totalPorts+1)*10]. *)
Definition specPortY (totalPorts portIndex : nat) : Z :=
  ((Z.of_nat portIndex + 1) * 20 - (Z.of_nat totalPorts + 1) * 10)%Z.

(** ** The properties as the specification states them

    Each is stated here as a proposition over the embedding and settled
    in the second part of the file. *)

(** Edge ids of distinct tuples differ, for arbitrary node ids. *)
Definition edgeIdsDifferAt (a : string) (i : nat) (b : string) (j : nat)
    (a' : string) (i' : nat) (b' : string) (j' : nat) : Prop :=
  (a, i, b, j) ≠ (a', i', b', j') → getEdgeId a i b j ≠ getEdgeId a' i' b' j'.

(** Every edge of the snapshot starts active. *)
Definition edgesStartActive {Data} (layout : Layout)
    (nodes : list (NodeProps.t Data)) (edges : list EdgeProps.t) : Prop :=
  ∀ snapshot warnings,
    convertToLayeredGraph layout nodes edges = Some (snapshot, warnings) →
    ∀ edge, edge ∈ edges →
      Snapshot.initEdgesActives snapshot !! EdgeProps.id edge = Some true.

(** The provisional anchors are offsets from the corner of the node. *)
Definition offsetsRelativeToNode {Data} (layout : Layout)
    (nodes : list (NodeProps.t Data)) (edges : list EdgeProps.t) : Prop :=
  ∀ snapshot warnings,
    convertToLayeredGraph layout nodes edges = Some (snapshot, warnings) →
    ∀ k node, nodes !! k = Some node →
      ∃ offsets, Snapshot.initNodesOffsets snapshot !! k = Some offsets ∧
        (∀ i, i < NodeProps.inputs node →
           NodeOffsets.inputs offsets !! i =
             Some (Port.mk (Position.mk 0 (specPortY (NodeProps.inputs node) i)))) ∧
        (∀ i, i < NodeProps.outputs node →
           NodeOffsets.outputs offsets !! i =
             Some (Port.mk (Position.mk 200 (specPortY (NodeProps.outputs node) i)))).

(** The layout call of the builder on an input: [None] when it throws. *)
Definition layoutCall {Data} (layout : Layout)
    (nodes : list (NodeProps.t Data)) (edges : list EdgeProps.t)
    : option (string → Position.t) :=
  layout (NodeProps.id <$> nodes)
    ((λ edge, (EdgeProps.sourceNode edge, EdgeProps.targetNode edge)) <$> edges).

(** A failed layout is never fatal: the snapshot exists, every node has a
    position, and when the layout call failed the nodes are at the origin,
    with a warning. *)
Definition layoutFailureFallsBack {Data} (layout : Layout)
    (nodes : list (NodeProps.t Data)) (edges : list EdgeProps.t) : Prop :=
  ∃ snapshot warnings,
    convertToLayeredGraph layout nodes edges = Some (snapshot, warnings) ∧
    ∀ k node, nodes !! k = Some node →
      is_Some (Snapshot.initNodesPositions snapshot !! k) ∧
      (layoutCall layout nodes edges = None →
         Snapshot.initNodesPositions snapshot !! k = Some (Position.mk 0 0)
         ∧ warnings ≠ []).

(** An edge with a missing endpoint never makes the builder throw: the
    snapshot exists, has no endpoint positions under the edge's id, a
    warning was logged for the edge, and its id is in the endpoint map and
    in the adjacency of each endpoint node that exists. *)
Definition danglingEdgeTolerated {Data} (layout : Layout)
    (nodes : list (NodeProps.t Data)) (edges : list EdgeProps.t)
    (edge : EdgeProps.t) : Prop :=
  edge ∈ edges →
  EdgeProps.sourceNode edge ∉ NodeProps.id <$> nodes
  ∨ EdgeProps.targetNode edge ∉ NodeProps.id <$> nodes →
  ∃ snapshot warnings,
    convertToLayeredGraph layout nodes edges = Some (snapshot, warnings) ∧
    Snapshot.initEdgesPositions snapshot !! EdgeProps.id edge = None ∧
    warningFor nodes edge ∈ warnings ∧
    is_Some (Snapshot.initEdgesNodes snapshot !! EdgeProps.id edge) ∧
    ∀ k node, nodes !! k = Some node →
      ∃ nodeData, Snapshot.initNodesData snapshot !! k = Some nodeData ∧
        (EdgeProps.targetNode edge = NodeProps.id node →
           EdgeProps.id edge ∈ NodeData.edgesIn nodeData) ∧
        (EdgeProps.sourceNode edge = NodeProps.id node →
           EdgeProps.id edge ∈ NodeData.edgesOut nodeData).

(** Releasing on an input port whose edge exists removes that edge. *)
Definition releaseTogglesEdge {Data} (st : State.t Data)
    (nodeIndex inputIndex : nat) : Prop :=
  ∀ pending sourceData targetData,
    State.newEdge st = Some pending →
    State.nodesData st !! NewEdge.sourceNode pending = Some sourceData →
    State.nodesData st !! nodeIndex = Some targetData →
    let edgeId :=
      getEdgeId (NodeData.id sourceData) (NewEdge.sourceOutput pending)
        (NodeData.id targetData) inputIndex in
    edgeId ∈ NodeData.edgesOut sourceData ∨ edgeId ∈ NodeData.edgesIn targetData →
    let st' := run (handleOnInputMouseUp nodeIndex inputIndex) st in
    (∀ node, node ∈ State.nodesData st' →
       (edgeId ∉ NodeData.edgesIn node) ∧ (edgeId ∉ NodeData.edgesOut node)) ∧
    State.edgesActives st' !! edgeId ≠ Some true ∧
    activeEdgeCount st' + 1 = activeEdgeCount st ∧
    State.newEdge st' = None.

(** Only active edges are reported, on the three paths that call
    [props.onEdgesChange]. *)
Definition everyPathReportsOnlyActive {Data} (props : Props.t Data)
    (st : State.t Data) : Prop :=
  (∀ nodeIndex inputIndex,
     reportsOnlyActive (handleOnInputMouseUp nodeIndex inputIndex st)) ∧
  (∀ edgeId, reportsOnlyActive (handleOnDeleteEdge edgeId st)) ∧
  (∀ nodeId, reportsOnlyActive (handleOnNodeDelete props nodeId st)).

(** With a node and no pending edge, a release is a no-op. *)
Definition releaseWithoutPendingIsNoop {Data} (st : State.t Data)
    (nodeIndex inputIndex : nat) : Prop :=
  State.nodesData st ≠ [] → State.newEdge st = None →
  handleOnInputMouseUp nodeIndex inputIndex st = ([], Returned () st).

(** ** Concrete inputs

    The nodes and the edge of the Dynamic example
    (examples/src/Dynamic/index.tsx), with a string for the payload, and
    two stand-ins for the layout collaborator. *)

Definition node1 : NodeProps.t string :=
  NodeProps.mk "node-1" (Position.mk 100 100) "Node 1 (2 outputs)" 1 2 None None.
Definition node2 : NodeProps.t string :=
  NodeProps.mk "node-2" (Position.mk 400 50) "Node 2 (1 output)" 1 1 None None.
Definition node3 : NodeProps.t string :=
  NodeProps.mk "node-3" (Position.mk 400 200) "Node 3 (2 in, 2 out)" 2 2 None None.
Definition edge12 : EdgeProps.t :=
  EdgeProps.mk "edge_node-1:0_node-2:0" "node-1" "node-2" 0 0.

Definition initialNodes : list (NodeProps.t string) := [node1; node2; node3].
Definition initialEdges : list EdgeProps.t := [edge12].

(** An edge between two nodes the host never supplies. *)
Definition ghostEdge : EdgeProps.t :=
  EdgeProps.mk "edge_node-8:0_node-9:0" "node-8" "node-9" 0 0.

(** An edge from node-1 to a node the host never supplies. *)
Definition danglingEdge : EdgeProps.t :=
  EdgeProps.mk "edge_node-1:1_node-9:0" "node-1" "node-9" 1 0.

(** A second edge under the id of [danglingEdge], between two nodes of
    the example. *)
Definition homonymEdge : EdgeProps.t :=
  EdgeProps.mk "edge_node-1:1_node-9:0" "node-1" "node-3" 1 0.

(** The labels of a layout that puts the nodes in a row, 250 apart: the
    node whose id first occurs at place i is at (250 * i, 0). *)
Definition rowGraph (nodeIds : list string) (nodeId : string) : Position.t :=
  Position.mk
    (250 * Z.of_nat (from_option fst 0 (list_find (λ other, other = nodeId) nodeIds)))
    0.

Definition rowLayout : Layout := λ nodeIds _, Some (rowGraph nodeIds).

(** A layout call that throws. *)
Definition throwingLayout : Layout := λ _ _, None.

Definition exampleProps : Props.t string :=
  Props.mk initialNodes (EdgeArray.mk 1 initialEdges).

Definition ghostProps : Props.t string :=
  Props.mk initialNodes (EdgeArray.mk 1 [edge12; ghostEdge]).

(** The same node count and the same edge array, with the payload and the
    host position of node-1 changed. *)
Definition contentChangedProps : Props.t string :=
  Props.mk
    [NodeProps.mk "node-1" (Position.mk 0 0) "edited" 1 2 None None; node2; node3]
    (EdgeArray.mk 1 initialEdges).

Definition blankState : State.t string :=
  State.mk ∅ ∅ ∅ [] [] [] (Position.mk 0 0) None 0.

(** The anchors the renderer measures for one side of a node. *)
Definition measured (x : Z) (count : nat) : list Port.t :=
  (λ i, Port.mk (Position.mk x (20 * Z.of_nat i + 30)%Z)) <$> seq 0 count.

(** The component after creation and the mount of its three nodes. *)
Definition mountAll (st : State.t string) : State.t string :=
  run (handleOnNodeMount 2 (measured 0 2) (measured 200 2))
    (run (handleOnNodeMount 1 (measured 0 1) (measured 200 1))
       (run (handleOnNodeMount 0 (measured 0 1) (measured 200 2)) st)).

Definition createdState (props : Props.t string) : State.t string :=
  from_option fst blankState (FlowChart rowLayout props).

Definition mountedState : State.t string := mountAll (createdState exampleProps).

Definition ghostMountedState : State.t string := mountAll (createdState ghostProps).

(** The user has pressed output 0 of node-1: a pending edge exists. *)
Definition drawingState : State.t string :=
  run (handleOnOutputMouseDown 0 0) mountedState.

(** ** Further definitions for the properties of Part II *)

#[export] Instance dangling_dec {Data} (nodes : list (NodeProps.t Data))
    (edge : EdgeProps.t) : Decision (dangling nodes edge).
Proof. unfold dangling. apply _. Defined.

(** The endpoints of a host edge, as [initEdgesNodes] records them. *)
Definition edgeNodeOf (edge : EdgeProps.t) : EdgeNode.t :=
  EdgeNode.mk (EdgeProps.sourceNode edge) (EdgeProps.sourceOutput edge)
              (EdgeProps.targetNode edge) (EdgeProps.targetInput edge).

(** A host input with one resolvable and one dangling edge, and nodes
    that carry a color: a proper one, the empty string, none. *)
Definition coloredNodes : list (NodeProps.t string) :=
  [NodeProps.mk "node-1" (Position.mk 100 100) "first" 1 2 (Some "teal") None;
   NodeProps.mk "node-2" (Position.mk 400 50) "second" 1 1 (Some "") None;
   node3].

Definition mixedEdges : list EdgeProps.t := [edge12; danglingEdge].

(** *** Well-formed engine states *)

Section WellFormed.
Context {Data : Type}.
Implicit Types (st : State.t Data).

(** The three per-node arrays have one element per node. *)
Definition sameLengths st : Prop :=
  length (State.nodesPositions st) = length (State.nodesData st)
  ∧ length (State.nodesOffsets st) = length (State.nodesData st).

(** Every id in the adjacency of a node is a key of [edgesNodes()] and of
    [edgesActives()]. *)
Definition adjacencyKnown st : Prop :=
  ∀ node edgeId, node ∈ State.nodesData st →
    edgeId ∈ NodeData.edgesIn node ∨ edgeId ∈ NodeData.edgesOut node →
    is_Some (State.edgesNodes st !! edgeId)
    ∧ is_Some (State.edgesActives st !! edgeId).

(** Every key of [edgesActives()] is a key of [edgesNodes()]. *)
Definition flagsKnown st : Prop :=
  ∀ edgeId, is_Some (State.edgesActives st !! edgeId) →
    is_Some (State.edgesNodes st !! edgeId).

Definition wellFormed st : Prop :=
  sameLengths st ∧ adjacencyKnown st ∧ flagsKnown st.

End WellFormed.

(** *** The events the component reacts to

    The renderer wires each callback to its handler
    ([onNodeMount={handleOnNodeMount}], ...); a change of the props runs the
    reconciliation effect. *)
Inductive Event {Data : Type} :=
  | NodeMount (nodeIndex : nat) (inputs outputs : list Port.t)
  | NodePress (deltaX deltaY : Z)
  | NodeMove (nodeIndex : nat) (x y : Z)
  | NodeDelete (props : Props.t Data) (nodeId : string)
  | OutputMouseDown (nodeIndex outputIndex : nat)
  | InputMouseUp (nodeIndex inputIndex : nat)
  | MouseUp
  | MouseMove (x y : Z)
  | DeleteEdge (edgeId : string)
  | PropsChanged (props : Props.t Data).
Arguments Event : clear implicits.

Definition handle {Data} (layout : Layout) (event : Event Data)
    : Handler Data unit :=
  match event with
  | NodeMount nodeIndex inputs outputs =>
      handleOnNodeMount nodeIndex inputs outputs
  | NodePress deltaX deltaY => handleOnNodePress deltaX deltaY
  | NodeMove nodeIndex x y => handleOnNodeMove nodeIndex x y
  | NodeDelete props nodeId => handleOnNodeDelete props nodeId
  | OutputMouseDown nodeIndex outputIndex =>
      handleOnOutputMouseDown nodeIndex outputIndex
  | InputMouseUp nodeIndex inputIndex =>
      handleOnInputMouseUp nodeIndex inputIndex
  | MouseUp => handleOnMouseUp
  | MouseMove x y => handleOnMouseMove x y
  | DeleteEdge edgeId => handleOnDeleteEdge edgeId
  | PropsChanged props => reconcile layout props
  end.

(** The state after a sequence of events, each handler running on the
    state the previous one left, whether it returned or threw. *)
Definition runEvents {Data} (layout : Layout) (events : list (Event Data))
    (st : State.t Data) : State.t Data :=
  foldl (λ st event, run (handle layout event) st) st events.

(** *** The updaters of [setEdgesPositions] as writes per key

    A pass of [handleOnNodeMount] or [handleOnNodeMove] over the edges of
    a node computes, for each key, a value from [prev] and writes it in
    [next].  [writeAll] is that pass for a given value function: [None]
    when computing the value throws, [Some None] when the key is skipped,
    [Some (Some v)] when [v] is written. *)
Definition writeAll {V} (value : string → option (option V))
    (keys : list string) (next : gmap string V) : option (gmap string V) :=
  foldl
    (λ acc key,
       next ← acc;
       w ← value key;
       Some (if w is Some v then <[key := v]> next else next))
    (Some next) keys.

Definition mountInValue (nodePosition : option Position.t)
    (inputs : list Port.t) (edgesNodes : gmap string EdgeNode.t)
    (prev : gmap string Vector.t) (edgeId : string)
    : option (option Vector.t) :=
  p ← nodePosition;
  edgeInfo ← edgesNodes !! edgeId;
  port ← inputs !! EdgeNode.inputIndex edgeInfo;
  Some (Some (Vector.mk
    (from_option Vector.x0 0%Z (prev !! edgeId))
    (from_option Vector.y0 0%Z (prev !! edgeId))
    (Position.x p + Position.x (Port.offset port))%Z
    (Position.y p + Position.y (Port.offset port))%Z)).

Definition mountOutValue (nodePosition : option Position.t)
    (outputs : list Port.t) (edgesNodes : gmap string EdgeNode.t)
    (prev : gmap string Vector.t) (edgeId : string)
    : option (option Vector.t) :=
  p ← nodePosition;
  edgeInfo ← edgesNodes !! edgeId;
  port ← outputs !! EdgeNode.outputIndex edgeInfo;
  Some (Some (Vector.mk
    (Position.x p + Position.x (Port.offset port))%Z
    (Position.y p + Position.y (Port.offset port))%Z
    (from_option Vector.x1 0%Z (prev !! edgeId))
    (from_option Vector.y1 0%Z (prev !! edgeId)))).

Definition moveInValue (x y : Z) (delta : Position.t)
    (offsets : option NodeOffsets.t) (actives : gmap string bool)
    (edgesNodes : gmap string EdgeNode.t)
    (prev : gmap string Vector.t) (edgeId : string)
    : option (option Vector.t) :=
  if actives !! edgeId is Some true then
    o ← offsets;
    edgeInfo ← edgesNodes !! edgeId;
    port ← NodeOffsets.inputs o !! EdgeNode.inputIndex edgeInfo;
    Some (Some (Vector.mk
      (from_option Vector.x0 0%Z (prev !! edgeId))
      (from_option Vector.y0 0%Z (prev !! edgeId))
      (x + Position.x (Port.offset port) - Position.x delta)%Z
      (y + Position.y (Port.offset port) - Position.y delta)%Z))
  else Some None.

Definition moveOutValue (x y : Z) (delta : Position.t)
    (offsets : option NodeOffsets.t) (actives : gmap string bool)
    (edgesNodes : gmap string EdgeNode.t)
    (prev : gmap string Vector.t) (edgeId : string)
    : option (option Vector.t) :=
  if actives !! edgeId is Some true then
    o ← offsets;
    edgeInfo ← edgesNodes !! edgeId;
    port ← NodeOffsets.outputs o !! EdgeNode.outputIndex edgeInfo;
    Some (Some (Vector.mk
      (x + Position.x (Port.offset port) - Position.x delta)%Z
      (y + Position.y (Port.offset port) - Position.y delta)%Z
      (from_option Vector.x1 0%Z (prev !! edgeId))
      (from_option Vector.y1 0%Z (prev !! edgeId))))
  else Some None.

(** A sequence of events on the Dynamic example: the mounts, an edge
    drawn and deleted, a move of a node that does not exist, and a change
    of props. *)
Definition exampleEvents : list (Event string) :=
  [NodeMount 0 (measured 0 1) (measured 200 2);
   NodeMount 1 (measured 0 1) (measured 200 1);
   NodeMount 2 (measured 0 2) (measured 200 2);
   OutputMouseDown 0 0; MouseMove 320 40; InputMouseUp 2 0;
   DeleteEdge "edge_node-1:0_node-3:0";
   NodePress 10 5; NodeMove 7 60 45; NodeMove 0 60 45;
   PropsChanged ghostProps; NodeDelete ghostProps "node-3"].

(** The mounted component after a press at (10, 5) inside a node. *)
Definition pressedState : State.t string :=
  run (handleOnNodePress 10 5) mountedState.

(** The mounted component after the user has drawn an edge from output 0
    of node-1 to input 0 of node-3: node-1 has two edges out. *)
Definition connectedState : State.t string :=
  run (handleOnInputMouseUp 2 0) drawingState.

(** Two host nodes under one id, and a third: the first two hold the
    same position object. *)
Definition twinProps : Props.t string :=
  Props.mk
    [node1;
     NodeProps.mk "node-1" (Position.mk 100 300) "Node 1 again" 1 2 None None;
     node2]
    (EdgeArray.mk 1 []).

(** The component created from them, after a press at (10, 5) in a node. *)
Definition twinState : State.t string :=
  run (handleOnNodePress 10 5) (createdState twinProps).

(** The host replaces its edge array: a new reference, with an edge
    between two nodes it never supplies. *)
Definition swappedProps : Props.t string :=
  Props.mk initialNodes (EdgeArray.mk 2 [edge12; ghostEdge]).

(** * Part II: properties *)

(** ** Edge identifiers *)

Example getEdgeId_example :
  getEdgeId "node-1" 1 "node-3" 0 = "edge_node-1:1_node-3:0".
Proof. reflexivity. Qed.

Example numberToString_examples :
  numberToString 0 = "0" ∧ numberToString 10 = "10" ∧ numberToString 207 = "207".
Proof. repeat split; reflexivity. Qed.

(** *** Splitting a string at a separator *)

Lemma occurs_app c s t : occurs c (s +:+ t) = occurs c s || occurs c t.
Proof.
  induction s as [|c' s IH]; simpl; [done|].
  destruct (Ascii.eqb c c'); [done|apply IH].
Qed.

Lemma occurs_head c s : occurs c (String c s) = true.
Proof. simpl. by rewrite Ascii.eqb_refl. Qed.

(** The part before the first occurrence of [c] is determined. *)
Lemma split_at_first c s s' r r' :
  occurs c s = false → occurs c s' = false →
  s +:+ String c r = s' +:+ String c r' → s = s' ∧ r = r'.
Proof.
  revert s'. induction s as [|a s IH]; intros [|a' s'] Hs Hs' Heq; simpl in *.
  - by inversion Heq.
  - inversion Heq; subst. by rewrite Ascii.eqb_refl in Hs'.
  - inversion Heq; subst. by rewrite Ascii.eqb_refl in Hs.
  - inversion Heq; subst.
    destruct (Ascii.eqb c a'); [done|].
    destruct (IH s' Hs Hs' H1) as [-> ->]. done.
Qed.

(** The part after the last occurrence of [c] is determined. *)
Lemma split_at_last c s s' r r' :
  occurs c r = false → occurs c r' = false →
  s +:+ String c r = s' +:+ String c r' → s = s' ∧ r = r'.
Proof.
  intros Hr Hr'.
  revert s'. induction s as [|a s IH]; intros [|a' s'] Heq; simpl in *.
  - by inversion Heq.
  - inversion Heq; subst.
    rewrite occurs_app, occurs_head, orb_true_r in Hr. done.
  - inversion Heq; subst.
    rewrite occurs_app, occurs_head, orb_true_r in Hr'. done.
  - inversion Heq; subst.
    destruct (IH s' H1) as [-> ->]. done.
Qed.

(** *** Decimal rendering *)

Lemma string_of_uint_digits c d :
  occurs c "0123456789" = false →
  occurs c (NilEmpty.string_of_uint d) = false.
Proof.
  intros Hc. induction d; simpl; try done;
    rewrite IHd;
    match goal with
    | |- (if Ascii.eqb c ?k then _ else _) = _ =>
        destruct (Ascii.eqb_spec c k) as [->|_]; [by vm_compute in Hc|done]
    end.
Qed.

Lemma numberToString_no_colon n : occurs ":" (numberToString n) = false.
Proof. by apply string_of_uint_digits. Qed.

Lemma numberToString_no_underscore n : occurs "_" (numberToString n) = false.
Proof. by apply string_of_uint_digits. Qed.

Lemma numberToString_inj n m : numberToString n = numberToString m → n = m.
Proof.
  unfold numberToString. intros H.
  assert (Hu : Nat.to_uint n = Nat.to_uint m).
  { apply (f_equal NilEmpty.uint_of_string) in H.
    rewrite !NilEmpty.usu in H. by inversion H. }
  apply (f_equal Nat.of_uint) in Hu.
  by rewrite !DecimalNat.Unsigned.of_to in Hu.
Qed.

Lemma getEdgeId_inj a i b j a' i' b' j' :
  occurs ":" a = false → occurs ":" a' = false →
  getEdgeId a i b j = getEdgeId a' i' b' j' →
  (a, i, b, j) = (a', i', b', j').
Proof.
  intros Ha Ha' Heq. unfold getEdgeId in Heq.
  simpl in Heq. injection Heq as Heq.
  change (a +:+ String ":" (numberToString i +:+ String "_"
            (b +:+ String ":" (numberToString j)))
          = a' +:+ String ":" (numberToString i' +:+ String "_"
            (b' +:+ String ":" (numberToString j')))) in Heq.
  apply split_at_first in Heq as [-> Heq]; [|done..].
  apply split_at_first in Heq as [Hi Heq];
    [|apply numberToString_no_underscore..].
  apply split_at_last in Heq as [-> Hj];
    [|apply numberToString_no_colon..].
  apply numberToString_inj in Hi as ->.
  apply numberToString_inj in Hj as ->. done.
Qed.

(** C6, as stated, fails: two tuples that differ in their node ids are
    given one id, because a node id may itself contain the separators. *)
Lemma getEdgeId_collision :
  ¬ edgeIdsDifferAt "a:0_b" 0 "c" 0 "a" 0 "b:0_c" 0.
Proof. intros H. by apply H. Qed.

(** C6, amended: [getEdgeId] is a function of its four arguments (equal
    tuples give equal ids), and tuples whose source node ids contain no
    colon get equal ids only when they are equal. *)
Theorem getEdgeId_deterministic_injective a i b j a' i' b' j' :
  occurs ":" a = false → occurs ":" a' = false →
  getEdgeId a i b j = getEdgeId a' i' b' j' ↔ (a, i, b, j) = (a', i', b', j').
Proof.
  intros Ha Ha'. split.
  - by apply getEdgeId_inj.
  - intros [= -> -> -> ->]. done.
Qed.

(** An instance: two edges of the Dynamic example. *)
Lemma getEdgeId_deterministic_injective_witness :
  getEdgeId "node-1" 0 "node-2" 0 = getEdgeId "node-1" 1 "node-3" 0
  ↔ ("node-1", 0, "node-2", 0) = ("node-1", 1, "node-3", 0).
Proof.
  apply (getEdgeId_deterministic_injective "node-1" 0 "node-2" 0 "node-1" 1 "node-3" 0);
    reflexivity.
Defined.

(** ** The snapshot builder *)

Section BuilderFacts.
Context {Data : Type}.
Implicit Types (nodes : list (NodeProps.t Data)) (edges : list EdgeProps.t).
Implicit Types (layout : Layout).

(** What [convertToLayeredGraph] returns once the layout call returned. *)
Lemma convertToLayeredGraph_returns layout nodes edges graph :
  layout (NodeProps.id <$> nodes)
    ((λ edge, (EdgeProps.sourceNode edge, EdgeProps.targetNode edge)) <$> edges)
    = Some graph →
  convertToLayeredGraph layout nodes edges =
    Some (Snapshot.mk
            ((λ node, graph (NodeProps.id node)) <$> nodes)
            (initNodesData nodes edges)
            (initNodesOffsets nodes)
            (initEdgesNodes edges)
            (fst (initEdgesPositions nodes edges))
            (initEdgesActives edges),
          snd (initEdgesPositions nodes edges)).
Proof.
  intros Hg. unfold convertToLayeredGraph. rewrite Hg. simpl.
  by destruct (initEdgesPositions nodes edges).
Qed.

Lemma convertToLayeredGraph_throws layout nodes edges :
  layout (NodeProps.id <$> nodes)
    ((λ edge, (EdgeProps.sourceNode edge, EdgeProps.targetNode edge)) <$> edges)
    = None →
  convertToLayeredGraph layout nodes edges = None.
Proof. intros Hg. unfold convertToLayeredGraph. by rewrite Hg. Qed.

(** Inversion: a snapshot comes from a layout call that returned. *)
Lemma convertToLayeredGraph_inv layout nodes edges snapshot warnings :
  convertToLayeredGraph layout nodes edges = Some (snapshot, warnings) →
  ∃ graph : string → Position.t,
    snapshot =
      Snapshot.mk
        ((λ node, graph (NodeProps.id node)) <$> nodes)
        (initNodesData nodes edges)
        (initNodesOffsets nodes)
        (initEdgesNodes edges)
        (fst (initEdgesPositions nodes edges))
        (initEdgesActives edges)
    ∧ warnings = snd (initEdgesPositions nodes edges).
Proof.
  intros H.
  destruct (layout (NodeProps.id <$> nodes)
    ((λ edge, (EdgeProps.sourceNode edge, EdgeProps.targetNode edge)) <$> edges))
    as [graph|] eqn:Hg.
  - rewrite (convertToLayeredGraph_returns _ _ _ _ Hg) in H.
    exists graph. by inversion H.
  - by rewrite (convertToLayeredGraph_throws _ _ _ Hg) in H.
Qed.

(** *** The active flags *)

Lemma initEdgesActives_fold edges (acc : gmap string bool) key :
  fold_left (λ acc edge, <[EdgeProps.id edge := false]> acc) edges acc !! key =
    if bool_decide (key ∈ EdgeProps.id <$> edges) then Some false else acc !! key.
Proof.
  revert acc. induction edges as [|e edges IH]; intros acc.
  - case_bool_decide as Hin; [|done]. by apply elem_of_nil in Hin.
  - cbn [fold_left]. rewrite IH, fmap_cons.
    case_bool_decide as Htail; case_bool_decide as Hall; try done.
    + exfalso. apply Hall, elem_of_cons. by right.
    + apply elem_of_cons in Hall as [->|Hin]; [|done].
      by rewrite lookup_insert_eq.
    + rewrite lookup_insert_ne; [done|].
      intros <-. apply Hall, elem_of_cons. by left.
Qed.

Lemma initEdgesActives_lookup edges edge :
  edge ∈ edges → initEdgesActives edges !! EdgeProps.id edge = Some false.
Proof.
  intros Hin. unfold initEdgesActives. rewrite initEdgesActives_fold.
  rewrite bool_decide_eq_true_2; [done|]. by apply list_elem_of_fmap_2.
Qed.

(** C2, amended: every edge of the snapshot starts with its active flag
    cleared ([acc[edge.id] = false]). *)
Theorem convertToLayeredGraph_edges_start_inactive
    layout nodes edges snapshot warnings edge :
  convertToLayeredGraph layout nodes edges = Some (snapshot, warnings) →
  edge ∈ edges →
  Snapshot.initEdgesActives snapshot !! EdgeProps.id edge = Some false.
Proof.
  intros (graph & -> & _)%convertToLayeredGraph_inv Hin. simpl.
  by apply initEdgesActives_lookup.
Qed.

(** *** The provisional anchors *)

Lemma initNodesOffsets_lookup nodes k node :
  nodes !! k = Some node →
  ∃ offsets, initNodesOffsets nodes !! k = Some offsets ∧
    (∀ i, i < NodeProps.inputs node →
       NodeOffsets.inputs offsets !! i =
         Some (Port.mk (Position.mk
           (Position.x (NodeProps.position node))
           (Position.y (NodeProps.position node)
              + specPortY (NodeProps.inputs node) i)%Z))) ∧
    (∀ i, i < NodeProps.outputs node →
       NodeOffsets.outputs offsets !! i =
         Some (Port.mk (Position.mk
           (Position.x (NodeProps.position node) + 200)%Z
           (Position.y (NodeProps.position node)
              + specPortY (NodeProps.outputs node) i)%Z))).
Proof.
  intros Hk. unfold initNodesOffsets.
  rewrite list_lookup_fmap, Hk. simpl. eexists; split; [done|].
  split; intros i Hi; simpl;
    rewrite list_lookup_fmap, lookup_seq_lt by done; simpl;
    do 3 f_equal; unfold specPortY; lia.
Qed.

(** C4, amended: the provisional anchor of a port is the host-supplied
    position of the node plus the offset of the specification: x is
    [position.x] for an input and [position.x + 200] for an output, y is
    [position.y + (portIndex+1)*20 - (totalPorts+1)*10]. *)
Theorem convertToLayeredGraph_offsets_from_host_position
    layout nodes edges snapshot warnings k node :
  convertToLayeredGraph layout nodes edges = Some (snapshot, warnings) →
  nodes !! k = Some node →
  ∃ offsets, Snapshot.initNodesOffsets snapshot !! k = Some offsets ∧
    (∀ i, i < NodeProps.inputs node →
       NodeOffsets.inputs offsets !! i =
         Some (Port.mk (Position.mk
           (Position.x (NodeProps.position node))
           (Position.y (NodeProps.position node)
              + specPortY (NodeProps.inputs node) i)%Z))) ∧
    (∀ i, i < NodeProps.outputs node →
       NodeOffsets.outputs offsets !! i =
         Some (Port.mk (Position.mk
           (Position.x (NodeProps.position node) + 200)%Z
           (Position.y (NodeProps.position node)
              + specPortY (NodeProps.outputs node) i)%Z))).
Proof.
  intros (graph & -> & _)%convertToLayeredGraph_inv Hk. simpl.
  by apply initNodesOffsets_lookup.
Qed.

End BuilderFacts.

(** C2, as stated, fails on the Dynamic example: its edge starts with the
    flag cleared. *)
Lemma edges_start_inactive_in_example :
  ¬ edgesStartActive rowLayout initialNodes initialEdges.
Proof.
  intros H.
  destruct (convertToLayeredGraph rowLayout initialNodes initialEdges)
    as [[snapshot warnings]|] eqn:Hc; [|by vm_compute in Hc].
  specialize (H snapshot warnings Hc edge12 (list_elem_of_here _ _)).
  vm_compute in Hc. injection Hc as <- _. by vm_compute in H.
Qed.

(** An instance: the edge of the Dynamic example. *)
Lemma convertToLayeredGraph_edges_start_inactive_witness :
  ∃ snapshot warnings,
    convertToLayeredGraph rowLayout initialNodes initialEdges
      = Some (snapshot, warnings) ∧
    Snapshot.initEdgesActives snapshot !! EdgeProps.id edge12 = Some false.
Proof.
  destruct (convertToLayeredGraph rowLayout initialNodes initialEdges)
    as [[snapshot warnings]|] eqn:Hc; [|by vm_compute in Hc].
  exists snapshot, warnings. split; [done|].
  apply (convertToLayeredGraph_edges_start_inactive
           rowLayout initialNodes initialEdges snapshot warnings edge12 Hc).
  apply list_elem_of_here.
Defined.

(** C4, as stated, fails on the Dynamic example: the input anchor of
    node-1, whose host position is (100, 100), has x = 100. *)
Lemma offsets_depend_on_host_position :
  ¬ offsetsRelativeToNode rowLayout initialNodes initialEdges.
Proof.
  intros H.
  destruct (convertToLayeredGraph rowLayout initialNodes initialEdges)
    as [[snapshot warnings]|] eqn:Hc; [|by vm_compute in Hc].
  destruct (H snapshot warnings Hc 0 node1 eq_refl)
    as (offsets & Hoffsets & Hin & _).
  specialize (Hin 0 ltac:(simpl; lia)).
  vm_compute in Hc. injection Hc as <- _.
  vm_compute in Hoffsets. injection Hoffsets as <-.
  by vm_compute in Hin.
Qed.

(** An instance: node-1 of the Dynamic example, at (100, 100). *)
Lemma convertToLayeredGraph_offsets_from_host_position_witness :
  ∃ snapshot warnings offsets,
    convertToLayeredGraph rowLayout initialNodes initialEdges
      = Some (snapshot, warnings) ∧
    Snapshot.initNodesOffsets snapshot !! 0 = Some offsets ∧
    NodeOffsets.inputs offsets !! 0 = Some (Port.mk (Position.mk 100 100)) ∧
    NodeOffsets.outputs offsets !! 1 = Some (Port.mk (Position.mk 300 110)).
Proof.
  destruct (convertToLayeredGraph rowLayout initialNodes initialEdges)
    as [[snapshot warnings]|] eqn:Hc; [|by vm_compute in Hc].
  destruct (convertToLayeredGraph_offsets_from_host_position
              rowLayout initialNodes initialEdges snapshot warnings 0 node1
              Hc eq_refl) as (offsets & Hoffsets & Hin & Hout).
  exists snapshot, warnings, offsets. repeat split; [done| |].
  - apply (Hin 0). simpl. lia.
  - apply (Hout 1). simpl. lia.
Defined.

(** *** Dangling edges *)

Section DanglingEdges.
Context {Data : Type}.
Implicit Types (nodes : list (NodeProps.t Data)) (edges : list EdgeProps.t).

Lemma findNode_None nodes nodeId :
  findNode nodes nodeId = None ↔ nodeId ∉ NodeProps.id <$> nodes.
Proof.
  unfold findNode. rewrite fmap_None, list_find_None, Forall_forall.
  rewrite list_elem_of_fmap. split.
  - intros H (node & -> & Hin). by apply (H node Hin).
  - intros H node Hin Heq. apply H. eauto.
Qed.

Lemma edgePositionStep_dangling nodes acc edge :
  dangling nodes edge →
  edgePositionStep nodes acc edge = (fst acc, snd acc ++ [warningFor nodes edge]).
Proof.
  unfold edgePositionStep, warningFor. intros [H|H]; rewrite H; [done|].
  by destruct (findNode nodes (EdgeProps.sourceNode edge)).
Qed.

Lemma edgePositionStep_other nodes acc edge key :
  EdgeProps.id edge ≠ key →
  fst (edgePositionStep nodes acc edge) !! key = fst acc !! key.
Proof.
  intros Hne. unfold edgePositionStep.
  destruct (findNode nodes (EdgeProps.sourceNode edge)),
           (findNode nodes (EdgeProps.targetNode edge)); simpl; try done.
  by rewrite lookup_insert_ne.
Qed.

Lemma edgePositionStep_warnings nodes acc edge w :
  w ∈ snd acc → w ∈ snd (edgePositionStep nodes acc edge).
Proof.
  intros Hw. unfold edgePositionStep.
  destruct (findNode nodes (EdgeProps.sourceNode edge)),
           (findNode nodes (EdgeProps.targetNode edge)); simpl; try done;
    apply elem_of_app; by left.
Qed.

(** No position is recorded under a key all of whose edges dangle. *)
Lemma initEdgesPositions_fold_dangling nodes edges acc key :
  (∀ e, e ∈ edges → EdgeProps.id e = key → dangling nodes e) →
  fst (fold_left (edgePositionStep nodes) edges acc) !! key = fst acc !! key.
Proof.
  revert acc. induction edges as [|e edges IH]; intros acc Hall; [done|].
  cbn [fold_left]. rewrite IH.
  - destruct (decide (EdgeProps.id e = key)) as [Heq|Hne].
    + rewrite edgePositionStep_dangling; [done|].
      apply Hall; [apply list_elem_of_here|done].
    + by apply edgePositionStep_other.
  - intros e' Hin. apply Hall. by apply list_elem_of_further.
Qed.

Lemma initEdgesPositions_fold_keeps nodes edges acc w :
  w ∈ snd acc → w ∈ snd (fold_left (edgePositionStep nodes) edges acc).
Proof.
  revert acc. induction edges as [|e edges IH]; intros acc Hw; [done|].
  cbn [fold_left]. by apply IH, edgePositionStep_warnings.
Qed.

(** Every dangling edge is warned about. *)
Lemma initEdgesPositions_fold_warns nodes edges acc edge :
  edge ∈ edges → dangling nodes edge →
  warningFor nodes edge ∈ snd (fold_left (edgePositionStep nodes) edges acc).
Proof.
  revert acc. induction edges as [|e edges IH]; intros acc Hin Hd.
  - by apply elem_of_nil in Hin.
  - cbn [fold_left]. apply elem_of_cons in Hin as [<-|Hin].
    + apply initEdgesPositions_fold_keeps.
      rewrite edgePositionStep_dangling by done. simpl.
      apply elem_of_app. right. apply list_elem_of_here.
    + by apply IH.
Qed.

Lemma edgePositionStep_resolved nodes acc edge s t :
  findNode nodes (EdgeProps.sourceNode edge) = Some s →
  findNode nodes (EdgeProps.targetNode edge) = Some t →
  edgePositionStep nodes acc edge =
    (<[EdgeProps.id edge :=
         Vector.mk
           (Position.x (NodeProps.position s) + 200)%Z
           (Position.y (NodeProps.position s) - 10)%Z
           (Position.x (NodeProps.position t))
           (Position.y (NodeProps.position t) - 10)%Z]> (fst acc),
     snd acc).
Proof. intros Hs Ht. unfold edgePositionStep. by rewrite Hs, Ht. Qed.

Lemma not_dangling nodes edge :
  ¬ dangling nodes edge →
  ∃ s t, findNode nodes (EdgeProps.sourceNode edge) = Some s
         ∧ findNode nodes (EdgeProps.targetNode edge) = Some t.
Proof.
  unfold dangling. intros H.
  destruct (findNode nodes (EdgeProps.sourceNode edge)) as [s|];
    [|exfalso; by apply H; left].
  destruct (findNode nodes (EdgeProps.targetNode edge)) as [t|];
    [|exfalso; by apply H; right].
  eauto.
Qed.

Lemma initEdgesPositions_fold_warnings nodes edges acc :
  snd (fold_left (edgePositionStep nodes) edges acc) =
    snd acc ++ (warningFor nodes <$> filter (dangling nodes) edges).
Proof.
  revert acc. induction edges as [|e edges IH]; intros acc.
  - by rewrite app_nil_r.
  - cbn [fold_left]. rewrite IH.
    destruct (decide (dangling nodes e)) as [Hd|Hd].
    + rewrite filter_cons_True by done.
      rewrite edgePositionStep_dangling by done. simpl.
      by rewrite <- app_assoc.
    + rewrite filter_cons_False by done.
      destruct (not_dangling nodes e Hd) as (s & t & Hs & Ht).
      by rewrite (edgePositionStep_resolved _ _ _ s t Hs Ht).
Qed.

Lemma initEdgesNodes_fold_other edges (acc : gmap string EdgeNode.t) key :
  key ∉ EdgeProps.id <$> edges →
  fold_left
    (λ acc edge,
       <[EdgeProps.id edge :=
           EdgeNode.mk (EdgeProps.sourceNode edge) (EdgeProps.sourceOutput edge)
                       (EdgeProps.targetNode edge) (EdgeProps.targetInput edge)]> acc)
    edges acc !! key = acc !! key.
Proof.
  revert acc. induction edges as [|e edges IH]; intros acc Hout; [done|].
  cbn [fold_left]. rewrite fmap_cons in Hout.
  apply not_elem_of_cons in Hout as [Hne Hout].
  rewrite IH by done. by rewrite lookup_insert_ne.
Qed.

(** With unique edge ids, the endpoint map has each edge's own endpoints. *)
Lemma initEdgesNodes_lookup edges edge :
  NoDup (EdgeProps.id <$> edges) → edge ∈ edges →
  initEdgesNodes edges !! EdgeProps.id edge =
    Some (EdgeNode.mk (EdgeProps.sourceNode edge) (EdgeProps.sourceOutput edge)
                      (EdgeProps.targetNode edge) (EdgeProps.targetInput edge)).
Proof.
  unfold initEdgesNodes. generalize (∅ : gmap string EdgeNode.t).
  induction edges as [|e edges IH]; intros acc Hnd Hin.
  - by apply elem_of_nil in Hin.
  - cbn [fold_left]. rewrite fmap_cons in Hnd.
    apply NoDup_cons in Hnd as [Hfresh Hnd].
    apply elem_of_cons in Hin as [->|Hin].
    + rewrite initEdgesNodes_fold_other by done. apply lookup_insert_eq.
    + by apply IH.
Qed.

Lemma NoDup_fmap_id_eq edges e1 e2 :
  NoDup (EdgeProps.id <$> edges) → e1 ∈ edges → e2 ∈ edges →
  EdgeProps.id e1 = EdgeProps.id e2 → e1 = e2.
Proof.
  induction edges as [|e edges IH]; intros Hnd H1 H2 Heq.
  - by apply elem_of_nil in H1.
  - rewrite fmap_cons in Hnd. apply NoDup_cons in Hnd as [Hfresh Hnd].
    apply elem_of_cons in H1 as [->|H1], H2 as [->|H2]; try done.
    + exfalso. apply Hfresh. rewrite Heq. by apply list_elem_of_fmap_2.
    + exfalso. apply Hfresh. rewrite <- Heq. by apply list_elem_of_fmap_2.
    + by apply IH.
Qed.

(** The adjacency of a node lists every edge that names it. *)
Lemma initNodesData_lookup nodes edges k node :
  nodes !! k = Some node →
  ∃ nodeData, initNodesData nodes edges !! k = Some nodeData ∧
    NodeData.id nodeData = NodeProps.id node ∧
    (∀ edge, edge ∈ edges → EdgeProps.targetNode edge = NodeProps.id node →
       EdgeProps.id edge ∈ NodeData.edgesIn nodeData) ∧
    (∀ edge, edge ∈ edges → EdgeProps.sourceNode edge = NodeProps.id node →
       EdgeProps.id edge ∈ NodeData.edgesOut nodeData).
Proof.
  intros Hk. unfold initNodesData. rewrite list_lookup_fmap, Hk. simpl.
  eexists; split; [done|]. simpl. split; [done|].
  split; intros edge Hin Heq;
    apply list_elem_of_fmap_2, list_elem_of_filter; done.
Qed.

(** C7, amended: when the edge ids are unique and the layout call
    returns, an edge with a missing endpoint does not make the builder
    throw.  Its id has no entry in the endpoint positions, a warning is
    logged for it, and it is still recorded, with its own endpoints, in
    the endpoint-reference map and in the adjacency of each endpoint node
    that exists. *)
Theorem convertToLayeredGraph_dangling_edge
    (layout : Layout) nodes edges (graph : string → Position.t) edge :
  layout (NodeProps.id <$> nodes)
    ((λ edge, (EdgeProps.sourceNode edge, EdgeProps.targetNode edge)) <$> edges)
    = Some graph →
  NoDup (EdgeProps.id <$> edges) →
  edge ∈ edges →
  EdgeProps.sourceNode edge ∉ NodeProps.id <$> nodes
  ∨ EdgeProps.targetNode edge ∉ NodeProps.id <$> nodes →
  ∃ snapshot warnings,
    convertToLayeredGraph layout nodes edges = Some (snapshot, warnings) ∧
    Snapshot.initEdgesPositions snapshot !! EdgeProps.id edge = None ∧
    warningFor nodes edge ∈ warnings ∧
    Snapshot.initEdgesNodes snapshot !! EdgeProps.id edge =
      Some (EdgeNode.mk (EdgeProps.sourceNode edge) (EdgeProps.sourceOutput edge)
                        (EdgeProps.targetNode edge) (EdgeProps.targetInput edge)) ∧
    ∀ k node, nodes !! k = Some node →
      ∃ nodeData, Snapshot.initNodesData snapshot !! k = Some nodeData ∧
        NodeData.id nodeData = NodeProps.id node ∧
        (EdgeProps.targetNode edge = NodeProps.id node →
           EdgeProps.id edge ∈ NodeData.edgesIn nodeData) ∧
        (EdgeProps.sourceNode edge = NodeProps.id node →
           EdgeProps.id edge ∈ NodeData.edgesOut nodeData).
Proof.
  intros Hg Hnd Hin Hmissing.
  assert (Hd : dangling nodes edge).
  { unfold dangling. rewrite !findNode_None. done. }
  rewrite (convertToLayeredGraph_returns _ _ _ _ Hg).
  eexists _, _. split; [done|]. simpl. repeat split.
  - unfold initEdgesPositions. rewrite initEdgesPositions_fold_dangling; [done|].
    intros e He Heq. by rewrite (NoDup_fmap_id_eq edges e edge Hnd He Hin Heq).
  - by apply initEdgesPositions_fold_warns.
  - by apply initEdgesNodes_lookup.
  - intros k node Hk.
    destruct (initNodesData_lookup nodes edges k node Hk)
      as (nodeData & Hlook & Hid & HedgesIn & HedgesOut).
    exists nodeData. repeat split; [done|done|..]; intros Heq; auto.
Qed.

End DanglingEdges.

(** *** The layout result *)

Section LayoutResult.
Context {Data : Type}.
Implicit Types (nodes : list (NodeProps.t Data)) (edges : list EdgeProps.t).

(** C5, amended: a failure of the layout call is fatal, and its result is
    used as it is.  When the call throws, the builder throws: there is no
    snapshot.  When it returns, the builder returns; the snapshot has one
    position per node, the one the layout graph holds for the id of the
    node, and every warning logged is the warning of an edge with a
    missing endpoint: none is about the layout. *)
Theorem convertToLayeredGraph_layout_outcome (layout : Layout) nodes edges :
  (layoutCall layout nodes edges = None →
     convertToLayeredGraph layout nodes edges = None) ∧
  (∀ graph, layoutCall layout nodes edges = Some graph →
     ∃ snapshot warnings,
       convertToLayeredGraph layout nodes edges = Some (snapshot, warnings) ∧
       length (Snapshot.initNodesPositions snapshot) = length nodes ∧
       (∀ k node, nodes !! k = Some node →
          Snapshot.initNodesPositions snapshot !! k
            = Some (graph (NodeProps.id node))) ∧
       (∀ w, w ∈ warnings →
          ∃ edge, edge ∈ edges ∧ dangling nodes edge ∧ w = warningFor nodes edge)).
Proof.
  unfold layoutCall. split; [apply convertToLayeredGraph_throws|].
  intros graph Hg. rewrite (convertToLayeredGraph_returns _ _ _ _ Hg).
  eexists _, _. split; [done|]. simpl. split; [by rewrite length_fmap|]. split.
  - intros k node Hk. by rewrite list_lookup_fmap, Hk.
  - intros w Hw. unfold initEdgesPositions in Hw.
    rewrite initEdgesPositions_fold_warnings in Hw. simpl in Hw.
    apply list_elem_of_fmap in Hw as (edge & -> & Hedge).
    apply list_elem_of_filter in Hedge as [Hd Hin]. eauto.
Qed.

End LayoutResult.

(** C5, as stated, fails: when the layout call throws there is no
    snapshot, so no node has a position. *)
Lemma layout_failure_is_not_absorbed :
  ¬ layoutFailureFallsBack throwingLayout initialNodes initialEdges.
Proof. intros (snapshot & warnings & Hc & _). by vm_compute in Hc. Qed.

(** An instance: the Dynamic example under the row layout.  node-3 is
    third in the row and nothing is logged. *)
Lemma convertToLayeredGraph_layout_outcome_witness :
  ∃ snapshot warnings,
    convertToLayeredGraph rowLayout initialNodes initialEdges
      = Some (snapshot, warnings) ∧
    length (Snapshot.initNodesPositions snapshot) = 3 ∧
    Snapshot.initNodesPositions snapshot !! 2 = Some (Position.mk 500 0).
Proof.
  destruct (convertToLayeredGraph_layout_outcome rowLayout initialNodes initialEdges)
    as [_ Hreturns].
  destruct (Hreturns (rowGraph (NodeProps.id <$> initialNodes)) eq_refl)
    as (snapshot & warnings & Hc & Hlen & Hpos & _).
  exists snapshot, warnings. split; [done|]. split; [done|].
  exact (Hpos 2 node3 eq_refl).
Defined.

(** C7, as stated, fails.  With a second edge under the same id whose
    endpoints exist, the id of the dangling edge has endpoint positions;
    and when the layout call throws, the builder throws. *)
Lemma dangling_edge_is_not_always_omitted :
  ¬ danglingEdgeTolerated rowLayout initialNodes [danglingEdge; homonymEdge]
      danglingEdge
  ∧ ¬ danglingEdgeTolerated throwingLayout initialNodes [edge12; danglingEdge]
        danglingEdge.
Proof.
  split.
  - intros H. destruct H as (snapshot & warnings & Hc & Hpos & _).
    + apply list_elem_of_here.
    + right. compute_done.
    + vm_compute in Hc. injection Hc as <- _. by vm_compute in Hpos.
  - intros H. destruct H as (snapshot & warnings & Hc & _).
    + apply list_elem_of_further, list_elem_of_here.
    + right. compute_done.
    + by vm_compute in Hc.
Qed.

(** An instance: an edge from node-1 to a node that is not supplied. *)
Lemma convertToLayeredGraph_dangling_edge_witness :
  ∃ snapshot warnings,
    convertToLayeredGraph rowLayout initialNodes [edge12; danglingEdge]
      = Some (snapshot, warnings) ∧
    Snapshot.initEdgesPositions snapshot !! "edge_node-1:1_node-9:0" = None ∧
    Warning.mk "edge_node-1:1_node-9:0" "node-1" true "node-9" false ∈ warnings ∧
    Snapshot.initEdgesNodes snapshot !! "edge_node-1:1_node-9:0"
      = Some (EdgeNode.mk "node-1" 1 "node-9" 0) ∧
    ∃ nodeData, Snapshot.initNodesData snapshot !! 0 = Some nodeData ∧
      "edge_node-1:1_node-9:0" ∈ NodeData.edgesOut nodeData.
Proof.
  destruct (convertToLayeredGraph_dangling_edge
              rowLayout initialNodes [edge12; danglingEdge]
              (rowGraph (NodeProps.id <$> initialNodes))
              danglingEdge)
    as (snapshot & warnings & Hc & Hpos & Hwarn & Hnodes & Hadj).
  - reflexivity.
  - compute_done.
  - apply list_elem_of_further, list_elem_of_here.
  - right. compute_done.
  - exists snapshot, warnings. repeat split; try done.
    destruct (Hadj 0 node1 eq_refl) as (nodeData & Hlook & _ & _ & Hout).
    exists nodeData. split; [done|]. by apply Hout.
Defined.

(** ** The handler monad *)

Section HandlerFacts.
Context {Data : Type}.
Implicit Types (st : State.t Data).

Lemma bind_run {A B} (m : Handler Data A) (f : A → Handler Data B) st :
  (m ≫= f) st =
    match m st with
    | (effs, Returned a st') => (effs ++ fst (f a st'), snd (f a st'))
    | (effs, Threw st') => (effs, Threw st')
    end.
Proof.
  unfold mbind, handler_bind. destruct (m st) as [effs [a st'|st']]; [|done].
  by destruct (f a st').
Qed.

Lemma bind_ret {A B} (a : A) (f : A → Handler Data B) st :
  (mret a ≫= f) st = f a st.
Proof. rewrite bind_run. simpl. by destruct (f a st). Qed.

Lemma bind_get {B} (f : State.t Data → Handler Data B) st :
  (get ≫= f) st = f st st.
Proof. rewrite bind_run. simpl. by destruct (f st st). Qed.

Lemma bind_modify {B} g (f : unit → Handler Data B) st :
  (modify g ≫= f) st = f () (g st).
Proof. rewrite bind_run. simpl. by destruct (f () (g st)). Qed.

Lemma bind_perform {B} e (f : unit → Handler Data B) st :
  (perform e ≫= f) st = (e :: fst (f () st), snd (f () st)).
Proof. by rewrite bind_run. Qed.

Lemma bind_deref_Some {A B} (a : A) (f : A → Handler Data B) st :
  (deref (Some a) ≫= f) st = f a st.
Proof. apply bind_ret. Qed.

Lemma bind_deref_None {A B} (f : A → Handler Data B) st :
  (deref None ≫= f) st = ([], Threw st).
Proof. by rewrite bind_run. Qed.

End HandlerFacts.

(** One step of a run: the head of the handler is a primitive. *)
Ltac run_step :=
  first
    [ rewrite bind_get
    | rewrite bind_modify
    | rewrite bind_perform
    | rewrite bind_deref_Some
    | rewrite bind_deref_None
    | rewrite bind_ret ].

Ltac run_handler :=
  unfold setEdgesNodes, setEdgesPositions, setEdgesActives, setNodesPositions,
    setNodesData, setNodesOffsets, setClickedDelta, setNewEdge, setPrevEdgesRef;
  repeat run_step.

(** ** Reconciliation *)

Section Reconciliation.
Context {Data : Type}.

(** C3: with the node count of the previous generation and the edge array
    last reconciled, the effect does nothing: no call, no throw, and the
    state, with every node position and every edge endpoint, is the one
    it started from, whatever the nodes carry. *)
Theorem reconcile_same_structure
    (layout : Layout) (props : Props.t Data) (st : State.t Data) :
  length (Props.nodes props) = length (State.nodesData st) →
  EdgeArray.ref (Props.edges props) = State.prevEdgesRef st →
  reconcile layout props st = ([], Returned () st).
Proof.
  intros Hlen Href. unfold reconcile. run_handler.
  rewrite !bool_decide_eq_false_2 by (intros H; by apply H). done.
Qed.

(** The other branch: a changed node count or a new edge array rebuilds. *)
Lemma reconcile_rebuilds
    (layout : Layout) (props : Props.t Data) (st : State.t Data) :
  length (Props.nodes props) ≠ length (State.nodesData st)
  ∨ EdgeArray.ref (Props.edges props) ≠ State.prevEdgesRef st →
  convertToLayeredGraph layout (Props.nodes props)
    (EdgeArray.elems (Props.edges props)) = None →
  reconcile layout props st = ([], Threw st).
Proof.
  intros Hchanged Hthrow. unfold reconcile. run_handler.
  destruct Hchanged as [H|H].
  - rewrite (bool_decide_eq_true_2 _ H). simpl. rewrite Hthrow. by run_handler.
  - rewrite (bool_decide_eq_true_2 _ H), orb_true_r. rewrite Hthrow.
    by run_handler.
Qed.

End Reconciliation.

(** An instance: the payload and the host position of node-1 change. *)
Lemma reconcile_same_structure_witness :
  reconcile rowLayout contentChangedProps mountedState
    = ([], Returned () mountedState).
Proof.
  apply (reconcile_same_structure rowLayout contentChangedProps mountedState);
    reflexivity.
Defined.

(** ** Node deletion *)

Section NodeDeletion.
Context {Data : Type}.

(** C9: deleting a node calls [onEdgesChange] and then [onNodesChange],
    once each and in that order.  The edge list is the host's without
    every edge whose source or target is the node; the node list is the
    host's without the node.  The engine state is not written. *)
Theorem handleOnNodeDelete_cascade
    (props : Props.t Data) (nodeId : string) (st : State.t Data) :
  ∃ newEdges newNodes,
    handleOnNodeDelete props nodeId st =
      ([OnEdgesChange newEdges; OnNodesChange newNodes], Returned () st) ∧
    (∀ edge, edge ∈ newEdges ↔
       edge ∈ EdgeArray.elems (Props.edges props)
       ∧ EdgeProps.sourceNode edge ≠ nodeId
       ∧ EdgeProps.targetNode edge ≠ nodeId) ∧
    (∀ node, node ∈ newNodes ↔
       node ∈ Props.nodes props ∧ NodeProps.id node ≠ nodeId).
Proof.
  eexists _, _. split; [reflexivity|]. split.
  - intros edge. rewrite list_elem_of_filter. tauto.
  - intros node. rewrite list_elem_of_filter. tauto.
Qed.

End NodeDeletion.

(** ** Releasing on an input port *)

Section InputRelease.
Context {Data : Type}.
Implicit Types (st : State.t Data).

(** C10, amended: without a pending edge, a release on the input port of
    a node that exists ([nodeIndex] below the node count, so there is at
    least one node) returns with the state unchanged and no call.  For any
    other ordinal, and so whenever the node list is empty, the handler
    throws before its guard, on the nodes at ordinal 0 and [nodeIndex]. *)
Theorem handleOnInputMouseUp_without_pending st nodeIndex inputIndex :
  State.newEdge st = None →
  handleOnInputMouseUp nodeIndex inputIndex st =
    ([], if bool_decide (nodeIndex < length (State.nodesData st))
         then Returned () st else Threw st).
Proof.
  intros Hnone. unfold handleOnInputMouseUp. run_handler.
  rewrite Hnone. simpl.
  case_bool_decide as Hlt.
  - destruct (lookup_lt_is_Some_2 (State.nodesData st) 0 ltac:(lia)) as [n0 H0].
    destruct (lookup_lt_is_Some_2 (State.nodesData st) nodeIndex Hlt) as [n H].
    rewrite H0. run_handler. rewrite H. by run_handler.
  - destruct (State.nodesData st !! 0) as [n0|] eqn:H0; run_handler; [|done].
    rewrite (lookup_ge_None_2 (State.nodesData st) nodeIndex) by lia.
    by run_handler.
Qed.

(** C1, amended: a release that names an edge already among the source
    node's [edgesOut] or the target node's [edgesIn] creates nothing and
    removes nothing.  The handler returns without a call; adjacency, the
    three edge maps and so the active-edge count are unchanged, and the
    pending edge is cleared. *)
Theorem handleOnInputMouseUp_existing_edge
    st nodeIndex inputIndex pending sourceData targetData :
  State.newEdge st = Some pending →
  State.nodesData st !! NewEdge.sourceNode pending = Some sourceData →
  State.nodesData st !! nodeIndex = Some targetData →
  getEdgeId (NodeData.id sourceData) (NewEdge.sourceOutput pending)
      (NodeData.id targetData) inputIndex ∈ NodeData.edgesOut sourceData
  ∨ getEdgeId (NodeData.id sourceData) (NewEdge.sourceOutput pending)
      (NodeData.id targetData) inputIndex ∈ NodeData.edgesIn targetData →
  ∃ st',
    handleOnInputMouseUp nodeIndex inputIndex st = ([], Returned () st') ∧
    State.newEdge st' = None ∧
    State.nodesData st' = State.nodesData st ∧
    State.edgesActives st' = State.edgesActives st ∧
    State.edgesNodes st' = State.edgesNodes st ∧
    State.edgesPositions st' = State.edgesPositions st ∧
    activeEdgeCount st' = activeEdgeCount st.
Proof.
  intros Hpending Hsource Htarget Hhave.
  unfold handleOnInputMouseUp. run_handler. rewrite Hpending. simpl.
  case_bool_decide as Hself.
  - run_handler. eexists. split; [reflexivity|]. done.
  - rewrite Hsource. run_handler. rewrite Htarget. run_handler.
    assert (Hor :
      bool_decide (getEdgeId (NodeData.id sourceData) (NewEdge.sourceOutput pending)
                     (NodeData.id targetData) inputIndex ∈ NodeData.edgesOut sourceData)
      || bool_decide (getEdgeId (NodeData.id sourceData) (NewEdge.sourceOutput pending)
                     (NodeData.id targetData) inputIndex ∈ NodeData.edgesIn targetData)
      = true).
    { destruct Hhave as [H|H]; rewrite (bool_decide_eq_true_2 _ H);
        [done|apply orb_true_r]. }
    rewrite Hor. run_handler. eexists. split; [reflexivity|]. done.
Qed.

End InputRelease.

(** C10, as stated, fails: with three nodes and no pending edge, a
    release at ordinal 3 throws. *)
Lemma release_without_pending_may_throw :
  ¬ releaseWithoutPendingIsNoop mountedState 3 0.
Proof.
  intros H.
  assert (Hrun : handleOnInputMouseUp 3 0 mountedState = ([], Threw mountedState)).
  { vm_compute. reflexivity. }
  rewrite H in Hrun; [by inversion Hrun|by vm_compute|reflexivity].
Qed.

(** An instance: a release on node-2 with nothing pending. *)
Lemma handleOnInputMouseUp_without_pending_witness :
  handleOnInputMouseUp 1 0 mountedState = ([], Returned () mountedState).
Proof.
  apply (handleOnInputMouseUp_without_pending mountedState 1 0). reflexivity.
Defined.

(** C1, as stated, fails: with the pending edge drawn from output 0 of
    node-1, a release on input 0 of node-2 names the existing edge and
    leaves it in place. *)
Lemma release_does_not_toggle : ¬ releaseTogglesEdge drawingState 1 0.
Proof.
  intros H.
  destruct (H (NewEdge.mk (Vector.mk 200 30 200 30) 0 0)
              (NodeData.mk "node-1" "Node 1 (2 outputs)" 1 2 "white" []
                 ["edge_node-1:0_node-2:0"])
              (NodeData.mk "node-2" "Node 2 (1 output)" 1 1 "white"
                 ["edge_node-1:0_node-2:0"] []))
    as (_ & Hactive & _); [reflexivity..| |].
  - left. apply list_elem_of_here.
  - by vm_compute in Hactive.
Qed.

(** An instance: the release of the counterexample above. *)
Lemma handleOnInputMouseUp_existing_edge_witness :
  ∃ st',
    handleOnInputMouseUp 1 0 drawingState = ([], Returned () st') ∧
    State.newEdge st' = None ∧
    State.nodesData st' = State.nodesData drawingState ∧
    State.edgesActives st' = State.edgesActives drawingState ∧
    State.edgesNodes st' = State.edgesNodes drawingState ∧
    State.edgesPositions st' = State.edgesPositions drawingState ∧
    activeEdgeCount st' = activeEdgeCount drawingState.
Proof.
  apply (handleOnInputMouseUp_existing_edge drawingState 1 0
           (NewEdge.mk (Vector.mk 200 30 200 30) 0 0)
           (NodeData.mk "node-1" "Node 1 (2 outputs)" 1 2 "white" []
              ["edge_node-1:0_node-2:0"])
           (NodeData.mk "node-2" "Node 2 (1 output)" 1 1 "white"
              ["edge_node-1:0_node-2:0"] [])); [reflexivity..|].
  left. apply list_elem_of_here.
Defined.

(** ** What the host is told *)

Section Reports.
Context {Data : Type}.
Implicit Types (st : State.t Data).

Lemma activeEdgesOf_active (actives : gmap string bool)
    (allEdgesNodes : gmap string EdgeNode.t) edge :
  edge ∈ activeEdgesOf actives allEdgesNodes →
  actives !! EdgeProps.id edge = Some true.
Proof.
  unfold activeEdgesOf. intros (key & _ & Hkey)%list_elem_of_omap.
  destruct (actives !! key) as [[|]|] eqn:Hactive; try done.
  apply fmap_Some in Hkey as (edgeInfo & _ & ->). done.
Qed.

Lemma activeEdgesStrict_active (actives : gmap string bool)
    (edgesNodes : gmap string EdgeNode.t) activeEdges edge :
  activeEdgesStrict actives edgesNodes = Some activeEdges →
  edge ∈ activeEdges →
  actives !! EdgeProps.id edge = Some true.
Proof.
  unfold activeEdgesStrict. intros Hall%mapM_Some_1 Hin.
  apply list_elem_of_lookup_1 in Hin as [i Hi].
  destruct (Forall2_lookup_r _ _ _ _ _ Hall Hi) as (key & Hkey & Hinfo).
  apply list_elem_of_lookup_2, list_elem_of_filter in Hkey as [Hactive _].
  apply fmap_Some in Hinfo as (edgeInfo & _ & ->). done.
Qed.

(** A run that called nobody reports only active edges. *)
Lemma reportsOnlyActive_silent {A} (out : Outcome Data A) :
  reportsOnlyActive (([] : list (Effect Data)), out).
Proof. intros newEdges Hin. by apply elem_of_nil in Hin. Qed.

Lemma createEdge_reports_active
    sourceIndex sourceOutput nodeIndex inputIndex
    sourceNodeId targetNodeId edgeId st :
  reportsOnlyActive
    (createEdge sourceIndex sourceOutput nodeIndex inputIndex
       sourceNodeId targetNodeId edgeId st).
Proof.
  unfold createEdge. run_handler.
  repeat
    match goal with
    | |- context [deref ?v ≫= _] =>
        destruct v eqn:?; run_handler; [|apply reportsOnlyActive_silent]
    end.
  intros newEdges Hin edge Hedge. simpl in *.
  apply list_elem_of_singleton in Hin. injection Hin as ->.
  by apply activeEdgesOf_active in Hedge.
Qed.

(** Clearing the pending edge afterwards changes neither the calls nor
    the active flags. *)
Lemma reportsOnlyActive_then_clear (m : Handler Data unit) st :
  reportsOnlyActive (m st) →
  reportsOnlyActive ((m ≫= λ _, setNewEdge None) st).
Proof.
  intros H. rewrite bind_run.
  destruct (m st) as [effs [[] st'|st']]; [|done].
  intros newEdges Hin edge Hedge. simpl in *.
  rewrite app_nil_r in Hin. by apply (H newEdges Hin edge Hedge).
Qed.

Lemma handleOnInputMouseUp_reports_active st nodeIndex inputIndex :
  reportsOnlyActive (handleOnInputMouseUp nodeIndex inputIndex st).
Proof.
  unfold handleOnInputMouseUp. run_handler.
  case_bool_decide as Hself; [run_handler; apply reportsOnlyActive_silent|].
  destruct (State.nodesData st
              !! from_option NewEdge.sourceNode 0 (State.newEdge st))
    as [sourceData|]; run_handler; [|apply reportsOnlyActive_silent].
  destruct (State.nodesData st !! nodeIndex) as [targetData|]; run_handler;
    [|apply reportsOnlyActive_silent].
  destruct (State.newEdge st) as [pending|]; [|apply reportsOnlyActive_silent].
  apply reportsOnlyActive_then_clear.
  destruct (_ || _); [apply reportsOnlyActive_silent|].
  apply createEdge_reports_active.
Qed.

Lemma handleOnDeleteEdge_reports_active st edgeId :
  reportsOnlyActive (handleOnDeleteEdge edgeId st).
Proof.
  unfold handleOnDeleteEdge. run_handler.
  repeat
    match goal with
    | |- context [deref ?v ≫= _] =>
        destruct v eqn:?; run_handler; [|apply reportsOnlyActive_silent]
    end.
  intros newEdges Hin edge Hedge. simpl in *.
  apply list_elem_of_singleton in Hin. injection Hin as ->.
  eapply activeEdgesStrict_active; done.
Qed.

(** C8, amended: on the two edge paths, creation by a release and
    [handleOnDeleteEdge], every edge passed to [onEdgesChange] is flagged
    in [edgesActives()] at the call.  On node deletion the list passed is
    the host's own edge array filtered by endpoint: the flags are not
    read. *)
Theorem edge_paths_report_only_active (st : State.t Data) :
  (∀ nodeIndex inputIndex,
     reportsOnlyActive (handleOnInputMouseUp nodeIndex inputIndex st)) ∧
  (∀ edgeId, reportsOnlyActive (handleOnDeleteEdge edgeId st)) ∧
  (∀ (props : Props.t Data) nodeId,
     fst (handleOnNodeDelete props nodeId st) =
       [OnEdgesChange
          (filter (λ edge, EdgeProps.sourceNode edge ≠ nodeId
                           ∧ EdgeProps.targetNode edge ≠ nodeId)
             (EdgeArray.elems (Props.edges props)));
        OnNodesChange
          (filter (λ node, NodeProps.id node ≠ nodeId) (Props.nodes props))]).
Proof.
  split; [|split].
  - intros. apply handleOnInputMouseUp_reports_active.
  - intros. apply handleOnDeleteEdge_reports_active.
  - intros props nodeId. reflexivity.
Qed.

End Reports.

(** C8, as stated, fails on node deletion: the host's array holds an edge
    between two nodes it never supplied, which no mount activates, and
    deleting node-3 passes that edge to [onEdgesChange]. *)
Lemma node_deletion_reports_inactive_edge :
  ¬ everyPathReportsOnlyActive ghostProps ghostMountedState.
Proof.
  intros (_ & _ & H).
  specialize (H "node-3" [edge12; ghostEdge] (list_elem_of_here _ _) ghostEdge
                (list_elem_of_further _ _ _ (list_elem_of_here _ _))).
  by vm_compute in H.
Qed.

(** ** The gestures at work *)

Section Gestures.
Context {Data : Type}.
Implicit Types (st : State.t Data).

Lemma activateAll_lookup edgeIds (actives : gmap string bool) key :
  activateAll edgeIds actives !! key =
    if bool_decide (key ∈ edgeIds) then Some true else actives !! key.
Proof.
  unfold activateAll. revert actives.
  induction edgeIds as [|e edgeIds IH]; intros actives.
  - case_bool_decide as Hin; [|done]. by apply elem_of_nil in Hin.
  - cbn [fold_left]. rewrite IH.
    case_bool_decide as Htail; case_bool_decide as Hall; try done.
    + exfalso. apply Hall, elem_of_cons. by right.
    + apply elem_of_cons in Hall as [->|Hin]; [|done].
      by rewrite lookup_insert_eq.
    + rewrite lookup_insert_ne; [done|].
      intros <-. apply Hall, elem_of_cons. by left.
Qed.

(** The edges of the snapshot start inactive; the mount of a node is what
    activates the edges incident on it. *)
Lemma handleOnNodeMount_activates
    st nodeIndex inputs outputs effs st' node edgeId :
  handleOnNodeMount nodeIndex inputs outputs st = (effs, Returned () st') →
  State.nodesData st !! nodeIndex = Some node →
  edgeId ∈ NodeData.edgesIn node ∨ edgeId ∈ NodeData.edgesOut node →
  State.edgesActives st' !! edgeId = Some true.
Proof.
  intros Hrun Hnode Hin. revert Hrun.
  unfold handleOnNodeMount. run_handler.
  destruct (State.nodesOffsets st !! nodeIndex); run_handler; [|done].
  simpl. rewrite Hnode. run_handler. simpl.
  match goal with
  | |- context [deref ?v] => destruct v
  end; run_handler; [|done].
  intros [= <- <-]. simpl. rewrite !activateAll_lookup.
  destruct Hin as [Hin|Hin].
  - rewrite (bool_decide_eq_true_2 _ Hin). by case_bool_decide.
  - by rewrite (bool_decide_eq_true_2 _ Hin).
Qed.

(** [onMouseUp] clears the pending edge and nothing else. *)
Lemma handleOnMouseUp_clears st :
  ∃ st', handleOnMouseUp st = ([], Returned () st') ∧
    State.newEdge st' = None ∧
    State.nodesData st' = State.nodesData st ∧
    State.edgesActives st' = State.edgesActives st ∧
    State.edgesPositions st' = State.edgesPositions st.
Proof. eexists. split; [reflexivity|done]. Qed.

(** [onMouseMove] is a no-op without a pending edge. *)
Lemma handleOnMouseMove_idle st x y :
  State.newEdge st = None → handleOnMouseMove x y st = ([], Returned () st).
Proof. intros H. unfold handleOnMouseMove. run_handler. by rewrite H. Qed.

(** With a pending edge, [onMouseMove] moves its free endpoint only. *)
Lemma handleOnMouseMove_drawing st x y pending :
  State.newEdge st = Some pending →
  ∃ st', handleOnMouseMove x y st = ([], Returned () st') ∧
    State.newEdge st' =
      Some (NewEdge.mk
        (Vector.mk (Vector.x0 (NewEdge.position pending))
                   (Vector.y0 (NewEdge.position pending)) x y)
        (NewEdge.sourceNode pending) (NewEdge.sourceOutput pending)) ∧
    State.nodesData st' = State.nodesData st ∧
    State.edgesActives st' = State.edgesActives st.
Proof.
  intros H. unfold handleOnMouseMove. run_handler. rewrite H. run_handler.
  eexists. split; [reflexivity|done].
Qed.

(** A release on the node the pending edge starts from only clears it. *)
Lemma handleOnInputMouseUp_self st nodeIndex inputIndex pending :
  State.newEdge st = Some pending →
  NewEdge.sourceNode pending = nodeIndex →
  handleOnInputMouseUp nodeIndex inputIndex st = handleOnMouseUp st.
Proof.
  intros H <-. unfold handleOnInputMouseUp, handleOnMouseUp. run_handler.
  rewrite H. simpl. by rewrite bool_decide_eq_true_2.
Qed.

End Gestures.

(** The creation of the component of the Dynamic example returns, without
    a warning. *)
Example FlowChart_example :
  FlowChart rowLayout exampleProps = Some (createdState exampleProps, []).
Proof. reflexivity. Qed.

(** After the mounts the edge of the example is active. *)
Example mounted_edge_is_active :
  map_to_list (State.edgesActives (createdState exampleProps))
    = [("edge_node-1:0_node-2:0", false)]
  ∧ map_to_list (State.edgesActives mountedState)
    = [("edge_node-1:0_node-2:0", true)].
Proof. split; reflexivity. Qed.

(** Drawing from output 0 of node-1 to input 0 of node-3 creates the edge
    and reports both active edges. *)
Example release_creates_edge :
  ∃ reported st',
    handleOnInputMouseUp 2 0 drawingState
      = ([OnEdgesChange reported], Returned () st') ∧
    EdgeProps.mk "edge_node-1:0_node-3:0" "node-1" "node-3" 0 0 ∈ reported ∧
    edge12 ∈ reported ∧
    length reported = 2 ∧
    activeEdgeCount st' = 2 ∧
    State.newEdge st' = None ∧
    State.edgesPositions st' !! "edge_node-1:0_node-3:0"
      = Some (Vector.mk 200 30 500 30).
Proof.
  eexists _, _. split; [vm_compute; reflexivity|].
  repeat split; try reflexivity.
  - apply list_elem_of_here.
  - apply list_elem_of_further, list_elem_of_here.
Qed.

(** Deleting that edge again leaves the edge of the example as the only
    active one, and that is what the host is told. *)
Example create_then_delete_edge :
  handleOnDeleteEdge "edge_node-1:0_node-3:0"
      (run (handleOnInputMouseUp 2 0) drawingState)
    = ([OnEdgesChange [edge12]],
       Returned ()
         (run (handleOnDeleteEdge "edge_node-1:0_node-3:0")
            (run (handleOnInputMouseUp 2 0) drawingState)))
  ∧ activeEdgeCount
      (run (handleOnDeleteEdge "edge_node-1:0_node-3:0")
         (run (handleOnInputMouseUp 2 0) drawingState)) = 1.
Proof. split; vm_compute; reflexivity. Qed.

(** Deleting an edge one of whose endpoints is missing throws: the node
    lookup by id fails. *)
Example delete_dangling_edge_throws :
  ∃ st st',
    FlowChart rowLayout (Props.mk initialNodes (EdgeArray.mk 1 [danglingEdge]))
      = Some (st, [Warning.mk "edge_node-1:1_node-9:0" "node-1" true "node-9" false])
    ∧ handleOnDeleteEdge "edge_node-1:1_node-9:0" st = ([], Threw st').
Proof. eexists _, _. split; vm_compute; reflexivity. Qed.

(** A node moved after a press follows the pointer, and so does the
    endpoint of its active edge. *)
Example move_node_example :
  let st := run (handleOnNodeMove 0 60 45) (run (handleOnNodePress 10 5) mountedState) in
  State.nodesPositions st !! 0 = Some (Position.mk 50 40)
  ∧ State.edgesPositions st !! "edge_node-1:0_node-2:0"
    = Some (Vector.mk 250 70 250 30).
Proof. split; reflexivity. Qed.

(** * Part III: further properties of the code *)

(** ** Edge identifiers of one source node *)

Lemma string_app_cancel (s t u : string) : s +:+ t = s +:+ u → t = u.
Proof. induction s as [|c s IH]; simpl; [done|]. intros [= H]. by apply IH. Qed.

(** X1: the ids of two edges that leave the same node, whatever its id
    is, are equal only when output port, target node and input port are. *)
Theorem getEdgeId_same_source a i b j i' b' j' :
  getEdgeId a i b j = getEdgeId a i' b' j' ↔ (i, b, j) = (i', b', j').
Proof.
  split; [|by intros [= -> -> ->]].
  unfold getEdgeId. intros Heq. simpl in Heq. injection Heq as Heq.
  simpl in Heq. apply (string_app_cancel a) in Heq.
  simpl in Heq. injection Heq as Heq.
  change (numberToString i +:+ String "_" (b +:+ String ":" (numberToString j))
          = numberToString i' +:+ String "_"
              (b' +:+ String ":" (numberToString j'))) in Heq.
  apply split_at_first in Heq as [Hi Heq];
    [|apply numberToString_no_underscore..].
  apply split_at_last in Heq as [-> Hj]; [|apply numberToString_no_colon..].
  apply numberToString_inj in Hi as ->.
  apply numberToString_inj in Hj as ->. done.
Qed.

(** ** The shape of the snapshot *)

Section SnapshotShape.
Context {Data : Type}.
Implicit Types (nodes : list (NodeProps.t Data)) (edges : list EdgeProps.t).
Implicit Types (layout : Layout).

(** X2: the three per-node arrays of the snapshot have one element per
    host node, in the host's order (the record at ordinal k carries the
    id of the k-th node), and the anchors of a node are one per input
    port and one per output port. *)
Theorem convertToLayeredGraph_shape layout nodes edges snapshot warnings :
  convertToLayeredGraph layout nodes edges = Some (snapshot, warnings) →
  length (Snapshot.initNodesPositions snapshot) = length nodes ∧
  length (Snapshot.initNodesOffsets snapshot) = length nodes ∧
  NodeData.id <$> Snapshot.initNodesData snapshot = NodeProps.id <$> nodes ∧
  ∀ k node, nodes !! k = Some node →
    ∃ offsets, Snapshot.initNodesOffsets snapshot !! k = Some offsets ∧
      length (NodeOffsets.inputs offsets) = NodeProps.inputs node ∧
      length (NodeOffsets.outputs offsets) = NodeProps.outputs node.
Proof.
  intros (graph & -> & _)%convertToLayeredGraph_inv. simpl.
  rewrite length_fmap. unfold initNodesOffsets, initNodesData.
  rewrite length_fmap. repeat split.
  - rewrite <- list_fmap_compose. done.
  - intros k node Hk. rewrite list_lookup_fmap, Hk. simpl.
    eexists; split; [done|]. simpl. by rewrite !length_fmap, !length_seq.
Qed.

(** X3: the record of a node copies id, payload and port counts of the
    host node at the same ordinal, and its color is the host's when that
    is a non-empty string and "white" otherwise: never empty. *)
Theorem convertToLayeredGraph_node_record
    layout nodes edges snapshot warnings k node :
  convertToLayeredGraph layout nodes edges = Some (snapshot, warnings) →
  nodes !! k = Some node →
  ∃ nodeData, Snapshot.initNodesData snapshot !! k = Some nodeData ∧
    NodeData.id nodeData = NodeProps.id node ∧
    NodeData.data nodeData = NodeProps.data node ∧
    NodeData.inputs nodeData = NodeProps.inputs node ∧
    NodeData.outputs nodeData = NodeProps.outputs node ∧
    NodeData.color nodeData ≠ "" ∧
    (∀ c, NodeProps.color node = Some c → c ≠ "" → NodeData.color nodeData = c) ∧
    (NodeProps.color node = None ∨ NodeProps.color node = Some "" →
       NodeData.color nodeData = "white").
Proof.
  intros (graph & -> & _)%convertToLayeredGraph_inv Hk. simpl.
  unfold initNodesData. rewrite list_lookup_fmap, Hk. simpl.
  eexists; split; [done|]. simpl. repeat split.
  - destruct (NodeProps.color node) as [c|]; [|done]. by case_bool_decide.
  - intros c -> Hc. by rewrite bool_decide_eq_false_2.
  - intros [->| ->]; done.
Qed.

(** X4: the adjacency of a node record is exact: an id is in [edgesIn]
    (in [edgesOut]) if and only if it is the id of a host edge whose
    target (source) is the id of the node. *)
Theorem convertToLayeredGraph_adjacency
    layout nodes edges snapshot warnings k nodeData edgeId :
  convertToLayeredGraph layout nodes edges = Some (snapshot, warnings) →
  Snapshot.initNodesData snapshot !! k = Some nodeData →
  (edgeId ∈ NodeData.edgesIn nodeData ↔
     ∃ edge, edge ∈ edges ∧ EdgeProps.id edge = edgeId
             ∧ EdgeProps.targetNode edge = NodeData.id nodeData) ∧
  (edgeId ∈ NodeData.edgesOut nodeData ↔
     ∃ edge, edge ∈ edges ∧ EdgeProps.id edge = edgeId
             ∧ EdgeProps.sourceNode edge = NodeData.id nodeData).
Proof.
  intros (graph & -> & _)%convertToLayeredGraph_inv. simpl.
  unfold initNodesData. rewrite list_lookup_fmap.
  intros (node & Hnode & ->)%fmap_Some. simpl.
  split; rewrite list_elem_of_fmap; split.
  - intros (edge & -> & [Ht Hin]%list_elem_of_filter). eauto.
  - intros (edge & Hin & <- & Ht). exists edge. split; [done|].
    by apply list_elem_of_filter.
  - intros (edge & -> & [Hs Hin]%list_elem_of_filter). eauto.
  - intros (edge & Hin & <- & Hs). exists edge. split; [done|].
    by apply list_elem_of_filter.
Qed.

(** *** Warnings and endpoint positions *)

(** X5: the warnings of a build are exactly one per edge with a missing
    endpoint, in the order of the host's edges; the layout has no part in
    them. *)
Theorem convertToLayeredGraph_warnings layout nodes edges snapshot warnings :
  convertToLayeredGraph layout nodes edges = Some (snapshot, warnings) →
  warnings = warningFor nodes <$> filter (dangling nodes) edges.
Proof.
  intros (graph & _ & ->)%convertToLayeredGraph_inv.
  unfold initEdgesPositions. by rewrite initEdgesPositions_fold_warnings.
Qed.

Lemma initEdgesPositions_fold_is_Some nodes edges acc key :
  is_Some (fst (fold_left (edgePositionStep nodes) edges acc) !! key) ↔
    is_Some (fst acc !! key)
    ∨ ∃ edge, edge ∈ edges ∧ EdgeProps.id edge = key ∧ ¬ dangling nodes edge.
Proof.
  revert acc. induction edges as [|e edges IH]; intros acc.
  - cbn [fold_left]. split; [by left|].
    intros [H|(edge & Hin & _)]; [done|]. by apply elem_of_nil in Hin.
  - cbn [fold_left]. rewrite IH. clear IH.
    destruct (decide (dangling nodes e)) as [Hd|Hd].
    + rewrite edgePositionStep_dangling by done. simpl. split.
      * intros [H|(edge & Hin & Hid & Hnd)]; [by left|].
        right. exists edge. split; [by apply list_elem_of_further|done].
      * intros [H|(edge & Hin & Hid & Hnd)]; [by left|].
        apply elem_of_cons in Hin as [->|Hin]; [done|]. right. eauto.
    + destruct (not_dangling nodes e Hd) as (s & t & Hs & Ht).
      rewrite (edgePositionStep_resolved _ _ _ s t Hs Ht). simpl. split.
      * intros [H|(edge & Hin & Hid & Hnd)].
        -- destruct (decide (EdgeProps.id e = key)) as [Heq|Hne].
           ++ right. exists e. split; [apply list_elem_of_here|done].
           ++ left. by rewrite lookup_insert_ne in H.
        -- right. exists edge. split; [by apply list_elem_of_further|done].
      * intros [H|(edge & Hin & Hid & Hnd)].
        -- left. destruct (decide (EdgeProps.id e = key)) as [<-|Hne].
           ++ rewrite lookup_insert_eq. eauto.
           ++ by rewrite lookup_insert_ne.
        -- apply elem_of_cons in Hin as [->|Hin]; [|right; eauto].
           left. rewrite <- Hid, lookup_insert_eq. eauto.
Qed.

(** X6: an id has endpoint coordinates in the snapshot if and only if
    some host edge with that id has both its endpoints among the nodes. *)
Theorem convertToLayeredGraph_positions_domain
    layout nodes edges snapshot warnings key :
  convertToLayeredGraph layout nodes edges = Some (snapshot, warnings) →
  is_Some (Snapshot.initEdgesPositions snapshot !! key) ↔
    ∃ edge, edge ∈ edges ∧ EdgeProps.id edge = key ∧ ¬ dangling nodes edge.
Proof.
  intros (graph & -> & _)%convertToLayeredGraph_inv. simpl.
  unfold initEdgesPositions. rewrite initEdgesPositions_fold_is_Some. simpl.
  rewrite lookup_empty. split; [|by right].
  intros [[? H]|H]; done.
Qed.

Lemma initEdgesPositions_fold_other nodes edges acc key :
  key ∉ EdgeProps.id <$> edges →
  fst (fold_left (edgePositionStep nodes) edges acc) !! key = fst acc !! key.
Proof.
  intros Hout. apply initEdgesPositions_fold_dangling.
  intros e Hin Heq. exfalso. apply Hout. rewrite <- Heq.
  by apply list_elem_of_fmap_2.
Qed.

(** X7: for an edge with both endpoints among the nodes (edge ids being
    unique), the provisional endpoints are computed from the host-supplied
    positions of the first nodes with those ids: the source corner moved
    by (200, -10) and the target corner moved by (0, -10). *)
Theorem convertToLayeredGraph_resolved_edge
    layout nodes edges snapshot warnings edge s t :
  convertToLayeredGraph layout nodes edges = Some (snapshot, warnings) →
  NoDup (EdgeProps.id <$> edges) →
  edge ∈ edges →
  findNode nodes (EdgeProps.sourceNode edge) = Some s →
  findNode nodes (EdgeProps.targetNode edge) = Some t →
  Snapshot.initEdgesPositions snapshot !! EdgeProps.id edge =
    Some (Vector.mk
            (Position.x (NodeProps.position s) + 200)%Z
            (Position.y (NodeProps.position s) - 10)%Z
            (Position.x (NodeProps.position t))
            (Position.y (NodeProps.position t) - 10)%Z)
  ∧ warningFor nodes edge ∉ warnings.
Proof.
  intros (graph & -> & ->)%convertToLayeredGraph_inv Hnd Hin Hs Ht. simpl.
  split.
  - unfold initEdgesPositions. generalize (∅ : gmap string Vector.t, @nil Warning.t).
    induction edges as [|e edges IH]; intros acc.
    + by apply elem_of_nil in Hin.
    + cbn [fold_left]. rewrite fmap_cons in Hnd.
      apply NoDup_cons in Hnd as [Hfresh Hnd].
      apply elem_of_cons in Hin as [<-|Hin].
      * rewrite initEdgesPositions_fold_other by done.
        rewrite (edgePositionStep_resolved _ _ _ s t Hs Ht). simpl.
        apply lookup_insert_eq.
      * by apply IH.
  - unfold initEdgesPositions. rewrite initEdgesPositions_fold_warnings.
    simpl. intros (e & Heq & [Hd _]%list_elem_of_filter)%list_elem_of_fmap.
    assert (EdgeProps.id e = EdgeProps.id edge) as Hid.
    { by apply (f_equal Warning.edge) in Heq. }
    assert (Hse : EdgeProps.sourceNode e = EdgeProps.sourceNode edge).
    { by apply (f_equal Warning.sourceNode) in Heq. }
    assert (Hte : EdgeProps.targetNode e = EdgeProps.targetNode edge).
    { by apply (f_equal Warning.targetNode) in Heq. }
    destruct Hd as [Hd|Hd]; [rewrite Hse, Hs in Hd|rewrite Hte, Ht in Hd]; done.
Qed.

(** *** The keys of the edge maps *)

Lemma initEdgesNodes_fold_last edges (acc : gmap string EdgeNode.t) key :
  fold_left
    (λ acc edge,
       <[EdgeProps.id edge :=
           EdgeNode.mk (EdgeProps.sourceNode edge) (EdgeProps.sourceOutput edge)
                       (EdgeProps.targetNode edge) (EdgeProps.targetInput edge)]> acc)
    edges acc !! key =
  match last (filter (λ edge, EdgeProps.id edge = key) edges) with
  | Some edge => Some (edgeNodeOf edge)
  | None => acc !! key
  end.
Proof.
  revert acc. induction edges as [|e edges IH] using rev_ind; intros acc.
  - done.
  - rewrite fold_left_app. cbn [fold_left]. rewrite filter_app.
    destruct (decide (EdgeProps.id e = key)) as [Heq|Hne].
    + rewrite (filter_cons_True _ e []) by done. rewrite filter_nil, last_snoc.
      rewrite <- Heq. apply lookup_insert_eq.
    + rewrite (filter_cons_False _ e []) by done.
      rewrite filter_nil, app_nil_r, lookup_insert_ne by done. apply IH.
Qed.

Lemma convertToLayeredGraph_edge_maps_aux
    layout nodes edges snapshot warnings key :
  convertToLayeredGraph layout nodes edges = Some (snapshot, warnings) →
  Snapshot.initEdgesNodes snapshot !! key =
    edgeNodeOf <$> last (filter (λ edge, EdgeProps.id edge = key) edges)
  ∧ Snapshot.initEdgesActives snapshot !! key =
      (if bool_decide (key ∈ EdgeProps.id <$> edges) then Some false else None)
  ∧ (is_Some (Snapshot.initEdgesNodes snapshot !! key)
       ↔ key ∈ EdgeProps.id <$> edges).
Proof.
  intros (graph & -> & _)%convertToLayeredGraph_inv. simpl.
  assert (Hnodes : initEdgesNodes edges !! key =
    edgeNodeOf <$> last (filter (λ edge, EdgeProps.id edge = key) edges)).
  { unfold initEdgesNodes. rewrite initEdgesNodes_fold_last.
    by destruct (last _). }
  split; [done|]. split.
  - unfold initEdgesActives. by rewrite initEdgesActives_fold.
  - rewrite Hnodes, fmap_is_Some. split.
    + intros [e He]. apply last_Some_elem_of, list_elem_of_filter in He as [<- Hin].
      by apply list_elem_of_fmap_2.
    + intros (e & -> & Hin)%list_elem_of_fmap.
      destruct (last (filter (λ edge, EdgeProps.id edge = EdgeProps.id e) edges))
        as [e'|] eqn:Hlast; [eauto|].
      apply last_None in Hlast.
      assert (e ∈ filter (λ edge, EdgeProps.id edge = EdgeProps.id e) edges)
        as Hf by by apply list_elem_of_filter.
      rewrite Hlast in Hf. by apply elem_of_nil in Hf.
Qed.

(** X8: the endpoint map and the flag map of the snapshot have exactly
    the ids of the host's edges as keys.  Every flag is false, and when
    several host edges share an id the endpoints recorded are those of
    the last one. *)
Theorem convertToLayeredGraph_edge_maps
    layout nodes edges snapshot warnings key :
  convertToLayeredGraph layout nodes edges = Some (snapshot, warnings) →
  Snapshot.initEdgesNodes snapshot !! key =
    edgeNodeOf <$> last (filter (λ edge, EdgeProps.id edge = key) edges)
  ∧ Snapshot.initEdgesActives snapshot !! key =
      (if bool_decide (key ∈ EdgeProps.id <$> edges) then Some false else None)
  ∧ (is_Some (Snapshot.initEdgesNodes snapshot !! key)
       ↔ key ∈ EdgeProps.id <$> edges).
Proof. apply convertToLayeredGraph_edge_maps_aux. Qed.

End SnapshotShape.

Lemma convertToLayeredGraph_shape_witness :
  ∃ snapshot warnings,
    convertToLayeredGraph rowLayout coloredNodes mixedEdges
      = Some (snapshot, warnings) ∧
    length (Snapshot.initNodesPositions snapshot) = 3 ∧
    length (Snapshot.initNodesOffsets snapshot) = 3 ∧
    NodeData.id <$> Snapshot.initNodesData snapshot
      = ["node-1"; "node-2"; "node-3"].
Proof.
  destruct (convertToLayeredGraph rowLayout coloredNodes mixedEdges)
    as [[snapshot warnings]|] eqn:Hc; [|by vm_compute in Hc].
  exists snapshot, warnings. split; [done|].
  destruct (convertToLayeredGraph_shape
              rowLayout coloredNodes mixedEdges snapshot warnings Hc)
    as (H1 & H2 & H3 & _).
  done.
Defined.

Lemma convertToLayeredGraph_node_record_witness :
  ∃ snapshot warnings nodeData,
    convertToLayeredGraph rowLayout coloredNodes mixedEdges
      = Some (snapshot, warnings) ∧
    Snapshot.initNodesData snapshot !! 1 = Some nodeData ∧
    NodeData.id nodeData = "node-2" ∧
    NodeData.color nodeData = "white".
Proof.
  destruct (convertToLayeredGraph rowLayout coloredNodes mixedEdges)
    as [[snapshot warnings]|] eqn:Hc; [|by vm_compute in Hc].
  destruct (convertToLayeredGraph_node_record
              rowLayout coloredNodes mixedEdges snapshot warnings 1
              (NodeProps.mk "node-2" (Position.mk 400 50) "second" 1 1
                 (Some "") None) Hc eq_refl)
    as (nodeData & Hlook & Hid & _ & _ & _ & _ & _ & Hwhite).
  exists snapshot, warnings, nodeData. repeat split; try done.
  apply Hwhite. by right.
Defined.

Lemma convertToLayeredGraph_adjacency_witness :
  ∃ snapshot warnings nodeData,
    convertToLayeredGraph rowLayout coloredNodes mixedEdges
      = Some (snapshot, warnings) ∧
    Snapshot.initNodesData snapshot !! 0 = Some nodeData ∧
    ("edge_node-1:1_node-9:0" ∈ NodeData.edgesOut nodeData ↔
       ∃ edge, edge ∈ mixedEdges
               ∧ EdgeProps.id edge = "edge_node-1:1_node-9:0"
               ∧ EdgeProps.sourceNode edge = NodeData.id nodeData).
Proof.
  destruct (convertToLayeredGraph rowLayout coloredNodes mixedEdges)
    as [[snapshot warnings]|] eqn:Hc; [|by vm_compute in Hc].
  destruct (Snapshot.initNodesData snapshot !! 0) as [nodeData|] eqn:Hk;
    [|vm_compute in Hc; injection Hc as <- _; by vm_compute in Hk].
  exists snapshot, warnings, nodeData. split; [done|]. split; [done|].
  apply (convertToLayeredGraph_adjacency
           rowLayout coloredNodes mixedEdges snapshot warnings 0 nodeData
           "edge_node-1:1_node-9:0" Hc Hk).
Defined.

Lemma convertToLayeredGraph_warnings_witness :
  ∃ snapshot warnings,
    convertToLayeredGraph rowLayout coloredNodes mixedEdges
      = Some (snapshot, warnings) ∧
    warnings = warningFor coloredNodes <$> filter (dangling coloredNodes) mixedEdges.
Proof.
  destruct (convertToLayeredGraph rowLayout coloredNodes mixedEdges)
    as [[snapshot warnings]|] eqn:Hc; [|by vm_compute in Hc].
  exists snapshot, warnings. split; [done|].
  apply (convertToLayeredGraph_warnings
           rowLayout coloredNodes mixedEdges snapshot warnings Hc).
Defined.

Lemma convertToLayeredGraph_positions_domain_witness :
  ∃ snapshot warnings,
    convertToLayeredGraph rowLayout coloredNodes mixedEdges
      = Some (snapshot, warnings) ∧
    (is_Some (Snapshot.initEdgesPositions snapshot !! "edge_node-1:0_node-2:0") ↔
       ∃ edge, edge ∈ mixedEdges
               ∧ EdgeProps.id edge = "edge_node-1:0_node-2:0"
               ∧ ¬ dangling coloredNodes edge).
Proof.
  destruct (convertToLayeredGraph rowLayout coloredNodes mixedEdges)
    as [[snapshot warnings]|] eqn:Hc; [|by vm_compute in Hc].
  exists snapshot, warnings. split; [done|].
  apply (convertToLayeredGraph_positions_domain
           rowLayout coloredNodes mixedEdges snapshot warnings
           "edge_node-1:0_node-2:0" Hc).
Defined.

Lemma convertToLayeredGraph_resolved_edge_witness :
  ∃ snapshot warnings,
    convertToLayeredGraph rowLayout coloredNodes mixedEdges
      = Some (snapshot, warnings) ∧
    Snapshot.initEdgesPositions snapshot !! "edge_node-1:0_node-2:0"
      = Some (Vector.mk 300 90 400 40).
Proof.
  destruct (convertToLayeredGraph rowLayout coloredNodes mixedEdges)
    as [[snapshot warnings]|] eqn:Hc; [|by vm_compute in Hc].
  exists snapshot, warnings. split; [done|].
  apply (convertToLayeredGraph_resolved_edge
           rowLayout coloredNodes mixedEdges snapshot warnings edge12
           (NodeProps.mk "node-1" (Position.mk 100 100) "first" 1 2
              (Some "teal") None)
           (NodeProps.mk "node-2" (Position.mk 400 50) "second" 1 1
              (Some "") None) Hc).
  - compute_done.
  - apply list_elem_of_here.
  - reflexivity.
  - reflexivity.
Defined.

Lemma convertToLayeredGraph_edge_maps_witness :
  ∃ snapshot warnings,
    convertToLayeredGraph rowLayout coloredNodes [edge12; ghostEdge; edge12]
      = Some (snapshot, warnings) ∧
    Snapshot.initEdgesNodes snapshot !! "edge_node-1:0_node-2:0"
      = Some (EdgeNode.mk "node-1" 0 "node-2" 0) ∧
    Snapshot.initEdgesActives snapshot !! "edge_node-8:0_node-9:0" = Some false ∧
    Snapshot.initEdgesActives snapshot !! "edge_node-1:1_node-3:0" = None.
Proof.
  destruct (convertToLayeredGraph rowLayout coloredNodes [edge12; ghostEdge; edge12])
    as [[snapshot warnings]|] eqn:Hc; [|by vm_compute in Hc].
  exists snapshot, warnings. split; [done|].
  destruct (convertToLayeredGraph_edge_maps rowLayout coloredNodes
              [edge12; ghostEdge; edge12] snapshot warnings
              "edge_node-1:0_node-2:0" Hc) as (H1 & _ & _).
  destruct (convertToLayeredGraph_edge_maps rowLayout coloredNodes
              [edge12; ghostEdge; edge12] snapshot warnings
              "edge_node-8:0_node-9:0" Hc) as (_ & H2 & _).
  destruct (convertToLayeredGraph_edge_maps rowLayout coloredNodes
              [edge12; ghostEdge; edge12] snapshot warnings
              "edge_node-1:1_node-3:0" Hc) as (_ & H3 & _).
  repeat split; [exact H1|exact H2|exact H3].
Defined.

(** ** An invariant of the engine state *)

Section Invariant.
Context {Data : Type}.
Implicit Types (st : State.t Data).

Lemma mapM_perform {A} (e : A → Effect Data) (l : list A) st :
  ∃ units, mapM (λ a, perform (e a)) l st = (e <$> l, Returned units st).
Proof.
  induction l as [|a l [units IH]]; [by eexists|].
  exists (() :: units). cbn [mapM]. rewrite bind_perform, bind_run, IH.
  simpl. by rewrite app_nil_r.
Qed.

Lemma bind_mapM_perform {A B} (e : A → Effect Data) (l : list A)
    (f : list unit → Handler Data B) st :
  ∃ units, (mapM (λ a, perform (e a)) l ≫= f) st =
    ((e <$> l) ++ fst (f units st), snd (f units st)).
Proof.
  destruct (mapM_perform e l st) as [units H].
  exists units. by rewrite bind_run, H.
Qed.

(** The setters of a rebuild, run in one step. *)
Lemma install_snapshot (snapshot : Snapshot.t Data) (ref : nat) st :
  (setEdgesNodes (Snapshot.initEdgesNodes snapshot);;
   setEdgesPositions (Snapshot.initEdgesPositions snapshot);;
   setEdgesActives (Snapshot.initEdgesActives snapshot);;
   setNodesPositions (Snapshot.initNodesPositions snapshot);;
   setNodesData (Snapshot.initNodesData snapshot);;
   setNodesOffsets (Snapshot.initNodesOffsets snapshot);;
   setPrevEdgesRef ref) st =
  ([], Returned ()
         (State.mk
            (Snapshot.initEdgesNodes snapshot)
            (Snapshot.initEdgesPositions snapshot)
            (Snapshot.initEdgesActives snapshot)
            (Snapshot.initNodesPositions snapshot)
            (Snapshot.initNodesData snapshot)
            (Snapshot.initNodesOffsets snapshot)
            (State.clickedDelta st) (State.newEdge st) ref)).
Proof. reflexivity. Qed.

(** The write in place of a position keeps the length of the array; an
    ordinal reads the new position when it holds the object written, and
    its own otherwise. *)
Lemma length_writePosition (nodesData : list (NodeData.t Data)) nodeIndex p prev :
  length (writePosition nodesData nodeIndex p prev) = length prev.
Proof. apply length_imap. Qed.

Lemma writePosition_lookup (nodesData : list (NodeData.t Data)) nodeIndex p prev k :
  writePosition nodesData nodeIndex p prev !! k =
    (λ old, if bool_decide (sharesPosition nodesData nodeIndex k) then p else old)
      <$> prev !! k.
Proof. apply list_lookup_imap. Qed.

Lemma activateAll_is_Some edgeIds (actives : gmap string bool) key :
  is_Some (activateAll edgeIds actives !! key) ↔
    key ∈ edgeIds ∨ is_Some (actives !! key).
Proof.
  rewrite activateAll_lookup. case_bool_decide as Hin.
  - split; [by left|eauto].
  - split; [by right|]. by intros [?|?].
Qed.

Lemma elem_of_alter {A} (f : A → A) (l : list A) i x :
  x ∈ alter f i l → x ∈ l ∨ ∃ y, l !! i = Some y ∧ x = f y.
Proof.
  intros [j Hj]%list_elem_of_lookup_1.
  destruct (decide (i = j)) as [->|Hne].
  - rewrite list_lookup_alter_eq in Hj.
    apply fmap_Some in Hj as (y & Hy & ->). right. eauto.
  - rewrite list_lookup_alter_ne in Hj by done.
    left. by eapply list_elem_of_lookup_2.
Qed.

(** The snapshot of the builder is well formed. *)
Lemma snapshot_wellFormed (layout : Layout) nodes edges snapshot warnings
    delta pending ref :
  convertToLayeredGraph layout nodes edges = Some (snapshot, warnings) →
  wellFormed
    (State.mk (Data := Data)
       (Snapshot.initEdgesNodes snapshot)
       (Snapshot.initEdgesPositions snapshot)
       (Snapshot.initEdgesActives snapshot)
       (Snapshot.initNodesPositions snapshot)
       (Snapshot.initNodesData snapshot)
       (Snapshot.initNodesOffsets snapshot)
       delta pending ref).
Proof.
  intros Hc.
  assert (Hkeys : ∀ key, key ∈ EdgeProps.id <$> edges →
    is_Some (Snapshot.initEdgesNodes snapshot !! key)
    ∧ is_Some (Snapshot.initEdgesActives snapshot !! key)).
  { intros key Hkey.
    destruct (convertToLayeredGraph_edge_maps_aux layout nodes edges
                snapshot warnings key Hc) as (_ & Hflag & Hsome).
    split; [by apply Hsome|]. rewrite Hflag.
    rewrite bool_decide_eq_true_2 by done. eauto. }
  assert (Hflags : ∀ key, is_Some (Snapshot.initEdgesActives snapshot !! key) →
    key ∈ EdgeProps.id <$> edges).
  { intros key [b Hb].
    destruct (convertToLayeredGraph_edge_maps_aux layout nodes edges
                snapshot warnings key Hc) as (_ & Hflag & _).
    rewrite Hflag in Hb. by case_bool_decide. }
  apply convertToLayeredGraph_inv in Hc as (graph & Hsnap & _).
  split; [|split].
  - unfold sameLengths. simpl. rewrite Hsnap. simpl.
    unfold initNodesData, initNodesOffsets. by rewrite !length_fmap.
  - intros node edgeId Hnode Hid. simpl in *. apply Hkeys.
    rewrite Hsnap in Hnode. simpl in Hnode. unfold initNodesData in Hnode.
    apply list_elem_of_fmap in Hnode as (n & -> & _). simpl in Hid.
    destruct Hid as [Hid|Hid];
      apply list_elem_of_fmap in Hid as (e & -> & [_ He]%list_elem_of_filter);
      by apply list_elem_of_fmap_2.
  - intros edgeId He. simpl in *. by apply Hkeys, Hflags.
Qed.

(** A state that only extends the maps of a well-formed state, and whose
    adjacency ids are old ones or known ones, is well formed. *)
Lemma wellFormed_mono st st' :
  wellFormed st →
  length (State.nodesPositions st') = length (State.nodesData st') →
  length (State.nodesOffsets st') = length (State.nodesData st') →
  (∀ k, is_Some (State.edgesNodes st !! k) →
        is_Some (State.edgesNodes st' !! k)) →
  (∀ k, is_Some (State.edgesActives st !! k) →
        is_Some (State.edgesActives st' !! k)) →
  (∀ k, is_Some (State.edgesActives st' !! k) →
        is_Some (State.edgesActives st !! k)
        ∨ is_Some (State.edgesNodes st' !! k)) →
  (∀ node edgeId, node ∈ State.nodesData st' →
     edgeId ∈ NodeData.edgesIn node ∨ edgeId ∈ NodeData.edgesOut node →
     (∃ node0, node0 ∈ State.nodesData st
        ∧ (edgeId ∈ NodeData.edgesIn node0 ∨ edgeId ∈ NodeData.edgesOut node0))
     ∨ (is_Some (State.edgesNodes st' !! edgeId)
        ∧ is_Some (State.edgesActives st' !! edgeId))) →
  wellFormed st'.
Proof.
  intros (Hlen & Hadj & Hflags) Hpos Hoff Hnodes Hact Hback Hids.
  split; [done|]. split.
  - intros node edgeId Hnode Hid.
    destruct (Hids node edgeId Hnode Hid) as [(node0 & Hnode0 & Hid0)|H]; [|done].
    destruct (Hadj node0 edgeId Hnode0 Hid0). split; auto.
  - intros edgeId He. destruct (Hback edgeId He) as [H|H]; [|done].
    by apply Hnodes, Hflags.
Qed.

(** A state with the node arrays and edge maps of a well-formed state. *)
Lemma wellFormed_same st st' :
  wellFormed st →
  State.edgesNodes st' = State.edgesNodes st →
  State.edgesActives st' = State.edgesActives st →
  length (State.nodesPositions st') = length (State.nodesPositions st) →
  State.nodesData st' = State.nodesData st →
  length (State.nodesOffsets st') = length (State.nodesOffsets st) →
  wellFormed st'.
Proof.
  intros Hwf Hn Ha Hp Hd Ho. pose proof Hwf as ((Hl1 & Hl2) & _ & _).
  apply (wellFormed_mono st st' Hwf).
  - by rewrite Hp, Hd.
  - by rewrite Ho, Hd.
  - intros k. by rewrite Hn.
  - intros k. by rewrite Ha.
  - intros k. rewrite Ha. by left.
  - intros node edgeId. rewrite Hd. intros Hin Hid. left. eauto.
Qed.

(** Finishing a branch of a run whose state differs from the start only in
    fields the invariant does not read, or by an in-place array write. *)
Ltac same_state :=
  unfold run, stateOf; simpl;
  first
    [ assumption
    | eapply wellFormed_same; [eassumption|simpl..];
      rewrite ?length_insert, ?length_writePosition; reflexivity ].

Lemma handleOnNodePress_wellFormed st deltaX deltaY :
  wellFormed st → wellFormed (run (handleOnNodePress deltaX deltaY) st).
Proof. intros Hwf. same_state. Qed.

Lemma handleOnMouseUp_wellFormed st :
  wellFormed st → wellFormed (run handleOnMouseUp st).
Proof. intros Hwf. same_state. Qed.

Lemma handleOnMouseMove_wellFormed st x y :
  wellFormed st → wellFormed (run (handleOnMouseMove x y) st).
Proof.
  intros Hwf. unfold run, handleOnMouseMove. run_handler.
  destruct (State.newEdge st); run_handler; same_state.
Qed.

Lemma handleOnNodeDelete_wellFormed st props nodeId :
  wellFormed st → wellFormed (run (handleOnNodeDelete props nodeId) st).
Proof. intros Hwf. same_state. Qed.

Lemma handleOnOutputMouseDown_wellFormed st nodeIndex outputIndex :
  wellFormed st →
  wellFormed (run (handleOnOutputMouseDown nodeIndex outputIndex) st).
Proof.
  intros Hwf. unfold run, handleOnOutputMouseDown. run_handler.
  repeat
    match goal with
    | |- context [deref ?v ≫= _] => destruct v eqn:?; run_handler
    end; same_state.
Qed.

Lemma handleOnNodeMove_wellFormed st nodeIndex x y :
  wellFormed st → wellFormed (run (handleOnNodeMove nodeIndex x y) st).
Proof.
  intros Hwf. unfold run, handleOnNodeMove. run_handler.
  repeat
    match goal with
    | |- context [deref ?v ≫= _] => destruct v eqn:?; run_handler
    end; same_state.
Qed.

Lemma handleOnNodeMount_wellFormed st nodeIndex inputs outputs :
  wellFormed st →
  wellFormed (run (handleOnNodeMount nodeIndex inputs outputs) st).
Proof.
  intros Hwf. unfold run, handleOnNodeMount. run_handler.
  destruct (State.nodesOffsets st !! nodeIndex); run_handler; [|same_state].
  simpl.
  destruct (State.nodesData st !! nodeIndex) as [node|] eqn:Hnode;
    run_handler; [|same_state].
  simpl.
  assert (Hactivated :
    wellFormed
      (State.mk (State.edgesNodes st) (State.edgesPositions st)
         (activateAll (NodeData.edgesOut node)
            (activateAll (NodeData.edgesIn node) (State.edgesActives st)))
         (State.nodesPositions st) (State.nodesData st)
         (<[nodeIndex := NodeOffsets.mk inputs outputs]> (State.nodesOffsets st))
         (State.clickedDelta st) (State.newEdge st) (State.prevEdgesRef st))).
  { pose proof Hwf as ((Hl1 & Hl2) & Hadj & _).
    apply (wellFormed_mono st); simpl; [done|done|by rewrite length_insert|done|..].
    - intros k Hk. rewrite !activateAll_is_Some. auto.
    - intros k. rewrite !activateAll_is_Some. intros [Hk|[Hk|Hk]]; [| |by left].
      + right. apply (Hadj node k); [by eapply list_elem_of_lookup_2|by right].
      + right. apply (Hadj node k); [by eapply list_elem_of_lookup_2|by left].
    - intros n edgeId Hn Hid. left. eauto. }
  match goal with
  | |- context [deref ?v ≫= _] => destruct v eqn:?; run_handler
  end.
  - unfold stateOf. simpl. eapply wellFormed_same; [exact Hactivated|done..].
  - unfold stateOf. simpl. exact Hactivated.
Qed.

Lemma createEdge_wellFormed st sourceIndex sourceOutput nodeIndex inputIndex
    sourceNodeId targetNodeId edgeId :
  wellFormed st →
  wellFormed
    (stateOf (createEdge sourceIndex sourceOutput nodeIndex inputIndex
                sourceNodeId targetNodeId edgeId st)).
Proof.
  intros Hwf. unfold createEdge. run_handler.
  repeat
    match goal with
    | |- context [deref ?v ≫= _] =>
        destruct v eqn:?; run_handler; [|by unfold stateOf]
    end.
  unfold stateOf. simpl.
  pose proof Hwf as ((Hl1 & Hl2) & Hadj & _).
  apply (wellFormed_mono st); simpl.
  - done.
  - by rewrite !length_alter.
  - by rewrite !length_alter.
  - intros k Hk. apply lookup_insert_is_Some'. by right.
  - intros k Hk. apply lookup_insert_is_Some'. by right.
  - intros k [->|Hk]%lookup_insert_is_Some'; [|by left].
    right. rewrite lookup_insert_eq. eauto.
  - intros node id Hnode Hid.
    assert (Hnew : is_Some
      ((<[edgeId := EdgeNode.mk sourceNodeId sourceOutput targetNodeId inputIndex]>
          (State.edgesNodes st)) !! edgeId)
      ∧ is_Some ((<[edgeId := true]> (State.edgesActives st)) !! edgeId)).
    { rewrite !lookup_insert_eq. eauto. }
    apply elem_of_alter in Hnode as [Hnode|(y & Hy & ->)].
    + apply elem_of_alter in Hnode as [Hnode|(z & Hz & ->)]; [left; eauto|].
      simpl in Hid. destruct Hid as [Hid|Hid].
      * left. exists z. split; [by eapply list_elem_of_lookup_2|by left].
      * apply elem_of_app in Hid as [Hid|Hid%list_elem_of_singleton].
        -- left. exists z. split; [by eapply list_elem_of_lookup_2|by right].
        -- subst id. by right.
    + apply list_elem_of_lookup_2 in Hy.
      assert (Hold : ∀ id', id' ∈ NodeData.edgesIn y ∨ id' ∈ NodeData.edgesOut y →
        id' = edgeId
        ∨ ∃ node0, node0 ∈ State.nodesData st
            ∧ (id' ∈ NodeData.edgesIn node0 ∨ id' ∈ NodeData.edgesOut node0)).
      { intros id' Hid'.
        apply elem_of_alter in Hy as [Hy|(z & Hz & ->)]; [right; eauto|].
        simpl in Hid'. destruct Hid' as [Hid'|Hid'].
        - right. exists z. split; [by eapply list_elem_of_lookup_2|by left].
        - apply elem_of_app in Hid' as [Hid'|Hid'%list_elem_of_singleton].
          + right. exists z. split; [by eapply list_elem_of_lookup_2|by right].
          + by left. }
      simpl in Hid. destruct Hid as [Hid|Hid].
      * apply elem_of_app in Hid as [Hid|Hid%list_elem_of_singleton].
        -- destruct (Hold id (or_introl Hid)) as [->|H]; [by right|by left].
        -- subst id. by right.
      * destruct (Hold id (or_intror Hid)) as [->|H]; [by right|by left].
Qed.

Lemma handleOnInputMouseUp_wellFormed st nodeIndex inputIndex :
  wellFormed st →
  wellFormed (run (handleOnInputMouseUp nodeIndex inputIndex) st).
Proof.
  intros Hwf. unfold run, handleOnInputMouseUp. run_handler.
  case_bool_decide as Hself; [run_handler; same_state|].
  destruct (State.nodesData st
              !! from_option NewEdge.sourceNode 0 (State.newEdge st))
    as [sourceData|]; run_handler; [|same_state].
  destruct (State.nodesData st !! nodeIndex) as [targetData|]; run_handler;
    [|same_state].
  destruct (State.newEdge st) as [pending|]; [|same_state].
  destruct (_ || _); [run_handler; same_state|].
  rewrite bind_run.
  pose proof (createEdge_wellFormed st
    (from_option NewEdge.sourceNode 0 (Some pending))
    (from_option NewEdge.sourceOutput 0 (Some pending)) nodeIndex inputIndex
    (NodeData.id sourceData) (NodeData.id targetData)
    (getEdgeId (NodeData.id sourceData)
       (from_option NewEdge.sourceOutput 0 (Some pending))
       (NodeData.id targetData) inputIndex) Hwf) as Hcreated.
  destruct (createEdge _ _ _ _ _ _ _ st) as [effs [[] st'|st']];
    unfold stateOf in *; simpl in *; [|done].
  eapply wellFormed_same; [exact Hcreated|done..].
Qed.

Lemma handleOnDeleteEdge_wellFormed st edgeId :
  wellFormed st → wellFormed (run (handleOnDeleteEdge edgeId) st).
Proof.
  intros Hwf. unfold run, handleOnDeleteEdge. run_handler.
  destruct (State.edgesNodes st !! edgeId) as [edgeInfo|] eqn:Hinfo;
    run_handler; [|same_state].
  destruct (findIndex (State.nodesData st) (EdgeNode.inNodeId edgeInfo))
    as [targetIndex|]; run_handler; [|same_state].
  simpl.
  pose proof Hwf as ((Hl1 & Hl2) & Hadj & _).
  assert (Hin1 : ∀ y id', y ∈ alter
      (λ n : NodeData.t Data, NodeData.set_edgesIn
              (filter (λ elem, elem ≠ edgeId) (NodeData.edgesIn n)) n)
      targetIndex (State.nodesData st) →
    id' ∈ NodeData.edgesIn y ∨ id' ∈ NodeData.edgesOut y →
    ∃ node0, node0 ∈ State.nodesData st
      ∧ (id' ∈ NodeData.edgesIn node0 ∨ id' ∈ NodeData.edgesOut node0)).
  { intros y id' Hy Hidy.
    apply elem_of_alter in Hy as [Hy|(z & Hz & ->)]; [eauto|].
    apply list_elem_of_lookup_2 in Hz. exists z. split; [done|].
    simpl in Hidy. destruct Hidy as [H|H]; [left|by right].
    by apply list_elem_of_filter in H as [_ H]. }
  assert (Hstep1 :
    wellFormed
      (State.mk (State.edgesNodes st) (State.edgesPositions st)
         (State.edgesActives st) (State.nodesPositions st)
         (alter
            (λ n, NodeData.set_edgesIn
                    (filter (λ elem, elem ≠ edgeId) (NodeData.edgesIn n)) n)
            targetIndex (State.nodesData st))
         (State.nodesOffsets st) (State.clickedDelta st) (State.newEdge st)
         (State.prevEdgesRef st))).
  { apply (wellFormed_mono st); simpl;
      [done|by rewrite !length_alter|by rewrite !length_alter|done|done|..].
    - intros k Hk. by left.
    - intros node id' Hnode Hid. left. by apply (Hin1 node). }
  destruct (findIndex (State.nodesData st) (EdgeNode.outNodeId edgeInfo))
    as [sourceIndex|]; run_handler; [|unfold stateOf; simpl; exact Hstep1].
  simpl.
  assert (Hstep2 :
    wellFormed
      (State.mk (State.edgesNodes st) (State.edgesPositions st)
         (<[edgeId := false]> (State.edgesActives st))
         (State.nodesPositions st)
         (alter
            (λ n, NodeData.set_edgesOut
                    (filter (λ elem, elem ≠ edgeId) (NodeData.edgesOut n)) n)
            sourceIndex
            (alter
               (λ n, NodeData.set_edgesIn
                       (filter (λ elem, elem ≠ edgeId) (NodeData.edgesIn n)) n)
               targetIndex (State.nodesData st)))
         (State.nodesOffsets st) (State.clickedDelta st) (State.newEdge st)
         (State.prevEdgesRef st))).
  { apply (wellFormed_mono st); simpl;
      [done|by rewrite !length_alter|by rewrite !length_alter|done|..].
    - intros k Hk. apply lookup_insert_is_Some'. by right.
    - intros k [->|Hk]%lookup_insert_is_Some'; [|by left].
      right. rewrite Hinfo. eauto.
    - intros node id' Hnode Hid. left.
      apply elem_of_alter in Hnode as [Hnode|(y & Hy & ->)];
        [by apply (Hin1 node)|].
      apply list_elem_of_lookup_2 in Hy. apply (Hin1 y id' Hy).
      simpl in Hid. destruct Hid as [H|H]; [by left|right].
      by apply list_elem_of_filter in H as [_ H]. }
  match goal with
  | |- context [deref ?v ≫= _] => destruct v eqn:?; run_handler
  end; unfold stateOf; simpl; exact Hstep2.
Qed.

Lemma reconcile_wellFormed (layout : Layout) (props : Props.t Data) st :
  wellFormed st → wellFormed (run (reconcile layout props) st).
Proof.
  intros Hwf. unfold run, reconcile. repeat run_step.
  destruct (_ || _); [|same_state].
  destruct (convertToLayeredGraph layout (Props.nodes props)
              (EdgeArray.elems (Props.edges props)))
    as [[snapshot warnings]|] eqn:Hc; repeat run_step; [|same_state].
  match goal with
  | |- context [(mapM ?g ?l ≫= ?f) ?s] =>
      destruct (bind_mapM_perform (λ w, ConsoleWarn w) l f s) as [units ->]
  end.
  cbv beta. rewrite install_snapshot. unfold stateOf. simpl.
  by eapply snapshot_wellFormed.
Qed.

Lemma runEvents_wellFormed_aux
    (layout : Layout) (props : Props.t Data) st warnings events :
  FlowChart layout props = Some (st, warnings) →
  wellFormed (runEvents layout events st).
Proof.
  intros Hcreated.
  assert (Hwf : wellFormed st).
  { unfold FlowChart in Hcreated.
    destruct (convertToLayeredGraph layout (Props.nodes props)
                (EdgeArray.elems (Props.edges props)))
      as [[snapshot w]|] eqn:Hc; [|done].
    simpl in Hcreated. injection Hcreated as <- _.
    by eapply snapshot_wellFormed. }
  clear Hcreated. revert st Hwf. unfold runEvents.
  induction events as [|event events IH]; intros st Hwf; [done|].
  simpl. apply IH.
  destruct event; simpl.
  - by apply handleOnNodeMount_wellFormed.
  - by apply handleOnNodePress_wellFormed.
  - by apply handleOnNodeMove_wellFormed.
  - by apply handleOnNodeDelete_wellFormed.
  - by apply handleOnOutputMouseDown_wellFormed.
  - by apply handleOnInputMouseUp_wellFormed.
  - by apply handleOnMouseUp_wellFormed.
  - by apply handleOnMouseMove_wellFormed.
  - by apply handleOnDeleteEdge_wellFormed.
  - by apply reconcile_wellFormed.
Qed.

(** X9: from the creation of the component on, through any sequence of
    gestures, mounts and prop changes, whether the handlers return or
    throw, the engine state stays well formed: the position, record and
    anchor arrays have the same length, every id in the adjacency of a
    node is a key of the endpoint map and of the flag map, and every key
    of the flag map is a key of the endpoint map. *)
Theorem runEvents_wellFormed
    (layout : Layout) (props : Props.t Data) st warnings events :
  FlowChart layout props = Some (st, warnings) →
  wellFormed (runEvents layout events st).
Proof. apply runEvents_wellFormed_aux. Qed.

End Invariant.

(** ** The passes over the edges of a node *)

Section EdgeWrites.
Context {V : Type}.
Implicit Types (value : string → option (option V)) (next : gmap string V).

Lemma foldl_option_None {A B} (f : A → B → option A) (l : list B) :
  foldl (λ acc b, a ← acc; f a b) None l = None.
Proof. by induction l. Qed.

Lemma foldl_pointwise {A B} (f g : A → B → A) a (l : list B) :
  (∀ a b, f a b = g a b) → foldl f a l = foldl g a l.
Proof.
  intros Hfg. revert a. induction l as [|b l IH]; intros a; [done|].
  simpl. by rewrite Hfg, IH.
Qed.

Lemma writeAll_nil value next : writeAll value [] next = Some next.
Proof. done. Qed.

Lemma writeAll_cons value key keys next :
  writeAll value (key :: keys) next =
    match value key with
    | Some w =>
        writeAll value keys (if w is Some v then <[key := v]> next else next)
    | None => None
    end.
Proof.
  unfold writeAll. simpl. destruct (value key) as [w|]; simpl; [done|].
  apply (foldl_option_None
    (λ next key, w ← value key;
                 Some (if w is Some v then <[key := v]> next else next))).
Qed.

(** What a pass that did not throw leaves under a key. *)
Lemma writeAll_lookup value keys next result k :
  writeAll value keys next = Some result →
  result !! k =
    if bool_decide (k ∈ keys)
    then match value k with Some (Some v) => Some v | _ => next !! k end
    else next !! k.
Proof.
  revert next. induction keys as [|key keys IH]; intros next.
  - rewrite writeAll_nil. intros [= <-]. done.
  - rewrite writeAll_cons.
    destruct (value key) as [w|] eqn:Hw; [|done]. intros Hrun.
    rewrite (IH _ Hrun). clear IH Hrun.
    destruct (decide (k = key)) as [->|Hne].
    + rewrite (bool_decide_eq_true_2 (key ∈ key :: keys))
        by apply list_elem_of_here.
      rewrite Hw. destruct w as [v|].
      * rewrite lookup_insert_eq. by case_bool_decide.
      * by case_bool_decide.
    + assert (Hnext : (if w is Some v then <[key := v]> next else next) !! k
                      = next !! k).
      { destruct w; [by rewrite lookup_insert_ne|done]. }
      rewrite Hnext.
      case_bool_decide as Hin; case_bool_decide as Hin'; try done.
      * exfalso. apply Hin', elem_of_cons. by right.
      * exfalso. apply elem_of_cons in Hin' as [?|?]; done.
Qed.

Lemma writeAll_values value keys next result k :
  writeAll value keys next = Some result → k ∈ keys → is_Some (value k).
Proof.
  revert next. induction keys as [|key keys IH]; intros next Hrun Hin.
  - by apply elem_of_nil in Hin.
  - rewrite writeAll_cons in Hrun.
    destruct (value key) as [w|] eqn:Hw; [|done].
    apply elem_of_cons in Hin as [->|Hin]; [by rewrite Hw|eauto].
Qed.

Lemma writeAll_is_Some value keys next :
  (∀ k, k ∈ keys → is_Some (value k)) → is_Some (writeAll value keys next).
Proof.
  revert next. induction keys as [|key keys IH]; intros next Hall.
  - by rewrite writeAll_nil.
  - rewrite writeAll_cons.
    destruct (Hall key (list_elem_of_here _ _)) as [w ->].
    apply IH. intros k Hk. apply Hall. by apply list_elem_of_further.
Qed.

End EdgeWrites.

Lemma mountEdgesIn_writeAll nodePosition inputs edgesNodes prev edgeIds next :
  mountEdgesIn nodePosition inputs edgesNodes prev edgeIds next =
    writeAll (mountInValue nodePosition inputs edgesNodes prev) edgeIds next.
Proof.
  unfold mountEdgesIn, writeAll. apply foldl_pointwise.
  intros [acc|] edgeId; [|done]. unfold mountInValue. simpl.
  destruct nodePosition as [p|]; [|done]. simpl.
  destruct (edgesNodes !! edgeId) as [edgeInfo|]; [|done]. simpl.
  by destruct (inputs !! EdgeNode.inputIndex edgeInfo).
Qed.

Lemma mountEdgesOut_writeAll nodePosition outputs edgesNodes prev edgeIds next :
  mountEdgesOut nodePosition outputs edgesNodes prev edgeIds next =
    writeAll (mountOutValue nodePosition outputs edgesNodes prev) edgeIds next.
Proof.
  unfold mountEdgesOut, writeAll. apply foldl_pointwise.
  intros [acc|] edgeId; [|done]. unfold mountOutValue. simpl.
  destruct nodePosition as [p|]; [|done]. simpl.
  destruct (edgesNodes !! edgeId) as [edgeInfo|]; [|done]. simpl.
  by destruct (outputs !! EdgeNode.outputIndex edgeInfo).
Qed.

Lemma moveEdgesIn_writeAll x y delta offsets actives edgesNodes prev edgeIds next :
  moveEdgesIn x y delta offsets actives edgesNodes prev edgeIds next =
    writeAll (moveInValue x y delta offsets actives edgesNodes prev) edgeIds next.
Proof.
  unfold moveEdgesIn, writeAll. apply foldl_pointwise.
  intros [acc|] edgeId; [|done]. unfold moveInValue. simpl.
  destruct (actives !! edgeId) as [[|]|]; try done.
  destruct offsets as [o|]; [|done]. simpl.
  destruct (edgesNodes !! edgeId) as [edgeInfo|]; [|done]. simpl.
  by destruct (NodeOffsets.inputs o !! EdgeNode.inputIndex edgeInfo).
Qed.

Lemma moveEdgesOut_writeAll x y delta offsets actives edgesNodes prev edgeIds next :
  moveEdgesOut x y delta offsets actives edgesNodes prev edgeIds next =
    writeAll (moveOutValue x y delta offsets actives edgesNodes prev) edgeIds next.
Proof.
  unfold moveEdgesOut, writeAll. apply foldl_pointwise.
  intros [acc|] edgeId; [|done]. unfold moveOutValue. simpl.
  destruct (actives !! edgeId) as [[|]|]; try done.
  destruct offsets as [o|]; [|done]. simpl.
  destruct (edgesNodes !! edgeId) as [edgeInfo|]; [|done]. simpl.
  by destruct (NodeOffsets.outputs o !! EdgeNode.outputIndex edgeInfo).
Qed.

(** ** Mounting a node *)

Section Mount.
Context {Data : Type}.
Implicit Types (st : State.t Data).

(** The run of [handleOnNodeMount] when it returns. *)
Lemma handleOnNodeMount_returned st nodeIndex inputs outputs effs st' :
  handleOnNodeMount nodeIndex inputs outputs st = (effs, Returned () st') →
  ∃ node afterIn next,
    State.nodesData st !! nodeIndex = Some node ∧
    is_Some (State.nodesOffsets st !! nodeIndex) ∧
    writeAll
      (mountInValue (State.nodesPositions st !! nodeIndex) inputs
         (State.edgesNodes st) (State.edgesPositions st))
      (NodeData.edgesIn node) (State.edgesPositions st) = Some afterIn ∧
    writeAll
      (mountOutValue (State.nodesPositions st !! nodeIndex) outputs
         (State.edgesNodes st) (State.edgesPositions st))
      (NodeData.edgesOut node) afterIn = Some next ∧
    effs = [] ∧
    st' =
      State.mk (State.edgesNodes st) next
        (activateAll (NodeData.edgesOut node)
           (activateAll (NodeData.edgesIn node) (State.edgesActives st)))
        (State.nodesPositions st) (State.nodesData st)
        (<[nodeIndex := NodeOffsets.mk inputs outputs]> (State.nodesOffsets st))
        (State.clickedDelta st) (State.newEdge st) (State.prevEdgesRef st).
Proof.
  unfold handleOnNodeMount. run_handler.
  destruct (State.nodesOffsets st !! nodeIndex) as [o|] eqn:Ho; run_handler;
    [|done].
  simpl.
  destruct (State.nodesData st !! nodeIndex) as [node|] eqn:Hnode; run_handler;
    [|done].
  simpl. rewrite mountEdgesIn_writeAll.
  destruct (writeAll _ (NodeData.edgesIn node) _) as [afterIn|] eqn:Hin;
    simpl; [|by run_handler].
  rewrite mountEdgesOut_writeAll.
  destruct (writeAll _ (NodeData.edgesOut node) _) as [next|] eqn:Hout;
    run_handler; [|done].
  intros [= <- <-]. exists node, afterIn, next. eauto 10.
Qed.

(** X10: a mount that returns calls nobody and writes three things only:
    the anchors of the node are replaced by the measured ones, the flag
    of every edge in the adjacency of the node is set, and the endpoints
    of those edges are rewritten.  Positions, node records, the endpoint
    map, the pending edge, the anchors of the other nodes, and the flag
    and endpoints of every other edge stay as they were. *)
Theorem handleOnNodeMount_effect st nodeIndex inputs outputs effs st' node :
  handleOnNodeMount nodeIndex inputs outputs st = (effs, Returned () st') →
  State.nodesData st !! nodeIndex = Some node →
  effs = [] ∧
  State.nodesOffsets st' !! nodeIndex = Some (NodeOffsets.mk inputs outputs) ∧
  (∀ k, k ≠ nodeIndex →
        State.nodesOffsets st' !! k = State.nodesOffsets st !! k) ∧
  State.nodesPositions st' = State.nodesPositions st ∧
  State.nodesData st' = State.nodesData st ∧
  State.edgesNodes st' = State.edgesNodes st ∧
  State.newEdge st' = State.newEdge st ∧
  (∀ edgeId,
     State.edgesActives st' !! edgeId =
       if bool_decide (edgeId ∈ NodeData.edgesIn node
                       ∨ edgeId ∈ NodeData.edgesOut node)
       then Some true else State.edgesActives st !! edgeId) ∧
  (∀ edgeId,
     edgeId ∉ NodeData.edgesIn node → edgeId ∉ NodeData.edgesOut node →
     State.edgesPositions st' !! edgeId = State.edgesPositions st !! edgeId).
Proof.
  intros Hrun Hnode.
  destruct (handleOnNodeMount_returned _ _ _ _ _ _ Hrun)
    as (node' & afterIn & next & Hnode' & Ho & Hin & Hout & -> & ->).
  rewrite Hnode in Hnode'. injection Hnode' as <-. simpl.
  repeat split; try done.
  - apply list_lookup_insert_eq. by apply lookup_lt_is_Some.
  - intros k Hk. by apply list_lookup_insert_ne.
  - intros edgeId. rewrite !activateAll_lookup.
    repeat case_bool_decide; try done; exfalso; tauto.
  - intros edgeId Hnin Hnout.
    rewrite (writeAll_lookup _ _ _ _ edgeId Hout).
    rewrite (bool_decide_eq_false_2 _ Hnout).
    rewrite (writeAll_lookup _ _ _ _ edgeId Hin).
    by rewrite (bool_decide_eq_false_2 _ Hnin).
Qed.

(** X11: after a mount that returns, an edge leaving the node starts at
    the position of the node plus the measured anchor of its output port
    and keeps the far endpoint it had (0, 0 when it had none); an edge
    that only enters the node ends at the position plus the measured
    anchor of its input port and keeps its near endpoint likewise. *)
Theorem handleOnNodeMount_endpoints
    st nodeIndex inputs outputs effs st' node edgeId :
  handleOnNodeMount nodeIndex inputs outputs st = (effs, Returned () st') →
  State.nodesData st !! nodeIndex = Some node →
  edgeId ∈ NodeData.edgesIn node ∨ edgeId ∈ NodeData.edgesOut node →
  ∃ p edgeInfo,
    State.nodesPositions st !! nodeIndex = Some p ∧
    State.edgesNodes st !! edgeId = Some edgeInfo ∧
    if bool_decide (edgeId ∈ NodeData.edgesOut node) then
      ∃ port, outputs !! EdgeNode.outputIndex edgeInfo = Some port ∧
        State.edgesPositions st' !! edgeId =
          Some (Vector.mk
            (Position.x p + Position.x (Port.offset port))%Z
            (Position.y p + Position.y (Port.offset port))%Z
            (from_option Vector.x1 0%Z (State.edgesPositions st !! edgeId))
            (from_option Vector.y1 0%Z (State.edgesPositions st !! edgeId)))
    else
      ∃ port, inputs !! EdgeNode.inputIndex edgeInfo = Some port ∧
        State.edgesPositions st' !! edgeId =
          Some (Vector.mk
            (from_option Vector.x0 0%Z (State.edgesPositions st !! edgeId))
            (from_option Vector.y0 0%Z (State.edgesPositions st !! edgeId))
            (Position.x p + Position.x (Port.offset port))%Z
            (Position.y p + Position.y (Port.offset port))%Z).
Proof.
  intros Hrun Hnode Hincident.
  destruct (handleOnNodeMount_returned _ _ _ _ _ _ Hrun)
    as (node' & afterIn & next & Hnode' & Ho & Hin & Hout & -> & ->).
  rewrite Hnode in Hnode'. injection Hnode' as <-. simpl.
  pose proof (writeAll_lookup _ _ _ _ edgeId Hout) as Hlook.
  case_bool_decide as Hisout.
  - destruct (writeAll_values _ _ _ _ edgeId Hout Hisout) as [w Hw].
    rewrite Hw in Hlook. unfold mountOutValue in Hw.
    destruct (State.nodesPositions st !! nodeIndex) as [p|] eqn:Hp;
      [|done].
    destruct (State.edgesNodes st !! edgeId) as [edgeInfo|]; [|done].
    simpl in Hw.
    destruct (outputs !! EdgeNode.outputIndex edgeInfo) as [port|] eqn:Hport;
      [|done].
    simpl in Hw. injection Hw as <-.
    exists p, edgeInfo. split; [done|split; [done|eauto]].
  - destruct Hincident as [Hisin|?]; [|done].
    rewrite (writeAll_lookup _ _ _ _ edgeId Hin) in Hlook.
    rewrite (bool_decide_eq_true_2 _ Hisin) in Hlook.
    destruct (writeAll_values _ _ _ _ edgeId Hin Hisin) as [w Hw].
    rewrite Hw in Hlook. unfold mountInValue in Hw.
    destruct (State.nodesPositions st !! nodeIndex) as [p|] eqn:Hp;
      [|done].
    destruct (State.edgesNodes st !! edgeId) as [edgeInfo|]; [|done].
    simpl in Hw.
    destruct (inputs !! EdgeNode.inputIndex edgeInfo) as [port|] eqn:Hport;
      [|done].
    simpl in Hw. injection Hw as <-.
    exists p, edgeInfo. split; [done|split; [done|eauto]].
Qed.

(** X12: on a well-formed state, the mount of a node that exists and has
    a position returns as soon as the measured anchors cover the port
    indices of its edges. *)
Theorem handleOnNodeMount_returns st nodeIndex inputs outputs node p :
  wellFormed st →
  State.nodesData st !! nodeIndex = Some node →
  State.nodesPositions st !! nodeIndex = Some p →
  (∀ edgeId edgeInfo, edgeId ∈ NodeData.edgesIn node →
     State.edgesNodes st !! edgeId = Some edgeInfo →
     EdgeNode.inputIndex edgeInfo < length inputs) →
  (∀ edgeId edgeInfo, edgeId ∈ NodeData.edgesOut node →
     State.edgesNodes st !! edgeId = Some edgeInfo →
     EdgeNode.outputIndex edgeInfo < length outputs) →
  ∃ st', handleOnNodeMount nodeIndex inputs outputs st = ([], Returned () st').
Proof.
  intros ((Hl1 & Hl2) & Hadj & _) Hnode Hp Hin Hout.
  unfold handleOnNodeMount. run_handler.
  destruct (lookup_lt_is_Some_2 (State.nodesOffsets st) nodeIndex) as [o Ho].
  { rewrite Hl2. by eapply lookup_lt_Some. }
  rewrite Ho. run_handler. simpl. rewrite Hnode. run_handler. simpl.
  rewrite mountEdgesIn_writeAll, Hp. simpl.
  destruct (writeAll_is_Some
    (mountInValue (Some p) inputs (State.edgesNodes st) (State.edgesPositions st))
    (NodeData.edgesIn node) (State.edgesPositions st)) as [afterIn ->].
  { intros k Hk. unfold mountInValue. simpl.
    destruct (Hadj node k) as [[info Hinfo] _];
      [by eapply list_elem_of_lookup_2|by left|].
    rewrite Hinfo. simpl.
    destruct (lookup_lt_is_Some_2 inputs (EdgeNode.inputIndex info)) as [port ->];
      [by eapply Hin|]. simpl. eauto. }
  simpl. rewrite mountEdgesOut_writeAll.
  destruct (writeAll_is_Some
    (mountOutValue (Some p) outputs (State.edgesNodes st) (State.edgesPositions st))
    (NodeData.edgesOut node) afterIn) as [next ->].
  { intros k Hk. unfold mountOutValue. simpl.
    destruct (Hadj node k) as [[info Hinfo] _];
      [by eapply list_elem_of_lookup_2|by right|].
    rewrite Hinfo. simpl.
    destruct (lookup_lt_is_Some_2 outputs (EdgeNode.outputIndex info)) as [port ->];
      [by eapply Hout|]. simpl. eauto. }
  run_handler. eauto.
Qed.

End Mount.

(** ** Dragging a node *)

Section Move.
Context {Data : Type}.
Implicit Types (st : State.t Data).

(** The run of [handleOnNodeMove] when it returns. *)
Lemma handleOnNodeMove_returned st nodeIndex x y effs st' :
  handleOnNodeMove nodeIndex x y st = (effs, Returned () st') →
  ∃ node afterIn next,
    State.nodesData st !! nodeIndex = Some node ∧
    is_Some (State.nodesPositions st !! nodeIndex) ∧
    writeAll
      (moveInValue x y (State.clickedDelta st) (State.nodesOffsets st !! nodeIndex)
         (State.edgesActives st) (State.edgesNodes st) (State.edgesPositions st))
      (NodeData.edgesIn node) (State.edgesPositions st) = Some afterIn ∧
    writeAll
      (moveOutValue x y (State.clickedDelta st) (State.nodesOffsets st !! nodeIndex)
         (State.edgesActives st) (State.edgesNodes st) (State.edgesPositions st))
      (NodeData.edgesOut node) afterIn = Some next ∧
    effs = [] ∧
    st' =
      State.mk (State.edgesNodes st) next (State.edgesActives st)
        (writePosition (State.nodesData st) nodeIndex
           (Position.mk (x - Position.x (State.clickedDelta st))%Z
                        (y - Position.y (State.clickedDelta st))%Z)
           (State.nodesPositions st))
        (State.nodesData st) (State.nodesOffsets st)
        (State.clickedDelta st) (State.newEdge st) (State.prevEdgesRef st).
Proof.
  unfold handleOnNodeMove. run_handler.
  destruct (State.nodesPositions st !! nodeIndex) as [p|] eqn:Hp;
    run_handler; [|done].
  simpl.
  destruct (State.nodesData st !! nodeIndex) as [node|] eqn:Hnode; run_handler;
    [|done].
  simpl. rewrite moveEdgesIn_writeAll.
  destruct (writeAll _ (NodeData.edgesIn node) _) as [afterIn|] eqn:Hin;
    simpl; [|by run_handler].
  rewrite moveEdgesOut_writeAll.
  destruct (writeAll _ (NodeData.edgesOut node) _) as [next|] eqn:Hout;
    run_handler; [|done].
  intros [= <- <-]. exists node, afterIn, next. eauto 10.
Qed.

(** The converse: the run, given that the two passes do not throw. *)
Lemma handleOnNodeMove_run st nodeIndex x y node p afterIn next :
  State.nodesData st !! nodeIndex = Some node →
  State.nodesPositions st !! nodeIndex = Some p →
  writeAll
    (moveInValue x y (State.clickedDelta st) (State.nodesOffsets st !! nodeIndex)
       (State.edgesActives st) (State.edgesNodes st) (State.edgesPositions st))
    (NodeData.edgesIn node) (State.edgesPositions st) = Some afterIn →
  writeAll
    (moveOutValue x y (State.clickedDelta st) (State.nodesOffsets st !! nodeIndex)
       (State.edgesActives st) (State.edgesNodes st) (State.edgesPositions st))
    (NodeData.edgesOut node) afterIn = Some next →
  handleOnNodeMove nodeIndex x y st =
    ([], Returned ()
      (State.mk (State.edgesNodes st) next (State.edgesActives st)
        (writePosition (State.nodesData st) nodeIndex
           (Position.mk (x - Position.x (State.clickedDelta st))%Z
                        (y - Position.y (State.clickedDelta st))%Z)
           (State.nodesPositions st))
        (State.nodesData st) (State.nodesOffsets st)
        (State.clickedDelta st) (State.newEdge st) (State.prevEdgesRef st))).
Proof.
  intros Hnode Hp Hin Hout. unfold handleOnNodeMove. run_handler.
  rewrite Hp. simpl. run_handler. simpl. rewrite Hnode. run_handler. simpl.
  rewrite moveEdgesIn_writeAll, Hin. simpl.
  rewrite moveEdgesOut_writeAll, Hout. by run_handler.
Qed.

(** Writing twice is writing once. *)
Lemma writePosition_idemp (nodesData : list (NodeData.t Data)) nodeIndex p prev :
  writePosition nodesData nodeIndex p (writePosition nodesData nodeIndex p prev)
  = writePosition nodesData nodeIndex p prev.
Proof.
  apply list_eq. intros k. rewrite !writePosition_lookup.
  destruct (prev !! k); simpl; [|done]. by case_bool_decide.
Qed.

(** With unique node ids, the write changes one element of the array. *)
Lemma writePosition_NoDup (nodesData : list (NodeData.t Data)) nodeIndex p prev :
  NoDup (NodeData.id <$> nodesData) →
  writePosition nodesData nodeIndex p prev = <[nodeIndex := p]> prev.
Proof.
  intros Hnd. apply list_eq. intros k. rewrite writePosition_lookup.
  destruct (decide (k = nodeIndex)) as [->|Hne].
  - unfold sharesPosition. rewrite bool_decide_eq_true_2 by (by left).
    destruct (prev !! nodeIndex) eqn:Hk; simpl.
    + symmetry. apply list_lookup_insert_eq. by eapply lookup_lt_Some.
    + rewrite list_insert_ge by (by apply lookup_ge_None). by rewrite Hk.
  - rewrite list_lookup_insert_ne by done.
    rewrite bool_decide_eq_false_2; [by destruct (prev !! k)|].
    intros [?|[[node Hnode] Hid]]; [done|]. apply Hne.
    rewrite Hnode in Hid. simpl in Hid.
    destruct (nodesData !! k) as [other|] eqn:Hother; [|done].
    injection Hid as Hid.
    eapply (NoDup_lookup (NodeData.id <$> nodesData)); [done|..];
      rewrite list_lookup_fmap; [by rewrite Hother|by rewrite Hnode, Hid].
Qed.

(** X13: a move that returns calls nobody.  The node is put at the
    pointer minus the delta recorded at the press.  The position is
    written in place, so every ordinal whose record carries the id of the
    node moves with it, and the ordinals of the other ids stay where they
    are: with unique node ids, no other node moves.  The endpoints of an
    edge are left alone unless the edge is in the adjacency of the node
    and its flag is set, so inactive edges are skipped.  Node records,
    anchors, flags and the pending edge are not written. *)
Theorem handleOnNodeMove_effect st nodeIndex x y effs st' node :
  handleOnNodeMove nodeIndex x y st = (effs, Returned () st') →
  State.nodesData st !! nodeIndex = Some node →
  effs = [] ∧
  State.nodesPositions st' !! nodeIndex =
    Some (Position.mk (x - Position.x (State.clickedDelta st))%Z
                      (y - Position.y (State.clickedDelta st))%Z) ∧
  length (State.nodesPositions st') = length (State.nodesPositions st) ∧
  (∀ k other,
     State.nodesData st !! k = Some other →
     NodeData.id other = NodeData.id node →
     is_Some (State.nodesPositions st !! k) →
     State.nodesPositions st' !! k =
       Some (Position.mk (x - Position.x (State.clickedDelta st))%Z
                         (y - Position.y (State.clickedDelta st))%Z)) ∧
  (∀ k other,
     State.nodesData st !! k = Some other →
     NodeData.id other ≠ NodeData.id node →
     State.nodesPositions st' !! k = State.nodesPositions st !! k) ∧
  (NoDup (NodeData.id <$> State.nodesData st) →
   ∀ k, k ≠ nodeIndex →
        State.nodesPositions st' !! k = State.nodesPositions st !! k) ∧
  State.nodesData st' = State.nodesData st ∧
  State.nodesOffsets st' = State.nodesOffsets st ∧
  State.edgesActives st' = State.edgesActives st ∧
  State.edgesNodes st' = State.edgesNodes st ∧
  State.newEdge st' = State.newEdge st ∧
  State.clickedDelta st' = State.clickedDelta st ∧
  (∀ edgeId,
     State.edgesActives st !! edgeId ≠ Some true
     ∨ ((edgeId ∉ NodeData.edgesIn node) ∧ (edgeId ∉ NodeData.edgesOut node)) →
     State.edgesPositions st' !! edgeId = State.edgesPositions st !! edgeId).
Proof.
  intros Hrun Hnode.
  destruct (handleOnNodeMove_returned _ _ _ _ _ _ Hrun)
    as (node' & afterIn & next & Hnode' & [p Hp] & Hin & Hout & -> & ->).
  rewrite Hnode in Hnode'. injection Hnode' as <-. simpl.
  repeat split; try done.
  - rewrite writePosition_lookup, Hp. simpl.
    rewrite bool_decide_eq_true_2; [done|by left].
  - apply length_writePosition.
  - intros k other Hother Hid [q Hq]. rewrite writePosition_lookup, Hq. simpl.
    rewrite bool_decide_eq_true_2; [done|].
    right. rewrite Hnode, Hother. simpl. split; [eauto|by rewrite Hid].
  - intros k other Hother Hid. rewrite writePosition_lookup.
    rewrite bool_decide_eq_false_2; [by destruct (State.nodesPositions st !! k)|].
    intros [->|[_ Heq]].
    + rewrite Hnode in Hother. by injection Hother as <-.
    + rewrite Hnode, Hother in Heq. simpl in Heq. by injection Heq.
  - intros Hnd k Hk. rewrite writePosition_NoDup by done.
    by apply list_lookup_insert_ne.
  - intros edgeId Hskip.
    rewrite (writeAll_lookup _ _ _ _ edgeId Hout).
    rewrite (writeAll_lookup _ _ _ _ edgeId Hin).
    destruct Hskip as [Hinactive|[Hnin Hnout]].
    + unfold moveInValue, moveOutValue.
      destruct (State.edgesActives st !! edgeId) as [[|]|]; try done;
        by repeat case_bool_decide.
    + by rewrite (bool_decide_eq_false_2 _ Hnout), (bool_decide_eq_false_2 _ Hnin).
Qed.

(** X14: after a move that returns, an active edge leaving the node
    starts at the pointer plus the anchor of its output port minus the
    delta, and keeps its far endpoint; an active edge that only enters
    the node ends at the pointer plus the anchor of its input port minus
    the delta, and keeps its near endpoint. *)
Theorem handleOnNodeMove_endpoints st nodeIndex x y effs st' node edgeId :
  handleOnNodeMove nodeIndex x y st = (effs, Returned () st') →
  State.nodesData st !! nodeIndex = Some node →
  State.edgesActives st !! edgeId = Some true →
  edgeId ∈ NodeData.edgesIn node ∨ edgeId ∈ NodeData.edgesOut node →
  ∃ offsets edgeInfo,
    State.nodesOffsets st !! nodeIndex = Some offsets ∧
    State.edgesNodes st !! edgeId = Some edgeInfo ∧
    if bool_decide (edgeId ∈ NodeData.edgesOut node) then
      ∃ port,
        NodeOffsets.outputs offsets !! EdgeNode.outputIndex edgeInfo = Some port ∧
        State.edgesPositions st' !! edgeId =
          Some (Vector.mk
            (x + Position.x (Port.offset port)
               - Position.x (State.clickedDelta st))%Z
            (y + Position.y (Port.offset port)
               - Position.y (State.clickedDelta st))%Z
            (from_option Vector.x1 0%Z (State.edgesPositions st !! edgeId))
            (from_option Vector.y1 0%Z (State.edgesPositions st !! edgeId)))
    else
      ∃ port,
        NodeOffsets.inputs offsets !! EdgeNode.inputIndex edgeInfo = Some port ∧
        State.edgesPositions st' !! edgeId =
          Some (Vector.mk
            (from_option Vector.x0 0%Z (State.edgesPositions st !! edgeId))
            (from_option Vector.y0 0%Z (State.edgesPositions st !! edgeId))
            (x + Position.x (Port.offset port)
               - Position.x (State.clickedDelta st))%Z
            (y + Position.y (Port.offset port)
               - Position.y (State.clickedDelta st))%Z).
Proof.
  intros Hrun Hnode Hactive Hincident.
  destruct (handleOnNodeMove_returned _ _ _ _ _ _ Hrun)
    as (node' & afterIn & next & Hnode' & _ & Hin & Hout & -> & ->).
  rewrite Hnode in Hnode'. injection Hnode' as <-. simpl.
  pose proof (writeAll_lookup _ _ _ _ edgeId Hout) as Hlook.
  case_bool_decide as Hisout.
  - destruct (writeAll_values _ _ _ _ edgeId Hout Hisout) as [w Hw].
    rewrite Hw in Hlook. unfold moveOutValue in Hw. rewrite Hactive in Hw.
    destruct (State.nodesOffsets st !! nodeIndex) as [offsets|]; [|done].
    destruct (State.edgesNodes st !! edgeId) as [edgeInfo|]; [|done].
    simpl in Hw.
    destruct (NodeOffsets.outputs offsets !! EdgeNode.outputIndex edgeInfo)
      as [port|] eqn:Hport; [|done].
    simpl in Hw. injection Hw as <-.
    exists offsets, edgeInfo. split; [done|]. split; [done|]. eauto.
  - destruct Hincident as [Hisin|?]; [|done].
    rewrite (writeAll_lookup _ _ _ _ edgeId Hin) in Hlook.
    rewrite (bool_decide_eq_true_2 _ Hisin) in Hlook.
    destruct (writeAll_values _ _ _ _ edgeId Hin Hisin) as [w Hw].
    rewrite Hw in Hlook. unfold moveInValue in Hw. rewrite Hactive in Hw.
    destruct (State.nodesOffsets st !! nodeIndex) as [offsets|]; [|done].
    destruct (State.edgesNodes st !! edgeId) as [edgeInfo|]; [|done].
    simpl in Hw.
    destruct (NodeOffsets.inputs offsets !! EdgeNode.inputIndex edgeInfo)
      as [port|] eqn:Hport; [|done].
    simpl in Hw. injection Hw as <-.
    exists offsets, edgeInfo. split; [done|]. split; [done|]. eauto.
Qed.

(** Whether a value can be computed, and the part of it that comes from
    the pointer, do not depend on [prev]. *)
Lemma moveInValue_prev x y delta offsets actives edgesNodes prev prev' k :
  from_option Vector.x0 0%Z (prev' !! k) = from_option Vector.x0 0%Z (prev !! k) →
  from_option Vector.y0 0%Z (prev' !! k) = from_option Vector.y0 0%Z (prev !! k) →
  moveInValue x y delta offsets actives edgesNodes prev' k =
    moveInValue x y delta offsets actives edgesNodes prev k.
Proof. intros Hx Hy. unfold moveInValue. by rewrite Hx, Hy. Qed.

Lemma moveOutValue_prev x y delta offsets actives edgesNodes prev prev' k :
  from_option Vector.x1 0%Z (prev' !! k) = from_option Vector.x1 0%Z (prev !! k) →
  from_option Vector.y1 0%Z (prev' !! k) = from_option Vector.y1 0%Z (prev !! k) →
  moveOutValue x y delta offsets actives edgesNodes prev' k =
    moveOutValue x y delta offsets actives edgesNodes prev k.
Proof. intros Hx Hy. unfold moveOutValue. by rewrite Hx, Hy. Qed.

Lemma moveInValue_is_Some x y delta offsets actives edgesNodes prev prev' k :
  is_Some (moveInValue x y delta offsets actives edgesNodes prev k) →
  is_Some (moveInValue x y delta offsets actives edgesNodes prev' k).
Proof.
  unfold moveInValue. destruct (actives !! k) as [[|]|]; try done.
  destruct offsets as [o|]; [|done]. simpl.
  destruct (edgesNodes !! k) as [info|]; [|done]. simpl.
  destruct (NodeOffsets.inputs o !! EdgeNode.inputIndex info); [|done].
  simpl. eauto.
Qed.

Lemma moveOutValue_is_Some x y delta offsets actives edgesNodes prev prev' k :
  is_Some (moveOutValue x y delta offsets actives edgesNodes prev k) →
  is_Some (moveOutValue x y delta offsets actives edgesNodes prev' k).
Proof.
  unfold moveOutValue. destruct (actives !! k) as [[|]|]; try done.
  destruct offsets as [o|]; [|done]. simpl.
  destruct (edgesNodes !! k) as [info|]; [|done]. simpl.
  destruct (NodeOffsets.outputs o !! EdgeNode.outputIndex info); [|done].
  simpl. eauto.
Qed.

(** The two passes, run again on their own result, give it back. *)
Lemma move_passes_idempotent x y delta offsets actives edgesNodes
    (prev afterIn next : gmap string Vector.t) edgesIn edgesOut :
  writeAll (moveInValue x y delta offsets actives edgesNodes prev)
    edgesIn prev = Some afterIn →
  writeAll (moveOutValue x y delta offsets actives edgesNodes prev)
    edgesOut afterIn = Some next →
  ∃ afterIn',
    writeAll (moveInValue x y delta offsets actives edgesNodes next)
      edgesIn next = Some afterIn' ∧
    writeAll (moveOutValue x y delta offsets actives edgesNodes next)
      edgesOut afterIn' = Some next.
Proof.
  intros Hin Hout.
  destruct (writeAll_is_Some
    (moveInValue x y delta offsets actives edgesNodes next) edgesIn next)
    as [afterIn' Hin'].
  { intros k Hk. eapply moveInValue_is_Some, (writeAll_values _ _ _ _ k Hin Hk). }
  destruct (writeAll_is_Some
    (moveOutValue x y delta offsets actives edgesNodes next) edgesOut afterIn')
    as [next' Hout'].
  { intros k Hk. eapply moveOutValue_is_Some, (writeAll_values _ _ _ _ k Hout Hk). }
  exists afterIn'. split; [done|]. rewrite Hout'. f_equal.
  apply map_eq. intros k.
  pose proof (writeAll_lookup _ _ _ _ k Hin) as H1.
  pose proof (writeAll_lookup _ _ _ _ k Hout) as H2.
  pose proof (writeAll_lookup _ _ _ _ k Hin') as H3.
  pose proof (writeAll_lookup _ _ _ _ k Hout') as H4.
  rewrite H4, H3. clear H3 H4 Hin' Hout'.
  destruct (decide (k ∈ edgesOut)) as [Hko|Hko].
  - rewrite (bool_decide_eq_true_2 _ Hko) in H2 |- *.
    destruct (writeAll_values _ _ _ _ k Hout Hko) as [w Hw].
    rewrite Hw in H2. unfold moveOutValue in Hw |- *.
    destruct (actives !! k) as [[|]|] eqn:Hact.
    + destruct offsets as [o|]; [|done]. simpl in *.
      destruct (edgesNodes !! k) as [info|]; [|done]. simpl in *.
      destruct (NodeOffsets.outputs o !! EdgeNode.outputIndex info) as [port|];
        [|done].
      simpl in *. injection Hw as <-. by rewrite H2.
    + injection Hw as <-.
      unfold moveInValue. rewrite Hact. by case_bool_decide.
    + injection Hw as <-.
      unfold moveInValue. rewrite Hact. by case_bool_decide.
  - rewrite (bool_decide_eq_false_2 _ Hko) in H2 |- *.
    destruct (decide (k ∈ edgesIn)) as [Hki|Hki].
    + rewrite (bool_decide_eq_true_2 _ Hki) in H1 |- *.
      destruct (writeAll_values _ _ _ _ k Hin Hki) as [w Hw].
      rewrite Hw in H1. unfold moveInValue in Hw |- *.
      destruct (actives !! k) as [[|]|] eqn:Hact.
      * destruct offsets as [o|]; [|done]. simpl in *.
        destruct (edgesNodes !! k) as [info|]; [|done]. simpl in *.
        destruct (NodeOffsets.inputs o !! EdgeNode.inputIndex info) as [port|];
          [|done].
        simpl in *. injection Hw as <-. by rewrite H2, H1.
      * done.
      * done.
    + by rewrite (bool_decide_eq_false_2 _ Hki).
Qed.

(** X15: a move is idempotent: after a move that returned, the same move
    returns again, calls nobody and leaves the state exactly as it is. *)
Theorem handleOnNodeMove_idempotent st nodeIndex x y effs st' :
  handleOnNodeMove nodeIndex x y st = (effs, Returned () st') →
  handleOnNodeMove nodeIndex x y st' = ([], Returned () st').
Proof.
  intros Hrun.
  destruct (handleOnNodeMove_returned _ _ _ _ _ _ Hrun)
    as (node & afterIn & next & Hnode & [p Hp] & Hin & Hout & -> & ->).
  destruct (move_passes_idempotent _ _ _ _ _ _ _ _ _ _ _ Hin Hout)
    as (afterIn' & Hin' & Hout').
  erewrite handleOnNodeMove_run; simpl.
  - by rewrite writePosition_idemp.
  - done.
  - rewrite writePosition_lookup, Hp. done.
  - exact Hin'.
  - exact Hout'.
Qed.

End Move.

(** ** The list passed to [onEdgesChange] *)

Section ReportedList.
Context {Data : Type}.
Implicit Types (st : State.t Data).

Lemma elem_of_objectKeys {V} (o : gmap string V) key :
  key ∈ objectKeys o ↔ is_Some (o !! key).
Proof.
  unfold objectKeys. rewrite list_elem_of_fmap. split.
  - intros ([k v] & -> & Hkv%elem_of_map_to_list). eauto.
  - intros [v Hv]. exists (key, v). split; [done|].
    by apply elem_of_map_to_list.
Qed.

(** The list is made of the keys that are flagged and have endpoints. *)
Lemma activeEdgesOf_elem (actives : gmap string bool)
    (allEdgesNodes : gmap string EdgeNode.t) edge :
  edge ∈ activeEdgesOf actives allEdgesNodes ↔
    ∃ edgeInfo,
      actives !! EdgeProps.id edge = Some true ∧
      allEdgesNodes !! EdgeProps.id edge = Some edgeInfo ∧
      edge = toEdgeProps (EdgeProps.id edge) edgeInfo.
Proof.
  unfold activeEdgesOf. rewrite list_elem_of_omap. split.
  - intros (key & _ & Hkey).
    destruct (actives !! key) as [[|]|] eqn:Hactive; try done.
    apply fmap_Some in Hkey as (edgeInfo & Hinfo & ->). simpl. eauto.
  - intros (edgeInfo & Hactive & Hinfo & Heq).
    exists (EdgeProps.id edge). split.
    + apply elem_of_objectKeys. eauto.
    + rewrite Hactive, Hinfo. simpl. by rewrite <- Heq.
Qed.

Lemma omap_ids_NoDup {A} (f : string → option A) (g : A → string) keys :
  (∀ key a, f key = Some a → g a = key) →
  NoDup keys → NoDup (g <$> omap f keys).
Proof.
  intros Hfg. induction keys as [|key keys IH]; intros Hnd; [constructor|].
  apply NoDup_cons in Hnd as [Hfresh Hnd]. simpl.
  destruct (f key) as [a|] eqn:Ha; [|by apply IH].
  rewrite fmap_cons. apply NoDup_cons. split; [|by apply IH].
  rewrite (Hfg key a Ha).
  intros (a' & Heq & (key' & Hin & Ha')%list_elem_of_omap)%list_elem_of_fmap.
  rewrite (Hfg key' a' Ha') in Heq. by subst key'.
Qed.

Lemma activeEdgesOf_NoDup (actives : gmap string bool)
    (allEdgesNodes : gmap string EdgeNode.t) :
  NoDup (EdgeProps.id <$> activeEdgesOf actives allEdgesNodes).
Proof.
  unfold activeEdgesOf. apply omap_ids_NoDup.
  - intros key e He. destruct (actives !! key) as [[|]|]; try done.
    by apply fmap_Some in He as (edgeInfo & _ & ->).
  - apply NoDup_fst_map_to_list.
Qed.

(** The loop of [handleOnDeleteEdge] builds the same list, when it does
    not throw. *)
Lemma activeEdgesStrict_Some (actives : gmap string bool)
    (edgesNodes : gmap string EdgeNode.t) activeEdges :
  activeEdgesStrict actives edgesNodes = Some activeEdges →
  activeEdges = activeEdgesOf actives edgesNodes.
Proof.
  unfold activeEdgesStrict, activeEdgesOf.
  generalize (objectKeys actives). intros keys. revert activeEdges.
  induction keys as [|key keys IH]; intros activeEdges.
  - simpl. by intros [= <-].
  - destruct (decide (actives !! key = Some true)) as [Hactive|Hactive].
    + rewrite filter_cons_True by done. simpl. rewrite Hactive.
      destruct (edgesNodes !! key) as [edgeInfo|]; [|done]. simpl.
      destruct (mapM _ (filter _ keys)) as [rest|] eqn:Hrest; [|done].
      simpl. intros [= <-]. f_equal. by apply IH.
    + rewrite filter_cons_False by done. simpl.
      destruct (actives !! key) as [[|]|]; try done; apply IH.
Qed.

Lemma activeEdgesStrict_is_Some (actives : gmap string bool)
    (edgesNodes : gmap string EdgeNode.t) :
  (∀ key, actives !! key = Some true → is_Some (edgesNodes !! key)) →
  activeEdgesStrict actives edgesNodes = Some (activeEdgesOf actives edgesNodes).
Proof.
  intros Hknown.
  destruct (activeEdgesStrict actives edgesNodes) as [l|] eqn:Hl.
  - by rewrite (activeEdgesStrict_Some _ _ _ Hl).
  - exfalso. unfold activeEdgesStrict in Hl.
    assert (is_Some (mapM (λ key, toEdgeProps key <$> edgesNodes !! key)
              (filter (λ key, actives !! key = Some true) (objectKeys actives))))
      as [l Hl']; [|by rewrite Hl' in Hl].
    apply mapM_is_Some_2, Forall_forall.
    intros key [Hactive _]%list_elem_of_filter. simpl.
    destruct (Hknown key Hactive) as [edgeInfo ->]. simpl. eauto.
Qed.

(** X16: a list passed to [onEdgesChange] when an edge is created or
    deleted has no two edges with the same id, and an edge is in it
    exactly when its id is flagged active and has endpoints in
    [edgesNodes()], the edge carrying those endpoints. *)
Theorem edge_paths_report_exactly_the_active st :
  (∀ nodeIndex inputIndex reported,
     OnEdgesChange reported ∈ fst (handleOnInputMouseUp nodeIndex inputIndex st) →
     let st' := stateOf (handleOnInputMouseUp nodeIndex inputIndex st) in
     NoDup (EdgeProps.id <$> reported) ∧
     ∀ edge, edge ∈ reported ↔
       ∃ edgeInfo,
         State.edgesActives st' !! EdgeProps.id edge = Some true ∧
         State.edgesNodes st' !! EdgeProps.id edge = Some edgeInfo ∧
         edge = toEdgeProps (EdgeProps.id edge) edgeInfo) ∧
  (∀ edgeId reported,
     OnEdgesChange reported ∈ fst (handleOnDeleteEdge edgeId st) →
     let st' := stateOf (handleOnDeleteEdge edgeId st) in
     NoDup (EdgeProps.id <$> reported) ∧
     ∀ edge, edge ∈ reported ↔
       ∃ edgeInfo,
         State.edgesActives st' !! EdgeProps.id edge = Some true ∧
         State.edgesNodes st' !! EdgeProps.id edge = Some edgeInfo ∧
         edge = toEdgeProps (EdgeProps.id edge) edgeInfo).
Proof.
  split.
  - intros nodeIndex inputIndex reported. unfold handleOnInputMouseUp.
    run_handler.
    case_bool_decide as Hself;
      [run_handler; simpl; by intros ?%elem_of_nil|].
    destruct (State.nodesData st
                !! from_option NewEdge.sourceNode 0 (State.newEdge st))
      as [sourceData|]; run_handler; [|simpl; by intros ?%elem_of_nil].
    destruct (State.nodesData st !! nodeIndex) as [targetData|]; run_handler;
      [|simpl; by intros ?%elem_of_nil].
    destruct (State.newEdge st) as [pending|]; [|simpl; by intros ?%elem_of_nil].
    destruct (_ || _); [run_handler; simpl; by intros ?%elem_of_nil|].
    rewrite bind_run. unfold createEdge. run_handler.
    repeat
      match goal with
      | |- context [deref ?v ≫= _] =>
          destruct v eqn:?; run_handler; [|simpl; by intros ?%elem_of_nil]
      end.
    simpl. rewrite insert_insert_eq.
    intros [= ->]%list_elem_of_singleton.
    split; [apply activeEdgesOf_NoDup|]. intros edge. apply activeEdgesOf_elem.
  - intros edgeId reported. unfold handleOnDeleteEdge. run_handler.
    repeat
      match goal with
      | |- context [deref ?v ≫= _] =>
          destruct v eqn:?; run_handler; [|simpl; by intros ?%elem_of_nil]
      end.
    simpl. intros [= ->]%list_elem_of_singleton.
    match goal with
    | H : activeEdgesStrict _ _ = Some _ |- _ =>
        apply activeEdgesStrict_Some in H; rewrite H
    end.
    split; [apply activeEdgesOf_NoDup|]. intros edge. apply activeEdgesOf_elem.
Qed.

End ReportedList.

(** ** Instances on the Dynamic example *)

Lemma runEvents_wellFormed_witness :
  wellFormed (runEvents rowLayout exampleEvents (createdState exampleProps)).
Proof.
  apply (runEvents_wellFormed rowLayout exampleProps
           (createdState exampleProps) [] exampleEvents).
  reflexivity.
Defined.

Lemma handleOnNodeMount_effect_witness :
  State.nodesOffsets
      (run (handleOnNodeMount 0 (measured 0 1) (measured 200 2))
         (createdState exampleProps)) !! 0
    = Some (NodeOffsets.mk (measured 0 1) (measured 200 2))
  ∧ State.edgesActives
      (run (handleOnNodeMount 0 (measured 0 1) (measured 200 2))
         (createdState exampleProps)) !! "edge_node-1:0_node-2:0"
    = Some true.
Proof.
  destruct (handleOnNodeMount_effect (createdState exampleProps) 0
              (measured 0 1) (measured 200 2) []
              (run (handleOnNodeMount 0 (measured 0 1) (measured 200 2))
                 (createdState exampleProps))
              (NodeData.mk "node-1" "Node 1 (2 outputs)" 1 2 "white" []
                 ["edge_node-1:0_node-2:0"]))
    as (_ & Hoffsets & _ & _ & _ & _ & _ & Hflags & _).
  - vm_compute. reflexivity.
  - reflexivity.
  - split; [exact Hoffsets|]. exact (Hflags "edge_node-1:0_node-2:0").
Defined.

Lemma handleOnNodeMount_endpoints_witness :
  State.edgesPositions
      (run (handleOnNodeMount 0 (measured 0 1) (measured 200 2))
         (createdState exampleProps)) !! "edge_node-1:0_node-2:0"
    = Some (Vector.mk 200 30 400 40).
Proof.
  destruct (handleOnNodeMount_endpoints (createdState exampleProps) 0
              (measured 0 1) (measured 200 2) []
              (run (handleOnNodeMount 0 (measured 0 1) (measured 200 2))
                 (createdState exampleProps))
              (NodeData.mk "node-1" "Node 1 (2 outputs)" 1 2 "white" []
                 ["edge_node-1:0_node-2:0"])
              "edge_node-1:0_node-2:0")
    as (p & edgeInfo & Hp & Hinfo & Hends).
  - vm_compute. reflexivity.
  - reflexivity.
  - right. apply list_elem_of_here.
  - vm_compute in Hp. injection Hp as <-.
    vm_compute in Hinfo. injection Hinfo as <-.
    destruct Hends as (port & Hport & Hvec).
    vm_compute in Hport. injection Hport as <-. exact Hvec.
Defined.

Lemma handleOnNodeMount_returns_witness :
  ∃ st', handleOnNodeMount 0 (measured 0 1) (measured 200 2)
           (createdState exampleProps) = ([], Returned () st').
Proof.
  apply (handleOnNodeMount_returns (createdState exampleProps) 0
           (measured 0 1) (measured 200 2)
           (NodeData.mk "node-1" "Node 1 (2 outputs)" 1 2 "white" []
              ["edge_node-1:0_node-2:0"])
           (Position.mk 0 0)).
  - apply (runEvents_wellFormed_aux rowLayout exampleProps
             (createdState exampleProps) [] []). reflexivity.
  - reflexivity.
  - reflexivity.
  - intros edgeId edgeInfo Hin. by apply elem_of_nil in Hin.
  - intros edgeId edgeInfo Hin%list_elem_of_singleton Hinfo. subst edgeId.
    vm_compute in Hinfo. injection Hinfo as <-. simpl. lia.
Defined.

(** An instance with two nodes under one id: the move of the first is
    the move of the second, and the third node stays. *)
Lemma handleOnNodeMove_effect_witness :
  State.nodesPositions (run (handleOnNodeMove 0 60 45) twinState) !! 0
    = Some (Position.mk 50 40)
  ∧ State.nodesPositions (run (handleOnNodeMove 0 60 45) twinState) !! 1
    = Some (Position.mk 50 40)
  ∧ State.nodesPositions (run (handleOnNodeMove 0 60 45) twinState) !! 2
    = State.nodesPositions twinState !! 2.
Proof.
  destruct (handleOnNodeMove_effect twinState 0 60 45 []
              (run (handleOnNodeMove 0 60 45) twinState)
              (NodeData.mk "node-1" "Node 1 (2 outputs)" 1 2 "white" [] []))
    as (_ & Hpos & _ & Hsame & Hother & _).
  - vm_compute. reflexivity.
  - reflexivity.
  - split; [exact Hpos|]. split.
    + apply (Hsame 1 (NodeData.mk "node-1" "Node 1 again" 1 2 "white" [] []));
        [reflexivity|reflexivity|].
      eexists. reflexivity.
    + apply (Hother 2 (NodeData.mk "node-2" "Node 2 (1 output)" 1 1 "white" [] []));
        [reflexivity|].
      simpl. discriminate.
Defined.

Lemma handleOnNodeMove_endpoints_witness :
  State.edgesPositions (run (handleOnNodeMove 0 60 45) pressedState)
      !! "edge_node-1:0_node-2:0"
    = Some (Vector.mk 250 70 250 30).
Proof.
  destruct (handleOnNodeMove_endpoints pressedState 0 60 45 []
              (run (handleOnNodeMove 0 60 45) pressedState)
              (NodeData.mk "node-1" "Node 1 (2 outputs)" 1 2 "white" []
                 ["edge_node-1:0_node-2:0"])
              "edge_node-1:0_node-2:0")
    as (offsets & edgeInfo & Hoffsets & Hinfo & Hends).
  - vm_compute. reflexivity.
  - reflexivity.
  - reflexivity.
  - right. apply list_elem_of_here.
  - vm_compute in Hoffsets. injection Hoffsets as <-.
    vm_compute in Hinfo. injection Hinfo as <-.
    destruct Hends as (port & Hport & Hvec).
    vm_compute in Hport. injection Hport as <-. exact Hvec.
Defined.

Lemma handleOnNodeMove_idempotent_witness :
  handleOnNodeMove 0 60 45 (run (handleOnNodeMove 0 60 45) pressedState)
    = ([], Returned () (run (handleOnNodeMove 0 60 45) pressedState)).
Proof.
  apply (handleOnNodeMove_idempotent pressedState 0 60 45 []).
  vm_compute. reflexivity.
Defined.

(** ** The life of the pending edge *)

Section PendingEdge.
Context {Data : Type}.
Implicit Types (st : State.t Data).

(** X17: pressing an output port starts a pending edge whose two ends
    are the anchor of that port (node position plus port offset), without
    a call; a mouse-up right after gives back exactly the state before the
    press. *)
Theorem handleOnOutputMouseDown_then_cancel st nodeIndex outputIndex effs st1 :
  State.newEdge st = None →
  handleOnOutputMouseDown nodeIndex outputIndex st = (effs, Returned () st1) →
  effs = [] ∧
  (∃ p offsets port,
     State.nodesPositions st !! nodeIndex = Some p ∧
     State.nodesOffsets st !! nodeIndex = Some offsets ∧
     NodeOffsets.outputs offsets !! outputIndex = Some port ∧
     State.newEdge st1 =
       Some (NewEdge.mk
         (Vector.mk
            (Position.x p + Position.x (Port.offset port))%Z
            (Position.y p + Position.y (Port.offset port))%Z
            (Position.x p + Position.x (Port.offset port))%Z
            (Position.y p + Position.y (Port.offset port))%Z)
         nodeIndex outputIndex)) ∧
  handleOnMouseUp st1 = ([], Returned () st).
Proof.
  intros Hidle. unfold handleOnOutputMouseDown. run_handler.
  destruct (State.nodesOffsets st !! nodeIndex) as [offsets|] eqn:Ho;
    run_handler; [|done].
  destruct (NodeOffsets.outputs offsets !! outputIndex) as [port|] eqn:Hport;
    run_handler; [|done].
  destruct (State.nodesPositions st !! nodeIndex) as [p|] eqn:Hp; simpl;
    run_handler; try done.
  intros [= <- <-]. split; [done|].
  split; [by exists p, offsets, port|].
  unfold handleOnMouseUp. run_handler. simpl.
  destruct st. simpl in *. by subst.
Qed.

(** X18: whatever it does, [handleOnInputMouseUp] ends the drawing or
    changes nothing: when it returns there is no pending edge, and node
    positions, anchors and the press delta are as before; when it throws,
    the state is the one it started from and nobody was called. *)
Theorem handleOnInputMouseUp_outcome st nodeIndex inputIndex :
  match snd (handleOnInputMouseUp nodeIndex inputIndex st) with
  | Returned _ st' =>
      State.newEdge st' = None ∧
      State.nodesPositions st' = State.nodesPositions st ∧
      State.nodesOffsets st' = State.nodesOffsets st ∧
      State.clickedDelta st' = State.clickedDelta st ∧
      State.prevEdgesRef st' = State.prevEdgesRef st
  | Threw st' =>
      st' = st ∧ fst (handleOnInputMouseUp nodeIndex inputIndex st) = []
  end.
Proof.
  unfold handleOnInputMouseUp. run_handler.
  case_bool_decide as Hself; [by run_handler|].
  destruct (State.nodesData st
              !! from_option NewEdge.sourceNode 0 (State.newEdge st))
    as [sourceData|]; run_handler; [|done].
  destruct (State.nodesData st !! nodeIndex) as [targetData|]; run_handler;
    [|done].
  destruct (State.newEdge st) as [pending|] eqn:Hpending; [|done].
  destruct (_ || _); [by run_handler|].
  rewrite bind_run. unfold createEdge. run_handler.
  repeat
    match goal with
    | |- context [deref ?v ≫= _] => destruct v eqn:?; run_handler; [|done]
    end.
  done.
Qed.

End PendingEdge.

(** X19: while an edge is being drawn, pointer moves keep its anchored
    end and its source port: after any sequence of moves the pending edge
    still starts where the press put it and ends at the last pointer
    position. *)
Theorem mouse_moves_keep_anchor {Data} (layout : Layout)
    (st : State.t Data) pending (moves : list (Z * Z)) :
  State.newEdge st = Some pending →
  State.newEdge
    (runEvents layout ((λ xy, MouseMove (fst xy) (snd xy)) <$> moves) st) =
    Some (NewEdge.mk
      (Vector.mk
         (Vector.x0 (NewEdge.position pending))
         (Vector.y0 (NewEdge.position pending))
         (from_option fst (Vector.x1 (NewEdge.position pending)) (last moves))
         (from_option snd (Vector.y1 (NewEdge.position pending)) (last moves)))
      (NewEdge.sourceNode pending) (NewEdge.sourceOutput pending)).
Proof.
  revert st pending. induction moves as [|[x y] moves IH]; intros st pending Hp.
  - simpl. rewrite Hp. by destruct pending as [[] ? ?].
  - unfold runEvents in *. simpl.
    erewrite IH.
    2:{ unfold run, handleOnMouseMove. run_handler. rewrite Hp.
        run_handler. unfold stateOf. simpl. reflexivity. }
    simpl. destruct moves as [|m moves]; [done|].
    rewrite last_cons_cons.
    destruct (last (m :: moves)) as [xy|] eqn:Hlast; [done|].
    by apply last_None in Hlast.
Qed.

Lemma handleOnOutputMouseDown_then_cancel_witness :
  handleOnMouseUp drawingState = ([], Returned () mountedState).
Proof.
  apply (handleOnOutputMouseDown_then_cancel mountedState 0 0 [] drawingState).
  - reflexivity.
  - vm_compute. reflexivity.
Defined.

Lemma mouse_moves_keep_anchor_witness :
  State.newEdge
    (runEvents rowLayout
       ((λ xy, MouseMove (fst xy) (snd xy)) <$> [(210, 35); (320, 40)]%Z)
       drawingState)
  = Some (NewEdge.mk (Vector.mk 200 30 320 40) 0 0).
Proof.
  apply (mouse_moves_keep_anchor rowLayout drawingState
           (NewEdge.mk (Vector.mk 200 30 200 30) 0 0) [(210, 35); (320, 40)]%Z).
  reflexivity.
Defined.

(** ** Creating and deleting an edge *)

Section CreateDelete.
Context {Data : Type}.
Implicit Types (st : State.t Data).

(** The run of a release that creates an edge. *)
Lemma handleOnInputMouseUp_create_run
    st nodeIndex inputIndex pending sourceData targetData
    sp soffsets sport tp toffsets tport :
  State.newEdge st = Some pending →
  NewEdge.sourceNode pending ≠ nodeIndex →
  State.nodesData st !! NewEdge.sourceNode pending = Some sourceData →
  State.nodesData st !! nodeIndex = Some targetData →
  getEdgeId (NodeData.id sourceData) (NewEdge.sourceOutput pending)
    (NodeData.id targetData) inputIndex ∉ NodeData.edgesOut sourceData →
  getEdgeId (NodeData.id sourceData) (NewEdge.sourceOutput pending)
    (NodeData.id targetData) inputIndex ∉ NodeData.edgesIn targetData →
  State.nodesPositions st !! NewEdge.sourceNode pending = Some sp →
  State.nodesOffsets st !! NewEdge.sourceNode pending = Some soffsets →
  NodeOffsets.outputs soffsets !! NewEdge.sourceOutput pending = Some sport →
  State.nodesPositions st !! nodeIndex = Some tp →
  State.nodesOffsets st !! nodeIndex = Some toffsets →
  NodeOffsets.inputs toffsets !! inputIndex = Some tport →
  let edgeId :=
    getEdgeId (NodeData.id sourceData) (NewEdge.sourceOutput pending)
      (NodeData.id targetData) inputIndex in
  let edgeInfo :=
    EdgeNode.mk (NodeData.id sourceData) (NewEdge.sourceOutput pending)
      (NodeData.id targetData) inputIndex in
  handleOnInputMouseUp nodeIndex inputIndex st =
    ([OnEdgesChange
        (activeEdgesOf (<[edgeId := true]> (State.edgesActives st))
           (<[edgeId := edgeInfo]> (State.edgesNodes st)))],
     Returned ()
       (State.mk
          (<[edgeId := edgeInfo]> (State.edgesNodes st))
          (<[edgeId :=
               Vector.mk
                 (Position.x sp + Position.x (Port.offset sport))%Z
                 (Position.y sp + Position.y (Port.offset sport))%Z
                 (Position.x tp + Position.x (Port.offset tport))%Z
                 (Position.y tp + Position.y (Port.offset tport))%Z]>
             (State.edgesPositions st))
          (<[edgeId := true]> (State.edgesActives st))
          (State.nodesPositions st)
          (alter (λ n, NodeData.set_edgesIn (NodeData.edgesIn n ++ [edgeId]) n)
             nodeIndex
             (alter (λ n, NodeData.set_edgesOut (NodeData.edgesOut n ++ [edgeId]) n)
                (NewEdge.sourceNode pending) (State.nodesData st)))
          (State.nodesOffsets st) (State.clickedDelta st) None
          (State.prevEdgesRef st))).
Proof.
  intros Hpending Hself Hsource Htarget Hnout Hnin Hsp Hso Hsport Htp Hto Htport.
  unfold handleOnInputMouseUp. run_handler. rewrite Hpending. simpl.
  rewrite bool_decide_eq_false_2 by congruence.
  rewrite Hsource. run_handler. rewrite Htarget. run_handler.
  rewrite (bool_decide_eq_false_2 _ Hnout), (bool_decide_eq_false_2 _ Hnin).
  simpl. rewrite bind_run. unfold createEdge. run_handler.
  rewrite Hsp. simpl. run_handler. rewrite Hso. run_handler.
  rewrite Hsport. run_handler. rewrite Htp. simpl. run_handler.
  rewrite Hto. run_handler. rewrite Htport. run_handler.
  simpl. by rewrite insert_insert_eq.
Qed.

(** X20: a release on an input port of another node, for an edge that
    is in neither adjacency list, with positions and anchors in place,
    creates the edge: it is flagged active, gets its endpoints (node
    positions plus port anchors) and its entry in [edgesNodes()], its id
    is appended to the source's [edgesOut] and the target's [edgesIn],
    the host is called once with a list that contains it, and the pending
    edge is cleared.  Other nodes, other edges' endpoints, positions and
    anchors are unchanged. *)
Theorem handleOnInputMouseUp_creates
    st nodeIndex inputIndex pending sourceData targetData
    sp soffsets sport tp toffsets tport :
  State.newEdge st = Some pending →
  NewEdge.sourceNode pending ≠ nodeIndex →
  State.nodesData st !! NewEdge.sourceNode pending = Some sourceData →
  State.nodesData st !! nodeIndex = Some targetData →
  getEdgeId (NodeData.id sourceData) (NewEdge.sourceOutput pending)
    (NodeData.id targetData) inputIndex ∉ NodeData.edgesOut sourceData →
  getEdgeId (NodeData.id sourceData) (NewEdge.sourceOutput pending)
    (NodeData.id targetData) inputIndex ∉ NodeData.edgesIn targetData →
  State.nodesPositions st !! NewEdge.sourceNode pending = Some sp →
  State.nodesOffsets st !! NewEdge.sourceNode pending = Some soffsets →
  NodeOffsets.outputs soffsets !! NewEdge.sourceOutput pending = Some sport →
  State.nodesPositions st !! nodeIndex = Some tp →
  State.nodesOffsets st !! nodeIndex = Some toffsets →
  NodeOffsets.inputs toffsets !! inputIndex = Some tport →
  let edgeId :=
    getEdgeId (NodeData.id sourceData) (NewEdge.sourceOutput pending)
      (NodeData.id targetData) inputIndex in
  ∃ reported st',
    handleOnInputMouseUp nodeIndex inputIndex st =
      ([OnEdgesChange reported], Returned () st') ∧
    EdgeProps.mk edgeId (NodeData.id sourceData) (NodeData.id targetData)
      (NewEdge.sourceOutput pending) inputIndex ∈ reported ∧
    State.newEdge st' = None ∧
    State.edgesActives st' = <[edgeId := true]> (State.edgesActives st) ∧
    State.edgesNodes st' !! edgeId =
      Some (EdgeNode.mk (NodeData.id sourceData) (NewEdge.sourceOutput pending)
              (NodeData.id targetData) inputIndex) ∧
    State.edgesPositions st' !! edgeId =
      Some (Vector.mk
              (Position.x sp + Position.x (Port.offset sport))%Z
              (Position.y sp + Position.y (Port.offset sport))%Z
              (Position.x tp + Position.x (Port.offset tport))%Z
              (Position.y tp + Position.y (Port.offset tport))%Z) ∧
    (∀ k, k ≠ edgeId →
       State.edgesPositions st' !! k = State.edgesPositions st !! k
       ∧ State.edgesNodes st' !! k = State.edgesNodes st !! k) ∧
    State.nodesData st' !! NewEdge.sourceNode pending =
      Some (NodeData.set_edgesOut (NodeData.edgesOut sourceData ++ [edgeId])
              sourceData) ∧
    State.nodesData st' !! nodeIndex =
      Some (NodeData.set_edgesIn (NodeData.edgesIn targetData ++ [edgeId])
              targetData) ∧
    (∀ k, k ≠ NewEdge.sourceNode pending → k ≠ nodeIndex →
       State.nodesData st' !! k = State.nodesData st !! k) ∧
    State.nodesPositions st' = State.nodesPositions st ∧
    State.nodesOffsets st' = State.nodesOffsets st.
Proof.
  intros Hpending Hself Hsource Htarget Hnout Hnin Hsp Hso Hsport Htp Hto Htport
    edgeId.
  eexists _, _. split.
  { by eapply handleOnInputMouseUp_create_run. }
  simpl. split.
  { apply activeEdgesOf_elem. simpl. eexists. rewrite !lookup_insert_eq. done. }
  repeat split.
  - apply lookup_insert_eq.
  - apply lookup_insert_eq.
  - by rewrite lookup_insert_ne.
  - by rewrite lookup_insert_ne.
  - rewrite list_lookup_alter_ne, list_lookup_alter_eq, Hsource by done. done.
  - rewrite list_lookup_alter_eq, list_lookup_alter_ne, Htarget by done. done.
  - intros k Hk1 Hk2. by rewrite !list_lookup_alter_ne.
Qed.

(** The run of the deletion of an edge whose endpoints are found. *)
Lemma handleOnDeleteEdge_run st edgeId edgeInfo targetIndex sourceIndex :
  State.edgesNodes st !! edgeId = Some edgeInfo →
  findIndex (State.nodesData st) (EdgeNode.inNodeId edgeInfo) = Some targetIndex →
  findIndex (State.nodesData st) (EdgeNode.outNodeId edgeInfo) = Some sourceIndex →
  (∀ k, State.edgesActives st !! k = Some true →
        is_Some (State.edgesNodes st !! k)) →
  handleOnDeleteEdge edgeId st =
    ([OnEdgesChange
        (activeEdgesOf (<[edgeId := false]> (State.edgesActives st))
           (State.edgesNodes st))],
     Returned ()
       (State.mk (State.edgesNodes st) (State.edgesPositions st)
          (<[edgeId := false]> (State.edgesActives st))
          (State.nodesPositions st)
          (alter
             (λ n, NodeData.set_edgesOut
                     (filter (λ elem, elem ≠ edgeId) (NodeData.edgesOut n)) n)
             sourceIndex
             (alter
                (λ n, NodeData.set_edgesIn
                        (filter (λ elem, elem ≠ edgeId) (NodeData.edgesIn n)) n)
                targetIndex (State.nodesData st)))
          (State.nodesOffsets st) (State.clickedDelta st) (State.newEdge st)
          (State.prevEdgesRef st))).
Proof.
  intros Hinfo Htarget Hsource Hknown.
  unfold handleOnDeleteEdge. run_handler. rewrite Hinfo. run_handler.
  rewrite Htarget. run_handler. simpl. rewrite Hsource. run_handler. simpl.
  rewrite activeEdgesStrict_is_Some; [by run_handler|].
  intros k Hk. destruct (decide (k = edgeId)) as [->|Hne].
  - by rewrite lookup_insert_eq in Hk.
  - rewrite lookup_insert_ne in Hk by done. by apply Hknown.
Qed.

(** X21: on a well-formed state, deleting an edge that [edgesNodes()]
    knows and whose two nodes are found by id returns and calls the host
    once, with a list that does not contain the edge.  The [edgesIn] of
    the target becomes its [edgesIn] filtered of the id, and the
    [edgesOut] of the source its [edgesOut] filtered of the id: the other
    ids stay, in their order, and nothing else in a node record changes.
    The flag of the edge is cleared, and its entries in [edgesNodes()] and
    [edgesPositions()] stay: the maps are not shrunk. *)
Theorem handleOnDeleteEdge_deletes st edgeId edgeInfo targetIndex sourceIndex :
  wellFormed st →
  State.edgesNodes st !! edgeId = Some edgeInfo →
  findIndex (State.nodesData st) (EdgeNode.inNodeId edgeInfo) = Some targetIndex →
  findIndex (State.nodesData st) (EdgeNode.outNodeId edgeInfo) = Some sourceIndex →
  ∃ reported st',
    handleOnDeleteEdge edgeId st = ([OnEdgesChange reported], Returned () st') ∧
    (∀ edge, edge ∈ reported → EdgeProps.id edge ≠ edgeId) ∧
    State.edgesActives st' = <[edgeId := false]> (State.edgesActives st) ∧
    State.edgesNodes st' = State.edgesNodes st ∧
    State.edgesPositions st' = State.edgesPositions st ∧
    length (State.nodesData st') = length (State.nodesData st) ∧
    (∀ k node, State.nodesData st !! k = Some node →
       State.nodesData st' !! k =
         Some (NodeData.mk
                 (NodeData.id node) (NodeData.data node)
                 (NodeData.inputs node) (NodeData.outputs node)
                 (NodeData.color node)
                 (if bool_decide (k = targetIndex)
                  then filter (λ elem, elem ≠ edgeId) (NodeData.edgesIn node)
                  else NodeData.edgesIn node)
                 (if bool_decide (k = sourceIndex)
                  then filter (λ elem, elem ≠ edgeId) (NodeData.edgesOut node)
                  else NodeData.edgesOut node))) ∧
    (∀ node, State.nodesData st' !! targetIndex = Some node →
       edgeId ∉ NodeData.edgesIn node) ∧
    (∀ node, State.nodesData st' !! sourceIndex = Some node →
       edgeId ∉ NodeData.edgesOut node) ∧
    (∀ k, k ≠ targetIndex → k ≠ sourceIndex →
       State.nodesData st' !! k = State.nodesData st !! k) ∧
    State.newEdge st' = State.newEdge st.
Proof.
  intros (_ & _ & Hflags) Hinfo Htarget Hsource.
  eexists _, _. split.
  { apply (handleOnDeleteEdge_run st edgeId edgeInfo targetIndex sourceIndex);
      try done.
    intros k Hk. apply Hflags. eauto. }
  simpl. repeat split.
  - intros edge (info & Hactive & _)%activeEdgesOf_elem Heq.
    by rewrite Heq, lookup_insert_eq in Hactive.
  - by rewrite !length_alter.
  - intros k node Hk.
    destruct (decide (k = sourceIndex)) as [Hs|Hs],
             (decide (k = targetIndex)) as [Ht|Ht]; subst;
      repeat (rewrite list_lookup_alter_eq
              || rewrite list_lookup_alter_ne by done);
      rewrite Hk; simpl;
      repeat case_bool_decide; try done; by destruct node.
  - intros node. destruct (decide (sourceIndex = targetIndex)) as [->|Hne].
    + rewrite list_lookup_alter_eq, list_lookup_alter_eq.
      intros (n1 & (n0 & _ & ->)%fmap_Some & ->)%fmap_Some. simpl.
      intros [? _]%list_elem_of_filter. done.
    + rewrite list_lookup_alter_ne, list_lookup_alter_eq by done.
      intros (n0 & _ & ->)%fmap_Some. simpl.
      intros [? _]%list_elem_of_filter. done.
  - intros node. rewrite list_lookup_alter_eq.
    intros (n0 & _ & ->)%fmap_Some. simpl.
    intros [? _]%list_elem_of_filter. done.
  - intros k Hk1 Hk2. by rewrite !list_lookup_alter_ne.
Qed.

(** X22: deleting an edge id that [edgesNodes()] does not know, or whose
    target node is not found by id, throws before anything is written and
    before the host is called. *)
Theorem handleOnDeleteEdge_unknown st edgeId :
  State.edgesNodes st !! edgeId = None
  ∨ (∃ edgeInfo, State.edgesNodes st !! edgeId = Some edgeInfo
       ∧ findIndex (State.nodesData st) (EdgeNode.inNodeId edgeInfo) = None) →
  handleOnDeleteEdge edgeId st = ([], Threw st).
Proof.
  intros [Hnone|(edgeInfo & Hinfo & Htarget)];
    unfold handleOnDeleteEdge; run_handler.
  - rewrite Hnone. by run_handler.
  - rewrite Hinfo. run_handler. rewrite Htarget. by run_handler.
Qed.

End CreateDelete.

(** ** Drawing an edge and deleting it again *)

Section RoundTrip.
Context {Data : Type}.
Implicit Types (st : State.t Data).

(** With unique node ids, [findIndex] by the id of a node gives back its
    ordinal. *)
Lemma findIndex_NoDup (nodesData : list (NodeData.t Data)) i node :
  NoDup (NodeData.id <$> nodesData) →
  nodesData !! i = Some node →
  findIndex nodesData (NodeData.id node) = Some i.
Proof.
  intros Hnd Hi. unfold findIndex.
  assert (list_find (λ n, NodeData.id n = NodeData.id node) nodesData
          = Some (i, node)) as ->; [|done].
  apply list_find_Some. split; [done|]. split; [done|].
  intros j y Hj Hlt Hid.
  assert (j = i); [|lia].
  apply (NoDup_lookup (NodeData.id <$> nodesData) j i (NodeData.id node) Hnd).
  - by rewrite list_lookup_fmap, Hj, <- Hid.
  - by rewrite list_lookup_fmap, Hi.
Qed.

Lemma filter_snoc_fresh (l : list string) e :
  e ∉ l → filter (λ elem, elem ≠ e) (l ++ [e]) = l.
Proof.
  intros Hfresh. rewrite filter_app.
  rewrite (filter_cons_False _ e []) by (intros H; by apply H).
  rewrite filter_nil, app_nil_r.
  induction l as [|a l IH]; [done|].
  apply not_elem_of_cons in Hfresh as [Hne Hfresh].
  rewrite filter_cons_True by done. by rewrite IH.
Qed.

Lemma alter_ids (f : NodeData.t Data → NodeData.t Data) i
    (nodesData : list (NodeData.t Data)) :
  (∀ n, NodeData.id (f n) = NodeData.id n) →
  NodeData.id <$> alter f i nodesData = NodeData.id <$> nodesData.
Proof.
  intros Hf. apply list_eq. intros k. rewrite !list_lookup_fmap.
  destruct (decide (i = k)) as [->|Hne].
  - rewrite list_lookup_alter_eq. destruct (nodesData !! k); simpl; [|done].
    by rewrite Hf.
  - by rewrite list_lookup_alter_ne.
Qed.

(** X23: on a well-formed state with unique node ids, deleting an edge
    right after the release that created it returns and restores the node
    records exactly (the id is taken out of the two adjacency lists it
    was appended to); the flag of the edge is left false, not removed, and
    the list passed to the host does not contain the edge. *)
Theorem create_then_delete_restores
    st nodeIndex inputIndex pending sourceData targetData
    sp soffsets sport tp toffsets tport :
  wellFormed st →
  NoDup (NodeData.id <$> State.nodesData st) →
  State.newEdge st = Some pending →
  NewEdge.sourceNode pending ≠ nodeIndex →
  State.nodesData st !! NewEdge.sourceNode pending = Some sourceData →
  State.nodesData st !! nodeIndex = Some targetData →
  getEdgeId (NodeData.id sourceData) (NewEdge.sourceOutput pending)
    (NodeData.id targetData) inputIndex ∉ NodeData.edgesOut sourceData →
  getEdgeId (NodeData.id sourceData) (NewEdge.sourceOutput pending)
    (NodeData.id targetData) inputIndex ∉ NodeData.edgesIn targetData →
  State.nodesPositions st !! NewEdge.sourceNode pending = Some sp →
  State.nodesOffsets st !! NewEdge.sourceNode pending = Some soffsets →
  NodeOffsets.outputs soffsets !! NewEdge.sourceOutput pending = Some sport →
  State.nodesPositions st !! nodeIndex = Some tp →
  State.nodesOffsets st !! nodeIndex = Some toffsets →
  NodeOffsets.inputs toffsets !! inputIndex = Some tport →
  let edgeId :=
    getEdgeId (NodeData.id sourceData) (NewEdge.sourceOutput pending)
      (NodeData.id targetData) inputIndex in
  ∃ reported st2,
    handleOnDeleteEdge edgeId (run (handleOnInputMouseUp nodeIndex inputIndex) st)
      = ([OnEdgesChange reported], Returned () st2) ∧
    State.nodesData st2 = State.nodesData st ∧
    State.edgesActives st2 = <[edgeId := false]> (State.edgesActives st) ∧
    State.newEdge st2 = None ∧
    (∀ edge, edge ∈ reported → EdgeProps.id edge ≠ edgeId).
Proof.
  intros (_ & _ & Hflags) Hnd Hpending Hself Hsource Htarget Hnout Hnin
    Hsp Hso Hsport Htp Hto Htport edgeId.
  unfold run.
  rewrite (handleOnInputMouseUp_create_run st nodeIndex inputIndex pending
             sourceData targetData sp soffsets sport tp toffsets tport)
    by done.
  unfold stateOf. simpl. fold edgeId.
  set (created := alter _ nodeIndex (alter _ (NewEdge.sourceNode pending) _)).
  assert (Hids : NodeData.id <$> created = NodeData.id <$> State.nodesData st).
  { unfold created. by rewrite !alter_ids. }
  assert (Hsrc1 : created !! NewEdge.sourceNode pending =
    Some (NodeData.set_edgesOut (NodeData.edgesOut sourceData ++ [edgeId])
            sourceData)).
  { unfold created.
    by rewrite list_lookup_alter_ne, list_lookup_alter_eq, Hsource. }
  assert (Htgt1 : created !! nodeIndex =
    Some (NodeData.set_edgesIn (NodeData.edgesIn targetData ++ [edgeId])
            targetData)).
  { unfold created.
    by rewrite list_lookup_alter_eq, list_lookup_alter_ne, Htarget. }
  eexists _, _. split.
  { apply (handleOnDeleteEdge_run _ edgeId
             (EdgeNode.mk (NodeData.id sourceData) (NewEdge.sourceOutput pending)
                (NodeData.id targetData) inputIndex)
             nodeIndex (NewEdge.sourceNode pending)); simpl.
    - apply lookup_insert_eq.
    - apply (findIndex_NoDup created nodeIndex _ ltac:(by rewrite Hids) Htgt1).
    - apply (findIndex_NoDup created (NewEdge.sourceNode pending) _
               ltac:(by rewrite Hids) Hsrc1).
    - intros k Hk. apply lookup_insert_is_Some'.
      destruct (decide (edgeId = k)) as [?|Hne]; [by left|right].
      rewrite lookup_insert_ne in Hk by done. apply Hflags. eauto. }
  simpl. repeat split.
  - apply list_eq. intros k.
    destruct (decide (k = NewEdge.sourceNode pending)) as [->|Hk1].
    + rewrite list_lookup_alter_eq, list_lookup_alter_ne, Hsrc1, Hsource by done.
      simpl. f_equal. destruct sourceData. unfold NodeData.set_edgesOut. simpl.
      f_equal. by apply filter_snoc_fresh.
    + rewrite list_lookup_alter_ne by done.
      destruct (decide (k = nodeIndex)) as [->|Hk2].
      * rewrite list_lookup_alter_eq, Htgt1, Htarget. simpl. f_equal.
        destruct targetData. unfold NodeData.set_edgesIn. simpl.
        f_equal. by apply filter_snoc_fresh.
      * rewrite list_lookup_alter_ne by done. unfold created.
        by rewrite !list_lookup_alter_ne.
  - by rewrite insert_insert_eq.
  - intros edge (info & Hactive & _)%activeEdgesOf_elem Heq.
    by rewrite Heq, lookup_insert_eq in Hactive.
Qed.

End RoundTrip.

(** ** Rebuilding on a change of props *)

Section Rebuild.
Context {Data : Type}.
Implicit Types (st : State.t Data).

Lemma reconcile_rebuild_run (layout : Layout) (props : Props.t Data) st
    snapshot warnings :
  length (Props.nodes props) ≠ length (State.nodesData st)
  ∨ EdgeArray.ref (Props.edges props) ≠ State.prevEdgesRef st →
  convertToLayeredGraph layout (Props.nodes props)
    (EdgeArray.elems (Props.edges props)) = Some (snapshot, warnings) →
  reconcile layout props st =
    (ConsoleWarn <$> warnings,
     Returned ()
       (State.mk
          (Snapshot.initEdgesNodes snapshot)
          (Snapshot.initEdgesPositions snapshot)
          (Snapshot.initEdgesActives snapshot)
          (Snapshot.initNodesPositions snapshot)
          (Snapshot.initNodesData snapshot)
          (Snapshot.initNodesOffsets snapshot)
          (State.clickedDelta st) (State.newEdge st)
          (EdgeArray.ref (Props.edges props)))).
Proof.
  intros Hchanged Hc. unfold reconcile. repeat run_step.
  assert (bool_decide (length (Props.nodes props) ≠ length (State.nodesData st))
          || bool_decide (EdgeArray.ref (Props.edges props) ≠ State.prevEdgesRef st)
          = true) as ->.
  { destruct Hchanged as [H|H]; rewrite (bool_decide_eq_true_2 _ H);
      [done|apply orb_true_r]. }
  rewrite Hc. repeat run_step.
  match goal with
  | |- context [(mapM ?g ?l ≫= ?f) ?s] =>
      destruct (bind_mapM_perform (λ w, ConsoleWarn w) l f s) as [units ->]
  end.
  cbv beta. rewrite install_snapshot. simpl. by rewrite app_nil_r.
Qed.

(** X24: when the node count differs from the engine's or the edge array
    is not the one last reconciled, and the builder returns, the effect
    logs the builder's warnings and replaces the six derived structures by
    the snapshot and the remembered reference by the new one.  The press
    delta and the pending edge are kept: an edge being drawn survives a
    rebuild with its source ordinal. *)
Theorem reconcile_rebuilds_state (layout : Layout) (props : Props.t Data) st
    snapshot warnings :
  length (Props.nodes props) ≠ length (State.nodesData st)
  ∨ EdgeArray.ref (Props.edges props) ≠ State.prevEdgesRef st →
  convertToLayeredGraph layout (Props.nodes props)
    (EdgeArray.elems (Props.edges props)) = Some (snapshot, warnings) →
  reconcile layout props st =
    (ConsoleWarn <$> warnings,
     Returned ()
       (State.mk
          (Snapshot.initEdgesNodes snapshot)
          (Snapshot.initEdgesPositions snapshot)
          (Snapshot.initEdgesActives snapshot)
          (Snapshot.initNodesPositions snapshot)
          (Snapshot.initNodesData snapshot)
          (Snapshot.initNodesOffsets snapshot)
          (State.clickedDelta st) (State.newEdge st)
          (EdgeArray.ref (Props.edges props)))).
Proof. apply reconcile_rebuild_run. Qed.

(** X25: the effect is idempotent: after a run that returned, running it
    again with the same props does nothing, so a rebuild is not repeated
    until the node count or the edge array changes again. *)
Theorem reconcile_idempotent (layout : Layout) (props : Props.t Data) st
    effs st' :
  reconcile layout props st = (effs, Returned () st') →
  reconcile layout props st' = ([], Returned () st').
Proof.
  intros Hrun.
  assert (Hsame : length (Props.nodes props) = length (State.nodesData st')
                  ∧ EdgeArray.ref (Props.edges props) = State.prevEdgesRef st').
  { destruct (decide (length (Props.nodes props) = length (State.nodesData st)))
      as [Hlen|Hlen];
    [destruct (decide (EdgeArray.ref (Props.edges props) = State.prevEdgesRef st))
       as [Href|Href]|].
    - unfold reconcile in Hrun. revert Hrun. run_handler.
      rewrite !bool_decide_eq_false_2 by (intros H; by apply H).
      simpl. by intros [= _ <-].
    - destruct (convertToLayeredGraph layout (Props.nodes props)
                  (EdgeArray.elems (Props.edges props)))
        as [[snapshot warnings]|] eqn:Hc.
      + rewrite (reconcile_rebuild_run layout props st snapshot warnings
                   (or_intror Href) Hc) in Hrun.
        injection Hrun as _ <-. simpl.
        apply convertToLayeredGraph_inv in Hc as (graph & -> & _). simpl.
        unfold initNodesData. by rewrite length_fmap.
      + unfold reconcile in Hrun. revert Hrun. run_handler.
        rewrite (bool_decide_eq_true_2 _ Href), orb_true_r, Hc.
        by run_handler.
    - destruct (convertToLayeredGraph layout (Props.nodes props)
                  (EdgeArray.elems (Props.edges props)))
        as [[snapshot warnings]|] eqn:Hc.
      + rewrite (reconcile_rebuild_run layout props st snapshot warnings
                   (or_introl Hlen) Hc) in Hrun.
        injection Hrun as _ <-. simpl.
        apply convertToLayeredGraph_inv in Hc as (graph & -> & _). simpl.
        unfold initNodesData. by rewrite length_fmap.
      + unfold reconcile in Hrun. revert Hrun. run_handler.
        rewrite (bool_decide_eq_true_2 _ Hlen), Hc. simpl.
        by run_handler. }
  destruct Hsame as [Hlen Href].
  unfold reconcile. run_handler.
  rewrite !bool_decide_eq_false_2 by (intros H; by apply H). done.
Qed.

(** X26: when a rebuild is due and the builder throws (the layout call
    threw), the effect throws: nothing is logged, and the state, the
    remembered edge array included, is untouched, so the next run of the
    effect attempts the rebuild again. *)
Theorem reconcile_rebuild_throws (layout : Layout) (props : Props.t Data) st :
  length (Props.nodes props) ≠ length (State.nodesData st)
  ∨ EdgeArray.ref (Props.edges props) ≠ State.prevEdgesRef st →
  convertToLayeredGraph layout (Props.nodes props)
    (EdgeArray.elems (Props.edges props)) = None →
  reconcile layout props st = ([], Threw st).
Proof.
  intros Hchanged Hthrow. unfold reconcile. run_handler.
  destruct Hchanged as [H|H].
  - rewrite (bool_decide_eq_true_2 _ H). simpl. rewrite Hthrow. by run_handler.
  - rewrite (bool_decide_eq_true_2 _ H), orb_true_r. rewrite Hthrow.
    by run_handler.
Qed.

(** ** Deleting a node, seen from the host *)

(** X27: if no edge of the host dangles (every source and target is the
    id of a host node), then none dangles in what [handleOnNodeDelete]
    reports: every edge of the reported list has its source and its target
    among the reported nodes. *)
Theorem handleOnNodeDelete_no_dangling
    (props : Props.t Data) (nodeId : string) st newEdges newNodes :
  (∀ edge, edge ∈ EdgeArray.elems (Props.edges props) →
     EdgeProps.sourceNode edge ∈ NodeProps.id <$> Props.nodes props
     ∧ EdgeProps.targetNode edge ∈ NodeProps.id <$> Props.nodes props) →
  fst (handleOnNodeDelete props nodeId st) =
    [OnEdgesChange newEdges; OnNodesChange newNodes] →
  ∀ edge, edge ∈ newEdges →
    EdgeProps.sourceNode edge ∈ NodeProps.id <$> newNodes
    ∧ EdgeProps.targetNode edge ∈ NodeProps.id <$> newNodes.
Proof.
  intros Hclosed. unfold handleOnNodeDelete. run_handler. simpl.
  intros [= <- <-] edge [[Hs Ht] Hin]%list_elem_of_filter.
  destruct (Hclosed edge Hin) as [Hsrc Htgt].
  apply list_elem_of_fmap in Hsrc as (s & Hsid & Hsin).
  apply list_elem_of_fmap in Htgt as (t & Htid & Htin).
  split; apply list_elem_of_fmap.
  - exists s. split; [done|]. apply list_elem_of_filter. split; [congruence|done].
  - exists t. split; [done|]. apply list_elem_of_filter. split; [congruence|done].
Qed.

End Rebuild.

(** ** Further instances on the Dynamic example *)

Lemma mountedState_wellFormed : wellFormed mountedState.
Proof.
  replace mountedState with
    (runEvents rowLayout
       [NodeMount 0 (measured 0 1) (measured 200 2);
        NodeMount 1 (measured 0 1) (measured 200 1);
        NodeMount 2 (measured 0 2) (measured 200 2)]
       (createdState exampleProps))
    by (vm_compute; reflexivity).
  apply (runEvents_wellFormed_aux rowLayout exampleProps _ []).
  vm_compute. reflexivity.
Qed.

Lemma drawingState_wellFormed : wellFormed drawingState.
Proof.
  replace drawingState with
    (runEvents rowLayout
       [NodeMount 0 (measured 0 1) (measured 200 2);
        NodeMount 1 (measured 0 1) (measured 200 1);
        NodeMount 2 (measured 0 2) (measured 200 2);
        OutputMouseDown 0 0]
       (createdState exampleProps))
    by (vm_compute; reflexivity).
  apply (runEvents_wellFormed_aux rowLayout exampleProps _ []).
  vm_compute. reflexivity.
Qed.

Lemma handleOnInputMouseUp_creates_witness :
  ∃ reported st',
    handleOnInputMouseUp 2 0 drawingState
      = ([OnEdgesChange reported], Returned () st') ∧
    EdgeProps.mk "edge_node-1:0_node-3:0" "node-1" "node-3" 0 0 ∈ reported ∧
    State.newEdge st' = None ∧
    State.edgesPositions st' !! "edge_node-1:0_node-3:0"
      = Some (Vector.mk 200 30 500 30).
Proof.
  destruct (handleOnInputMouseUp_creates drawingState 2 0
              (NewEdge.mk (Vector.mk 200 30 200 30) 0 0)
              (NodeData.mk "node-1" "Node 1 (2 outputs)" 1 2 "white" []
                 ["edge_node-1:0_node-2:0"])
              (NodeData.mk "node-3" "Node 3 (2 in, 2 out)" 2 2 "white" [] [])
              (Position.mk 0 0)
              (NodeOffsets.mk (measured 0 1) (measured 200 2))
              (Port.mk (Position.mk 200 30))
              (Position.mk 500 0)
              (NodeOffsets.mk (measured 0 2) (measured 200 2))
              (Port.mk (Position.mk 0 30)))
    as (reported & st' & Hrun & Hin & Hidle & _ & _ & Hpos & _);
    [reflexivity|simpl; lia|reflexivity|reflexivity|compute_done|compute_done
    |reflexivity..|].
  exists reported, st'. repeat split; [exact Hrun|exact Hin|exact Hidle|exact Hpos].
Defined.

Lemma connectedState_wellFormed : wellFormed connectedState.
Proof.
  replace connectedState with
    (runEvents rowLayout
       [NodeMount 0 (measured 0 1) (measured 200 2);
        NodeMount 1 (measured 0 1) (measured 200 1);
        NodeMount 2 (measured 0 2) (measured 200 2);
        OutputMouseDown 0 0; InputMouseUp 2 0]
       (createdState exampleProps))
    by (vm_compute; reflexivity).
  apply (runEvents_wellFormed_aux rowLayout exampleProps _ []).
  vm_compute. reflexivity.
Qed.

(** An instance: node-1 has two edges out; deleting the one to node-2
    leaves the one to node-3 in its [edgesOut] and empties the [edgesIn]
    of node-2. *)
Lemma handleOnDeleteEdge_deletes_witness :
  ∃ reported st',
    handleOnDeleteEdge "edge_node-1:0_node-2:0" connectedState
      = ([OnEdgesChange reported], Returned () st') ∧
    State.edgesActives st'
      = <["edge_node-1:0_node-2:0" := false]> (State.edgesActives connectedState) ∧
    State.edgesPositions st' = State.edgesPositions connectedState ∧
    NodeData.edgesOut <$> State.nodesData st' !! 0
      = Some ["edge_node-1:0_node-3:0"] ∧
    NodeData.edgesIn <$> State.nodesData st' !! 1 = Some [].
Proof.
  destruct (handleOnDeleteEdge_deletes connectedState "edge_node-1:0_node-2:0"
              (EdgeNode.mk "node-1" 0 "node-2" 0) 1 0)
    as (reported & st' & Hrun & _ & Hflags & _ & Hpos & _ & Hnodes & _);
    [exact connectedState_wellFormed|reflexivity..|].
  exists reported, st'.
  split; [exact Hrun|]. split; [exact Hflags|]. split; [exact Hpos|]. split.
  - rewrite (Hnodes 0
      (NodeData.mk "node-1" "Node 1 (2 outputs)" 1 2 "white" []
         ["edge_node-1:0_node-2:0"; "edge_node-1:0_node-3:0"]) eq_refl).
    reflexivity.
  - rewrite (Hnodes 1
      (NodeData.mk "node-2" "Node 2 (1 output)" 1 1 "white"
         ["edge_node-1:0_node-2:0"] []) eq_refl).
    reflexivity.
Defined.

Lemma handleOnDeleteEdge_unknown_witness :
  handleOnDeleteEdge "edge_node-1:1_node-3:0" mountedState
    = ([], Threw mountedState).
Proof.
  apply (handleOnDeleteEdge_unknown mountedState "edge_node-1:1_node-3:0").
  left. reflexivity.
Defined.

Lemma create_then_delete_restores_witness :
  ∃ reported st2,
    handleOnDeleteEdge "edge_node-1:0_node-3:0"
        (run (handleOnInputMouseUp 2 0) drawingState)
      = ([OnEdgesChange reported], Returned () st2) ∧
    State.nodesData st2 = State.nodesData drawingState.
Proof.
  destruct (create_then_delete_restores drawingState 2 0
              (NewEdge.mk (Vector.mk 200 30 200 30) 0 0)
              (NodeData.mk "node-1" "Node 1 (2 outputs)" 1 2 "white" []
                 ["edge_node-1:0_node-2:0"])
              (NodeData.mk "node-3" "Node 3 (2 in, 2 out)" 2 2 "white" [] [])
              (Position.mk 0 0)
              (NodeOffsets.mk (measured 0 1) (measured 200 2))
              (Port.mk (Position.mk 200 30))
              (Position.mk 500 0)
              (NodeOffsets.mk (measured 0 2) (measured 200 2))
              (Port.mk (Position.mk 0 30)))
    as (reported & st2 & Hrun & Hnodes & _);
    [exact drawingState_wellFormed|compute_done|reflexivity|simpl; lia
    |reflexivity|reflexivity|compute_done|compute_done|reflexivity..|].
  exists reported, st2. split; [exact Hrun|exact Hnodes].
Defined.

Lemma reconcile_rebuilds_state_witness :
  ∃ snapshot warnings,
    convertToLayeredGraph rowLayout (Props.nodes swappedProps)
      (EdgeArray.elems (Props.edges swappedProps)) = Some (snapshot, warnings) ∧
    reconcile rowLayout swappedProps drawingState =
      (ConsoleWarn <$> warnings,
       Returned ()
         (State.mk
            (Snapshot.initEdgesNodes snapshot)
            (Snapshot.initEdgesPositions snapshot)
            (Snapshot.initEdgesActives snapshot)
            (Snapshot.initNodesPositions snapshot)
            (Snapshot.initNodesData snapshot)
            (Snapshot.initNodesOffsets snapshot)
            (State.clickedDelta drawingState) (State.newEdge drawingState) 2)).
Proof.
  destruct (convertToLayeredGraph rowLayout (Props.nodes swappedProps)
              (EdgeArray.elems (Props.edges swappedProps)))
    as [[snapshot warnings]|] eqn:Hc; [|by vm_compute in Hc].
  exists snapshot, warnings. split; [done|].
  apply (reconcile_rebuilds_state rowLayout swappedProps drawingState
           snapshot warnings); [|exact Hc].
  right. compute_done.
Defined.

Lemma reconcile_idempotent_witness :
  reconcile rowLayout swappedProps
      (run (reconcile rowLayout swappedProps) drawingState)
    = ([], Returned () (run (reconcile rowLayout swappedProps) drawingState)).
Proof.
  apply (reconcile_idempotent rowLayout swappedProps drawingState
           [ConsoleWarn
              (Warning.mk "edge_node-8:0_node-9:0" "node-8" false "node-9" false)]).
  vm_compute. reflexivity.
Defined.

Lemma reconcile_rebuild_throws_witness :
  reconcile throwingLayout swappedProps drawingState = ([], Threw drawingState).
Proof.
  apply (reconcile_rebuild_throws throwingLayout swappedProps drawingState).
  - right. compute_done.
  - reflexivity.
Defined.

Lemma handleOnNodeDelete_no_dangling_witness :
  EdgeProps.sourceNode edge12 ∈ NodeProps.id <$> [node1; node2]
  ∧ EdgeProps.targetNode edge12 ∈ NodeProps.id <$> [node1; node2].
Proof.
  apply (handleOnNodeDelete_no_dangling exampleProps "node-3" mountedState
           [edge12] [node1; node2]).
  - intros edge Hin%list_elem_of_singleton. subst edge. split; compute_done.
  - reflexivity.
  - apply list_elem_of_here.
Defined.
